(** * A shallow embedding of the syslog server (server.go)

    The file follows the Go source: the packages of the Go library that
    [receiver] calls are modelled first (utf8, unicode, strconv, bytes,
    strings, time), then the package itself (Message, Server, the handler
    chain, Shutdown and the decoding part of [receiver]).  Go [int] and
    [rune] values are integers of [Z]: every integer the decoder computes is
    a length or an offset into a packet, or a priority of at most three
    digits, so no wrap-around arises.  A Go [string] and a [[]byte] are both
    [list byte]. *)

From Stdlib Require Import ZArith List Bool Lia.
From Stdlib Require Import Strings.String Strings.Ascii Strings.Byte.
From stdpp Require Import base option list gmap.

Open Scope Z_scope.

(** ** Bytes, runtime panics, indexing and slicing *)

(** The numeric value of a byte. *)
Definition bz (b : byte) : Z := Z.of_N (Byte.to_N b).

(** A byte string written as a literal. *)
Definition lit (s : string) : list byte := list_byte_of_string s.

Definition len {A} (s : list A) : Z := Z.of_nat (length s).

(** A Go computation either returns or panics at run time. *)
Inductive result (A : Type) : Type :=
  | Ok (a : A)
  | Panic (why : string).
Arguments Ok {A} a.
Arguments Panic {A} why.

Definition bind {A B} (x : result A) (k : A -> result B) : result B :=
  match x with
  | Ok a => k a
  | Panic why => Panic why
  end.

Notation "'do' x <- e ; k" := (bind e (fun x => k))
  (at level 10, x name, e at level 100, k at level 200).
Notation "'do' ' p <- e ; k" := (bind e (fun x => let 'p := x in k))
  (at level 10, p strict pattern, e at level 100, k at level 200).

(** [s[i]]: panics when [i] is out of range. *)
Definition index (s : list byte) (i : Z) : result byte :=
  if (0 <=? i) && (i <? len s)
  then Ok (nth (Z.to_nat i) s x00)
  else Panic "index out of range".

(** [s[lo:hi]]: panics unless [0 <= lo <= hi <= len(s)]. *)
Definition slice (s : list byte) (lo hi : Z) : result (list byte) :=
  if (0 <=? lo) && (lo <=? hi) && (hi <=? len s)
  then Ok (take (Z.to_nat (hi - lo)) (drop (Z.to_nat lo) s))
  else Panic "slice bounds out of range".

(** [s[lo:]] *)
Definition slice_from (s : list byte) (lo : Z) : result (list byte) :=
  slice s lo (len s).

(** [s[:hi]] *)
Definition slice_to (s : list byte) (hi : Z) : result (list byte) :=
  slice s 0 hi.

(** ** Package unicode/utf8 *)

Module utf8.

Definition RuneError : Z := 0xFFFD.
Definition RuneSelf : Z := 0x80.
Definition UTFMax : Z := 4.

Definition maskx : Z := 0x3F.
Definition mask2 : Z := 0x1F.
Definition mask3 : Z := 0x0F.
Definition mask4 : Z := 0x07.
Definition locb : Z := 0x80.
Definition hicb : Z := 0xBF.

(* Entries of the table [first]: the low three bits are the size of the
   encoding, the high four bits index [acceptRanges]. *)
Definition xx : Z := 0xF1.
Definition as_ : Z := 0xF0.
Definition s1 : Z := 0x02.
Definition s2 : Z := 0x13.
Definition s3 : Z := 0x03.
Definition s4 : Z := 0x23.
Definition s5 : Z := 0x34.
Definition s6 : Z := 0x04.
Definition s7 : Z := 0x44.

(** The table [first], by the ranges of its rows. *)
Definition first (b : Z) : Z :=
  if b <? 0x80 then as_
  else if b <? 0xC2 then xx
  else if b <? 0xE0 then s1
  else if b =? 0xE0 then s2
  else if b <? 0xED then s3
  else if b =? 0xED then s4
  else if b <? 0xF0 then s3
  else if b =? 0xF0 then s5
  else if b <? 0xF4 then s6
  else if b =? 0xF4 then s7
  else xx.

Record acceptRange := { lo : Z; hi : Z }.

Definition acceptRanges (i : Z) : acceptRange :=
  match i with
  | 0 => {| lo := locb; hi := hicb |}
  | 1 => {| lo := 0xA0; hi := hicb |}
  | 2 => {| lo := locb; hi := 0x9F |}
  | 3 => {| lo := 0x90; hi := hicb |}
  | 4 => {| lo := locb; hi := 0x8F |}
  | _ => {| lo := 0; hi := 0 |}
  end.

(* [p[i]] where the caller has checked the length. *)
Definition at_ (p : list byte) (i : nat) : Z := bz (nth i p x00).

(** [DecodeRune(p)] (and [DecodeRuneInString]): the first rune of [p] and
    its width in bytes; [(RuneError, 1)] for an invalid encoding and
    [(RuneError, 0)] for the empty string. *)
Definition DecodeRune (p : list byte) : Z * Z :=
  let n := len p in
  if n <? 1 then (RuneError, 0) else
  let p0 := at_ p 0 in
  let x := first p0 in
  if as_ <=? x then
    (* mask := rune(x) << 31 >> 31 is all ones exactly when bit 0 of x is set *)
    ((if Z.testbit x 0 then RuneError else p0), 1)
  else
    let sz := Z.land x 7 in
    let accept := acceptRanges (Z.shiftr x 4) in
    if n <? sz then (RuneError, 1) else
    let b1 := at_ p 1 in
    if (b1 <? lo accept) || (hi accept <? b1) then (RuneError, 1) else
    if sz <=? 2 then
      (Z.lor (Z.shiftl (Z.land p0 mask2) 6) (Z.land b1 maskx), 2)
    else
    let b2 := at_ p 2 in
    if (b2 <? locb) || (hicb <? b2) then (RuneError, 1) else
    if sz <=? 3 then
      (Z.lor (Z.lor (Z.shiftl (Z.land p0 mask3) 12)
                    (Z.shiftl (Z.land b1 maskx) 6))
             (Z.land b2 maskx), 3)
    else
    let b3 := at_ p 3 in
    if (b3 <? locb) || (hicb <? b3) then (RuneError, 1) else
    (Z.lor (Z.lor (Z.lor (Z.shiftl (Z.land p0 mask4) 18)
                         (Z.shiftl (Z.land b1 maskx) 12))
                  (Z.shiftl (Z.land b2 maskx) 6))
           (Z.land b3 maskx), 4).

(** [RuneStart(b)]: [b] is not a continuation byte. *)
Definition RuneStart (b : Z) : bool := negb (Z.land b 0xC0 =? 0x80).

(* The loop [for start--; start >= lim; start-- { if RuneStart(p[start]) { break } }]
   of DecodeLastRune; it runs at most UTFMax times. *)
Fixpoint scanStart (fuel : nat) (p : list byte) (start lim : Z) : Z :=
  match fuel with
  | O => start
  | S k =>
      if start <? lim then start
      else if RuneStart (at_ p (Z.to_nat start)) then start
      else scanStart k p (start - 1) lim
  end.

(** [DecodeLastRune(p)] (and [DecodeLastRuneInString]): the last rune of
    [p] and its width. *)
Definition DecodeLastRune (p : list byte) : Z * Z :=
  let end_ := len p in
  if end_ =? 0 then (RuneError, 0) else
  let start := end_ - 1 in
  let r := at_ p (Z.to_nat start) in
  if r <? RuneSelf then (r, 1) else
  let lim := Z.max (end_ - UTFMax) 0 in
  let start := scanStart 4 p (start - 1) lim in
  let start := if start <? 0 then 0 else start in
  let '(r, size) := DecodeRune (drop (Z.to_nat start) p) in
  if negb (start + size =? end_) then (RuneError, 1) else (r, size).

End utf8.

(** ** Package unicode

    The range tables of the package that lie above Latin-1 are data of the
    Go release and are taken as parameters ([Tables]); the Latin-1 rows of
    the property table are written out. *)

Record Tables := {
  Letter : Z -> bool;        (* unicode.Letter, for runes above MaxLatin1 *)
  Number : Z -> bool;        (* unicode.Number, for runes above MaxLatin1 *)
  Digit : Z -> bool;         (* unicode.Digit, for runes above MaxLatin1 *)
  White_Space : Z -> bool    (* unicode.White_Space, for runes above MaxLatin1 *)
}.

Module unicode.

Definition MaxLatin1 : Z := 0xFF.

(* uint32(r) <= MaxLatin1 *)
Definition isLatin1 (r : Z) : bool := (0 <=? r) && (r <=? MaxLatin1).

(* properties[uint8(r)] & pLmask != 0 *)
Definition latin1Letter (r : Z) : bool :=
  ((0x41 <=? r) && (r <=? 0x5A)) || ((0x61 <=? r) && (r <=? 0x7A))
  || (r =? 0xAA) || (r =? 0xB5) || (r =? 0xBA)
  || ((0xC0 <=? r) && (r <=? 0xD6)) || ((0xD8 <=? r) && (r <=? 0xF6))
  || ((0xF8 <=? r) && (r <=? 0xFF)).

(* properties[uint8(r)] & pN != 0 *)
Definition latin1Number (r : Z) : bool :=
  ((0x30 <=? r) && (r <=? 0x39))
  || (r =? 0xB2) || (r =? 0xB3) || (r =? 0xB9)
  || ((0xBC <=? r) && (r <=? 0xBE)).

Definition IsLetter (t : Tables) (r : Z) : bool :=
  if isLatin1 r then latin1Letter r else Letter t r.

Definition IsNumber (t : Tables) (r : Z) : bool :=
  if isLatin1 r then latin1Number r else Number t r.

(* Not called by the server: the decimal digits, for the claims that speak
   of digits. *)
Definition IsDigit (t : Tables) (r : Z) : bool :=
  if isLatin1 r then (0x30 <=? r) && (r <=? 0x39) else Digit t r.

Definition IsSpace (t : Tables) (r : Z) : bool :=
  if isLatin1 r then
    (r =? 0x09) || (r =? 0x0A) || (r =? 0x0B) || (r =? 0x0C) || (r =? 0x0D)
    || (r =? 0x20) || (r =? 0x85) || (r =? 0xA0)
  else White_Space t r.

End unicode.

(** ** Package strconv *)

Module strconv.

(* The loop [for _, ch := range []byte(s) { ch -= '0'; if ch > 9 {...}; n = n*10 + int(ch) }];
   the subtraction is on uint8. *)
Fixpoint digits (s : list byte) (n : Z) : option Z :=
  match s with
  | [] => Some n
  | ch :: rest =>
      let ch := (bz ch - 48) mod 256 in
      if 9 <? ch then None else digits rest (n * 10 + ch)
  end.

(** [Atoi(s)], by its path for short strings ([0 < len(s) < 19] with a
    64-bit int, [< 10] with a 32-bit one); the receiver passes one to
    three bytes.  [None] is the syntax error. *)
Definition Atoi (s : list byte) : option Z :=
  match s with
  | [] => None
  | s0 :: rest =>
      let signed := (bz s0 =? 45) || (bz s0 =? 43) in   (* '-' or '+' *)
      let s' := if signed then rest else s in
      if signed && (len s' <? 1) then None else
      match digits s' 0 with
      | None => None
      | Some n => Some (if bz s0 =? 45 then - n else n)
      end
  end.

End strconv.

(** ** Packages strings and bytes *)

Module strings.

(* [for i, r := range s]: the runes of [s] with the byte offsets they
   start at.  Every step consumes at least one byte, so [length s] steps
   are enough. *)
Fixpoint rangeLoop (fuel : nat) (s : list byte) (i : Z) : list (Z * Z) :=
  match fuel with
  | O => []
  | S k =>
      match s with
      | [] => []
      | _ =>
          let '(r, size) := utf8.DecodeRune s in
          (i, r) :: rangeLoop k (drop (Z.to_nat size) s) (i + size)
      end
  end.

Definition range (s : list byte) : list (Z * Z) := rangeLoop (length s) s 0.

(* The body of [indexFunc]: return the offset of the first rune with
   [f(r) == truth], or -1. *)
Fixpoint firstIndex (f : Z -> bool) (truth : bool) (rs : list (Z * Z)) : Z :=
  match rs with
  | [] => -1
  | (i, r) :: rest => if Bool.eqb (f r) truth then i else firstIndex f truth rest
  end.

Definition indexFunc (s : list byte) (f : Z -> bool) (truth : bool) : Z :=
  firstIndex f truth (range s).

(** [IndexFunc(s, f)] *)
Definition IndexFunc (s : list byte) (f : Z -> bool) : Z := indexFunc s f true.

(* [for i := len(s); i > 0; { r, size := utf8.DecodeLastRuneInString(s[0:i]); i -= size;
     if f(r) == truth { return i } }; return -1] *)
Fixpoint lastIndexLoop (fuel : nat) (s : list byte) (f : Z -> bool) (truth : bool)
    (i : Z) : Z :=
  match fuel with
  | O => -1
  | S k =>
      if i <=? 0 then -1 else
      let '(r, size) := utf8.DecodeLastRune (take (Z.to_nat i) s) in
      let i := i - size in
      if Bool.eqb (f r) truth then i else lastIndexLoop k s f truth i
  end.

Definition lastIndexFunc (s : list byte) (f : Z -> bool) (truth : bool) : Z :=
  lastIndexLoop (length s) s f truth (len s).

(** [TrimLeftFunc(s, f)] *)
Definition TrimLeftFunc (s : list byte) (f : Z -> bool) : list byte :=
  let i := indexFunc s f false in
  if i =? -1 then [] else drop (Z.to_nat i) s.

(** [TrimRightFunc(s, f)] *)
Definition TrimRightFunc (s : list byte) (f : Z -> bool) : list byte :=
  let i := lastIndexFunc s f false in
  let i :=
    if (0 <=? i) && (utf8.RuneSelf <=? utf8.at_ s (Z.to_nat i))
    then i + snd (utf8.DecodeRune (drop (Z.to_nat i) s))
    else i + 1 in
  take (Z.to_nat i) s.

(** [TrimFunc(s, f)] *)
Definition TrimFunc (s : list byte) (f : Z -> bool) : list byte :=
  TrimRightFunc (TrimLeftFunc s f) f.

End strings.

Module bytes.

(** [IndexByte(b, c)]: the offset of the first [c] in [b], or -1. *)
Fixpoint IndexByte (b : list byte) (c : byte) : Z :=
  match b with
  | [] => -1
  | x :: rest =>
      if Byte.eqb x c then 0
      else let i := IndexByte rest c in if i =? -1 then -1 else 1 + i
  end.

(* [for i := len(s); i > 0; { r, size := rune(s[i-1]), 1;
     if r >= utf8.RuneSelf { r, size = utf8.DecodeLastRune(s[0:i]) }; i -= size;
     if f(r) == truth { return i } }; return -1] *)
Fixpoint lastIndexLoop (fuel : nat) (s : list byte) (f : Z -> bool) (truth : bool)
    (i : Z) : Z :=
  match fuel with
  | O => -1
  | S k =>
      if i <=? 0 then -1 else
      let r := utf8.at_ s (Z.to_nat (i - 1)) in
      let '(r, size) :=
        if utf8.RuneSelf <=? r then utf8.DecodeLastRune (take (Z.to_nat i) s)
        else (r, 1) in
      let i := i - size in
      if Bool.eqb (f r) truth then i else lastIndexLoop k s f truth i
  end.

Definition lastIndexFunc (s : list byte) (f : Z -> bool) (truth : bool) : Z :=
  lastIndexLoop (length s) s f truth (len s).

(** [TrimRightFunc(s, f)] *)
Definition TrimRightFunc (s : list byte) (f : Z -> bool) : list byte :=
  let i := lastIndexFunc s f false in
  let i :=
    if (0 <=? i) && (utf8.RuneSelf <=? utf8.at_ s (Z.to_nat i))
    then i + snd (utf8.DecodeRune (drop (Z.to_nat i) s))
    else i + 1 in
  take (Z.to_nat i) s.

End bytes.

(** ** Package time *)

Module time.

(** A [time.Time], as far as the server observes one: the instant, in
    seconds since January 1 of year 1, 00:00:00 UTC, and nanoseconds. *)
Record Time := { sec : Z; nsec : Z }.

(* The zero value of the struct. *)
Definition zero : Time := {| sec := 0; nsec := 0 |}.

(** [t.IsZero()] *)
Definition IsZero (t : Time) : bool := (sec t =? 0) && (nsec t =? 0).

(** [time.RFC3339] *)
Definition RFC3339 : list byte := lit "2006-01-02T15:04:05Z07:00".

End time.

(** ** Package syslog: the data model *)

(** What the decoder takes from the Go release it runs on: the Unicode
    range tables and [time.Parse(layout, value)] ([None] for an error). *)
Record Runtime := {
  unicodeTables : Tables;
  time_Parse : list byte -> list byte -> option time.Time
}.

(** A non-nil [net.Addr]: its [Network()] and [String()]. *)
Record Addr := { addrNetwork : list byte; addrString : list byte }.

(** Modelled from the spec: the struct [Message], which server.go uses and
    another file of the package declares.  The fields are the ten that
    [receiver] assigns; [Severity] and [Facility] are integers ([severity]
    is 0 to 7 and [facility] is at least 0 in the spec), and the decoder
    stores at most 7 and 124 in them, so the conversions [Severity(...)] and
    [Facility(...)] change no value.  An optional field that was not set
    holds the zero value of its type. *)
Record Message := {
  Source : option Addr; Time : time.Time;
  Facility : Z; Severity : Z;
  Timestamp : time.Time; Hostname : list byte;
  Tag : list byte; Content : list byte;
  Tag1 : list byte; Content1 : list byte
}.

(** What a run leaves behind for an observer, in the order it happened. *)
Inductive Event :=
  | EClose (i : nat) (err : option (list byte))
      (* [s.conns[i].Close()] was called and returned [err] *)
  | EFatal (v : list (list byte))
      (* [s.l.Fatalln(v...)] was called *)
  | EHandle (i : nat) (arg ret : option Message).
      (* [s.handlers[i].Handle(arg)] was called and returned [ret] *)

Section Server.

(** The state that handlers, listeners and loggers read and write. *)
Context {W : Type}.

(** Modelled from the spec: the interface [Handler], with the one method
    [Handle(m *Message) *Message]; [None] is the nil pointer. *)
Record Handler := { Handle : option Message -> W -> option Message * W }.

(** Of [net.Listener], the method [Close() error]. *)
Record Listener := { Close : W -> option (list byte) * W }.

(** Modelled from the spec: the interface [FatalLogger], with the one
    method [Fatalln(v ...interface{})].  [None]: the call ends the
    process and does not return, as the standard logger's does. *)
Record FatalLogger := { Fatalln : list (list byte) -> W -> option W }.

Record Server := {
  conns : list Listener;
  handlers : list Handler;
  shutdown : bool;
  tagrunes : gmap Z bool;    (* a nil map reads as the empty map *)
  l : FatalLogger
}.

(** The logger of [NewServer], a [log.Logger] on the standard error
    stream: its [Fatalln] prints and calls [os.Exit(1)]. *)
Definition stdLogger : FatalLogger := {| Fatalln := fun _ _ => None |}.

Definition NewServer : Server :=
  {| conns := []; handlers := []; shutdown := false; tagrunes := ∅; l := stdLogger |}.

Definition SetLogger (s : Server) (l' : FatalLogger) : Server :=
  {| conns := conns s; handlers := handlers s; shutdown := shutdown s;
     tagrunes := tagrunes s; l := l' |}.

Definition AddHandler (s : Server) (h : Handler) : Server :=
  {| conns := conns s; handlers := handlers s ++ [h]; shutdown := shutdown s;
     tagrunes := tagrunes s; l := l s |}.

(* The loop of [passToHandlers] from the [i]-th handler on. *)
Fixpoint dispatch (i : nat) (hs : list Handler) (m : option Message) (w : W)
    : list Event * W :=
  match hs with
  | [] => ([], w)
  | h :: rest =>
      let '(m', w') := Handle h m w in          (* m = h.Handle(m) *)
      match m' with
      | None => ([EHandle i m m'], w')          (* break *)
      | Some _ =>
          let '(evs, w'') := dispatch (S i) rest m' w' in
          (EHandle i m m' :: evs, w'')
      end
  end.

Definition passToHandlers (s : Server) (m : option Message) (w : W)
    : list Event * W :=
  dispatch 0 (handlers s) m w.

(* The loop [for _, c := range s.conns] of [Shutdown] from the [i]-th
   listener on; [None] when a [Fatalln] did not return. *)
Fixpoint closeConns (lg : FatalLogger) (i : nat) (cs : list Listener) (w : W)
    : list Event * option W :=
  match cs with
  | [] => ([], Some w)
  | c :: rest =>
      let '(err, w1) := Close c w in
      match err with
      | None =>
          let '(evs, r) := closeConns lg (S i) rest w1 in
          (EClose i None :: evs, r)
      | Some e =>
          match Fatalln lg [e] w1 with
          | None => ([EClose i err; EFatal [e]], None)
          | Some w2 =>
              let '(evs, r) := closeConns lg (S i) rest w2 in
              (EClose i err :: EFatal [e] :: evs, r)
          end
      end
  end.

(** [Shutdown]: the events of the run and, when the call returns, the
    server and the state it leaves. *)
Definition Shutdown (s : Server) (w : W) : list Event * option (Server * W) :=
  let s1 := {| conns := conns s; handlers := handlers s; shutdown := true;
               tagrunes := tagrunes s; l := l s |} in
  match closeConns (l s1) 0 (conns s1) w with
  | (evs, None) => (evs, None)
  | (evs, Some w1) =>
      let '(evs', w2) := passToHandlers s1 None w1 in
      (evs ++ evs',
       Some ({| conns := []; handlers := []; shutdown := shutdown s1;
                tagrunes := tagrunes s1; l := l s1 |}, w2))
  end.

(* [s.tagrunes[r]] *)
Definition allowed (s : Server) (r : Z) : bool := default false (tagrunes s !! r).

Definition isNotAlnum (t : Tables) (s : Server) (r : Z) : bool :=
  negb (unicode.IsLetter t r || unicode.IsNumber t r || allowed s r).

Definition isNulCrLf (r : Z) : bool := (r =? 0) || (r =? 13) || (r =? 10).

Definition AddAllowedRunes (s : Server) (allowed : list byte) : Server :=
  {| conns := conns s; handlers := handlers s; shutdown := shutdown s;
     tagrunes := foldl (fun m ir => <[snd ir := true]> m) ∅ (strings.range allowed);
     l := l s |}.

(** ** The decoder: the body of the loop of [receiver] from [pkt := buf[:n]]
    to the call of [passToHandlers] *)

(** Lines 123 to 136, "Parse priority (if exists)": the priority, whether
    the packet had one, and the packet left. *)
Definition parsePriority (pkt : list byte) : result (Z * bool * list byte) :=
  let prio := 13 in
  let hasPrio := false in
  do b0 <- index pkt 0;
  if Byte.eqb b0 "<" then
    do tl <- slice_from pkt 1;
    let n := 1 + bytes.IndexByte tl ">" in
    if (1 <? n) && (n <? 5) then
      do tok <- slice pkt 1 n;
      match strconv.Atoi tok with
      | Some p =>
          if 0 <=? p then
            do rest <- slice_from pkt (n + 1);
            Ok (p, true, rest)
          else Ok (prio, hasPrio, pkt)
      | None => Ok (prio, hasPrio, pkt)
      end
    else Ok (prio, hasPrio, pkt)
  else Ok (prio, hasPrio, pkt).

Definition stampLayout : list byte := lit "Jan _2 15:04:05".

(** Lines 143 to 160, "Parse header (if exists)": the value of
    [hostnameOffset].  Each branch declares a [ts] of its own with [:=],
    so the time it parses is used for the test and then dropped. *)
Definition parseHeader (rt : Runtime) (hasPrio : bool) (pkt : list byte) : result Z :=
  do probe5424 <-
    (if hasPrio && (26 <=? len pkt) then
       do b25 <- index pkt 25;
       if Byte.eqb b25 " " then
         do b15 <- index pkt 15; Ok (negb (Byte.eqb b15 " "))
       else Ok false
     else Ok false);
  if probe5424 then
    do value <- slice_to pkt 25;
    match time_Parse rt time.RFC3339 value with
    | Some ts => if negb (time.IsZero ts) then Ok 26 else Ok 0
    | None => Ok 0
    end
  else
    do probe3164 <-
      (if hasPrio && (16 <=? len pkt) then
         do b15 <- index pkt 15; Ok (Byte.eqb b15 " ")
       else Ok false);
    if probe3164 then
      do value <- slice_to pkt 15;
      match time_Parse rt stampLayout value with
      | Some ts => if negb (time.IsZero ts) then Ok 16 else Ok 0
      | None => Ok 0
      end
    else Ok 0.

(** Lines 162 to 171: the timestamp and the hostname of the message, the
    packet left, and the packet that [log.Printf] reports, if any.  [ts]
    is the variable of line 141. *)
Definition parseHostname (ts : time.Time) (hostnameOffset : Z) (pkt : list byte)
    : result (time.Time * list byte * list byte * option (list byte)) :=
  if hostnameOffset =? 0 then
    Ok (time.zero, [], pkt, Some pkt)
  else
    do tl <- slice_from pkt hostnameOffset;
    let n := hostnameOffset + bytes.IndexByte tl " " in
    if negb (n =? hostnameOffset - 1) then
      do host <- slice pkt hostnameOffset n;
      do rest <- slice_from pkt (n + 1);
      Ok (ts, host, rest, None)
    else Ok (time.zero, [], pkt, None).

(** Lines 174 to 190, "Parse msg part": Tag, Content, Tag1, Content1. *)
Definition parseMsg (rt : Runtime) (s : Server) (pkt : list byte)
    : result (list byte * list byte * list byte * list byte) :=
  let t := unicodeTables rt in
  let msg := bytes.TrimRightFunc pkt isNulCrLf in
  let n := strings.IndexFunc msg (isNotAlnum t s) in
  do '(tag, content) <-
    (if negb (n =? -1) then
       do tag <- slice_to msg n;
       do content <- slice_from msg n;
       Ok (tag, content)
     else Ok ([], msg));
  let msg := strings.TrimFunc msg (unicode.IsSpace t) in
  let n := strings.IndexFunc msg (unicode.IsSpace t) in
  do '(tag1, content1) <-
    (if negb (n =? -1) then
       do tag1 <- slice_to msg n;
       do tl <- slice_from msg (n + 1);
       Ok (tag1, strings.TrimLeftFunc tl (unicode.IsSpace t))
     else Ok ([], msg));
  Ok (tag, content, tag1, content1).

(** The message decoded from [pkt], read from [remote], where the two
    calls of [time.Now()] (lines 121 and 141) returned [now] and [ts];
    with it, the packet that [log.Printf] reports as not parsed. *)
Definition receiver_decode (rt : Runtime) (s : Server) (remote : option Addr)
    (now ts : time.Time) (pkt : list byte)
    : result (Message * option (list byte)) :=
  do '(prio, hasPrio, pkt) <- parsePriority pkt;
  let severity := Z.land prio 0x07 in
  let facility := Z.shiftr prio 3 in
  do hostnameOffset <- parseHeader rt hasPrio pkt;
  do '(timestamp, hostname, pkt, logged) <- parseHostname ts hostnameOffset pkt;
  do '(tag, content, tag1, content1) <- parseMsg rt s pkt;
  Ok ({| Source := remote; Time := now;
         Facility := facility; Severity := severity;
         Timestamp := timestamp; Hostname := hostname;
         Tag := tag; Content := content; Tag1 := tag1; Content1 := content1 |},
      logged).

(** One turn of the loop of [receiver] after a read that returned no
    error: decode, then [s.passToHandlers(m)]. *)
Definition receiver_step (rt : Runtime) (s : Server) (remote : option Addr)
    (now ts : time.Time) (pkt : list byte) (w : W)
    : result (option (list byte) * list Event * W) :=
  do '(m, logged) <- receiver_decode rt s remote now ts pkt;
  let '(evs, w') := passToHandlers s (Some m) w in
  Ok (logged, evs, w').

End Server.

Arguments Handler : clear implicits.
Arguments Listener : clear implicits.
Arguments FatalLogger : clear implicits.
Arguments Server : clear implicits.

(** ** A reference runtime

    An instance of [Runtime] on which the decoder runs on concrete packets.
    [Parse] follows the parser of package time for the two layouts that
    [receiver] passes; the Unicode tables above Latin-1 are cut down to the
    white space of Unicode and the letters of Latin Extended-A.  The
    theorems of this file that quantify over the runtime hold for every
    instance. *)

Module ref.

Definition isDigit (s : list byte) (i : nat) : bool :=
  match s !! i with
  | Some c => (48 <=? bz c) && (bz c <=? 57)
  | None => false
  end.

Definition digit (s : list byte) (i : nat) : Z := utf8.at_ s i - 48.

(* getnum(s, fixed): one or two digits, two when [fixed] *)
Definition getnum (s : list byte) (fixed : bool) : option (Z * list byte) :=
  if negb (isDigit s 0) then None
  else if negb (isDigit s 1) then
    if fixed then None else Some (digit s 0, drop 1 s)
  else Some (digit s 0 * 10 + digit s 1, drop 2 s).

(* the letters of an ASCII byte in lower case *)
Definition lower (c : byte) : Z :=
  let c := bz c in if (65 <=? c) && (c <=? 90) then c + 32 else c.

Definition shortMonthNames : list (list byte) :=
  map lit ["Jan"; "Feb"; "Mar"; "Apr"; "May"; "Jun";
           "Jul"; "Aug"; "Sep"; "Oct"; "Nov"; "Dec"]%string.

(* lookup(shortMonthNames, value): the month and the rest of the value;
   letters match without regard to case *)
Fixpoint lookup (i : Z) (tab : list (list byte)) (val : list byte)
    : option (Z * list byte) :=
  match tab with
  | [] => None
  | v :: rest =>
      if (length v <=? length val)%nat
         && bool_decide (map lower (take (length v) val) = map lower v)
      then Some (i, drop (length v) val)
      else lookup (i + 1) rest val
  end.

Fixpoint cutspace (s : list byte) : list byte :=
  match s with
  | c :: rest => if Byte.eqb c " " then cutspace rest else s
  | [] => []
  end.

(* skip(value, prefix) for a prefix of one space: any run of spaces *)
Definition skipSpace (value : list byte) : option (list byte) :=
  match value with
  | c :: _ => if Byte.eqb c " " then Some (cutspace value) else None
  | [] => Some []
  end.

(* skip(value, prefix) for a prefix of one byte that is no space *)
Definition skipByte (c : byte) (value : list byte) : option (list byte) :=
  match value with
  | x :: rest => if Byte.eqb x c then Some rest else None
  | [] => None
  end.

Fixpoint digitsPrefix (s : list byte) : list byte :=
  match s with
  | c :: rest => if isDigit [c] 0 then c :: digitsPrefix rest else []
  | [] => []
  end.

(* The fractional second that may follow the seconds: the nanoseconds
   (of at most nine digits) and the rest of the value. *)
Definition fraction (value : list byte) : Z * list byte :=
  match value with
  | c :: rest =>
      if (Byte.eqb c "." || Byte.eqb c ",") && isDigit rest 0 then
        let ds := digitsPrefix rest in
        let kept := take 9 ds in
        match strconv.digits kept 0 with
        | Some ns => (ns * 10 ^ (9 - len kept), drop (length ds) rest)
        | None => (0, value)
        end
      else (0, value)
  | [] => (0, value)
  end.

Definition isLeap (year : Z) : bool :=
  (year mod 4 =? 0) && (negb (year mod 100 =? 0) || (year mod 400 =? 0)).

Definition daysIn (month year : Z) : Z :=
  if month =? 2 then (if isLeap year then 29 else 28)
  else if (month =? 4) || (month =? 6) || (month =? 9) || (month =? 11) then 30
  else 31.

(* days of the year before the first of [month] *)
Fixpoint daysBefore (fuel : nat) (month year : Z) : Z :=
  match fuel with
  | O => 0
  | S k =>
      if month <=? 1 then 0
      else daysIn (month - 1) year + daysBefore k (month - 1) year
  end.

(* Date(year, month, day, hour, min, sec, nsec, UTC) *)
Definition Date (year month day hour min sec nsec : Z) : time.Time :=
  let y := year - 1 in
  let days := 365 * y + y / 4 - y / 100 + y / 400
              + daysBefore 12 month year + (day - 1) in
  {| time.sec := days * 86400 + hour * 3600 + min * 60 + sec; time.nsec := nsec |}.

(* the clock part [15:04:05] of both layouts *)
Definition clock (value : list byte) : option (Z * Z * Z * Z * list byte) :=
  '(hour, value) ← getnum value false;
  if 24 <=? hour then None else
  value ← skipByte ":" value;
  '(min, value) ← getnum value true;
  if 60 <=? min then None else
  value ← skipByte ":" value;
  '(sec, value) ← getnum value true;
  if 60 <=? sec then None else
  let '(nsec, value) := fraction value in
  Some (hour, min, sec, nsec, value).

(* the zone [Z07:00]: the offset in seconds and the rest of the value *)
Definition zone (value : list byte) : option (Z * list byte) :=
  match value with
  | c :: rest =>
      if Byte.eqb c "Z" then Some (0, rest)
      else if (len value <? 6) || negb (utf8.at_ value 3 =? 58) then None
      else
        '(hr, _) ← getnum (take 2 rest) true;
        '(mm, _) ← getnum (take 2 (drop 3 rest)) true;
        if (24 <? hr) || (60 <? mm) then None else
        let off := (hr * 60 + mm) * 60 in
        if Byte.eqb c "+" then Some (off, drop 6 value)
        else if Byte.eqb c "-" then Some (- off, drop 6 value)
        else None
  | [] => None
  end.

(** [time.Parse("Jan _2 15:04:05", value)] *)
Definition parseStamp (value : list byte) : option time.Time :=
  '(month, value) ← lookup 1 shortMonthNames value;
  value ← skipSpace value;
  '(day, value) ← getnum value false;
  value ← skipSpace value;
  '(hour, min, sec, nsec, value) ← clock value;
  if negb (len value =? 0) then None else
  if (day <? 1) || (daysIn month 0 <? day) then None else
  Some (Date 0 month day hour min sec nsec).

(** [time.Parse(time.RFC3339, value)] *)
Definition parseRFC3339 (value : list byte) : option time.Time :=
  if (len value <? 4) || negb (isDigit value 0) then None else
  year ← strconv.digits (take 4 value) 0;
  value ← skipByte "-" (drop 4 value);
  '(month, value) ← getnum value true;
  if (month <=? 0) || (12 <? month) then None else
  value ← skipByte "-" value;
  '(day, value) ← getnum value true;
  value ← skipByte "T" value;
  '(hour, min, sec, nsec, value) ← clock value;
  '(off, value) ← zone value;
  if negb (len value =? 0) then None else
  if (day <? 1) || (daysIn month year <? day) then None else
  let t := Date year month day hour min sec nsec in
  Some {| time.sec := time.sec t - off; time.nsec := time.nsec t |}.

Definition Parse (layout value : list byte) : option time.Time :=
  if bool_decide (map bz layout = map bz stampLayout) then parseStamp value
  else if bool_decide (map bz layout = map bz time.RFC3339) then parseRFC3339 value
  else None.

Definition tables : Tables :=
  {| Letter := fun r => (0x100 <=? r) && (r <=? 0x17F);
     Number := fun _ => false;
     Digit := fun _ => false;
     White_Space := fun r =>
       (r =? 0x1680) || ((0x2000 <=? r) && (r <=? 0x200A)) || (r =? 0x2028)
       || (r =? 0x2029) || (r =? 0x202F) || (r =? 0x205F) || (r =? 0x3000) |}.

Definition runtime : Runtime := {| unicodeTables := tables; time_Parse := Parse |}.

(* a server with no listener and no handler, over a state of one value *)
Definition server : Server unit := NewServer.

Definition peer : option Addr :=
  Some {| addrNetwork := lit "tcp"; addrString := lit "192.0.2.1:514" |}.

End ref.

(** ** The vocabulary of the specification *)

Definition byteOf (z : Z) : byte := default x00 (Byte.of_N (Z.to_N z)).

(* The digits of [p] from the last one back, as strconv.Itoa writes them. *)
Fixpoint decimalLoop (fuel : nat) (p : Z) (acc : list byte) : list byte :=
  match fuel with
  | O => acc
  | S k =>
      let acc := byteOf (48 + p mod 10) :: acc in
      if p <? 10 then acc else decimalLoop k (p / 10) acc
  end.

(** A non-negative integer written in decimal. *)
Definition decimal (p : Z) : list byte := decimalLoop (S (Z.to_nat p)) p [].

Definition isDigitByte (b : byte) : bool := (48 <=? bz b) && (bz b <=? 57).

(** The number a string of decimal digits denotes. *)
Definition digitsValue (ds : list byte) : Z :=
  foldl (fun n d => n * 10 + (bz d - 48)) 0 ds.

(** The priority tokens of the claims as they are written: one to three
    decimal digits and no sign. *)
Definition UnsignedToken (tok : list byte) : Prop :=
  (1 <= length tok <= 3)%nat /\ Forall (fun b => isDigitByte b = true) tok.

(** The tokens of one to three bytes that denote a non-negative integer:
    digits, digits after a plus sign, zeros after a minus sign. *)
Inductive PriToken : list byte -> Z -> Prop :=
  | PriDigits ds :
      (1 <= length ds <= 3)%nat -> Forall (fun b => isDigitByte b = true) ds ->
      PriToken ds (digitsValue ds)
  | PriPlus ds :
      (1 <= length ds <= 2)%nat -> Forall (fun b => isDigitByte b = true) ds ->
      PriToken ("+"%byte :: ds) (digitsValue ds)
  | PriMinus ds :
      (1 <= length ds <= 2)%nat -> Forall (fun b => b = "0"%byte) ds ->
      PriToken ("-"%byte :: ds) 0.

(** [pkt] is [<tok>rest] for a token [tok] that denotes [p]. *)
Definition HasPriority (pkt : list byte) (p : Z) (rest : list byte) : Prop :=
  exists tok, pkt = "<"%byte :: tok ++ ">"%byte :: rest /\ PriToken tok p.

(* [pkt] has the byte [c] at offset [i]. *)
Definition byteAt (pkt : list byte) (i : nat) (c : byte) : bool :=
  match pkt !! i with
  | Some b => Byte.eqb b c
  | None => false
  end.

(* [value] parses under [layout] to a time that is not the zero time. *)
Definition parses (rt : Runtime) (layout value : list byte) : bool :=
  match time_Parse rt layout value with
  | Some t => negb (time.IsZero t)
  | None => false
  end.

(** Layout A: at least 26 bytes, a space at offset 25, no space at offset
    15, and the first 25 bytes parse as a date and time; as [receiver]
    tests it (line 147), to a time that is not the zero time. *)
Definition layoutA (rt : Runtime) (pkt : list byte) : bool :=
  (26 <=? len pkt) && byteAt pkt 25 " " && negb (byteAt pkt 15 " ")
  && parses rt time.RFC3339 (take 25 pkt).

(** Layout B: at least 16 bytes, a space at offset 15, and the first 15
    bytes parse as month, day and time; as [receiver] tests it (line 156),
    to a time that is not the zero time. *)
Definition layoutB (rt : Runtime) (pkt : list byte) : bool :=
  (16 <=? len pkt) && byteAt pkt 15 " " && parses rt stampLayout (take 15 pkt).

(** Header detection as the specification words it: layout A is tried
    first, layout B when layout A fails, no header when both fail. *)
Definition detectHeader (rt : Runtime) (pkt : list byte) : Z :=
  if layoutA rt pkt then 26 else if layoutB rt pkt then 16 else 0.

Definition isNulCrLfByte (b : byte) : bool :=
  (bz b =? 0) || (bz b =? 13) || (bz b =? 10).

(** [msg] is [body] without its trailing NUL, CR and LF bytes. *)
Definition Trimmed (body msg : list byte) : Prop :=
  (exists junk, body = msg ++ junk /\ Forall (fun b => isNulCrLfByte b = true) junk)
  /\ forall b, last msg = Some b -> isNulCrLfByte b = false.

(** [tag] and [content] split [msg] at its first rune that [stop] holds
    of; without such a rune [tag] is empty and [content] is [msg]. *)
Definition SplitAtFirst (stop : Z -> bool) (msg tag content : list byte) : Prop :=
  (exists before n r after,
      strings.range msg = before ++ (n, r) :: after
      /\ Forall (fun ir => stop (snd ir) = false) before
      /\ stop r = true
      /\ tag = take (Z.to_nat n) msg /\ content = drop (Z.to_nat n) msg)
  \/ (Forall (fun ir => stop (snd ir) = false) (strings.range msg)
      /\ tag = [] /\ content = msg).

(** A rune that ends the tag: not a letter, not a number, not allowed. *)
Definition stopRune {W} (t : Tables) (s : Server W) (r : Z) : bool :=
  negb (unicode.IsLetter t r) && negb (unicode.IsNumber t r) && negb (allowed s r).

(** The same with digits for numbers, as the claim is written. *)
Definition stopRuneDigit {W} (t : Tables) (s : Server W) (r : Z) : bool :=
  negb (unicode.IsLetter t r) && negb (unicode.IsDigit t r) && negb (allowed s r).

(* The body [a], one half (U+00BD, the bytes C2 BD), [b c]. *)
Definition halfBody : list byte := lit "a" ++ [xc2; xbd] ++ lit "b c".

(** The part of a packet that is left for "Parse msg part": the packet
    after the priority, and after the header when one was found. *)
Definition messageBody (rt : Runtime) (pkt : list byte) : result (list byte) :=
  do '(_, hasPrio, pkt) <- parsePriority pkt;
  do hostnameOffset <- parseHeader rt hasPrio pkt;
  do '(_, _, pkt, _) <- parseHostname time.zero hostnameOffset pkt;
  Ok pkt.

(* The events of a dispatch are calls of the handlers [i], [i+1], ... in
   turn, each on what the call before returned. *)
Fixpoint Chained (i : nat) (m : option Message) (evs : list Event) : Prop :=
  match evs with
  | [] => True
  | EHandle j arg ret :: rest => j = i /\ arg = m /\ Chained (S i) ret rest
  | _ :: _ => False
  end.

(** A run of the chain from its [i]-th handler on, as the claims word it:
    with no handler left, nothing is called; else the handler is called on
    the message; when it returns nil the run ends there, and when it
    returns a message the rest of the chain runs on that message.  The run
    leaves the events and the state of its last call. *)
Inductive ChainRun {W} :
    nat -> list (Handler W) -> option Message -> W -> list Event -> W -> Prop :=
  | RunEnd i m w : ChainRun i [] m w [] w
  | RunNil i h hs m w w' :
      Handle h m w = (None, w') ->
      ChainRun i (h :: hs) m w [EHandle i m None] w'
  | RunNext i h hs m w m' w' evs w'' :
      Handle h m w = (Some m', w') ->
      ChainRun (S i) hs (Some m') w' evs w'' ->
      ChainRun i (h :: hs) m w (EHandle i m (Some m') :: evs) w''.

(** The priority prefixes of the claims as they are written: [<n>] with
    [n] of one to three decimal digits and no sign. *)
Definition HasUnsignedPriority (pkt : list byte) : Prop :=
  exists tok rest, pkt = "<"%byte :: tok ++ ">"%byte :: rest /\ UnsignedToken tok.

(** ** Definitions that the proofs use *)

(* The number that digits denote after the digits of [n]. *)
Definition digitsFrom (n : Z) (ds : list byte) : Z :=
  foldl (fun n d => n * 10 + (bz d - 48)) n ds.

(* The part of DecodeRune that reads a sequence of two to four bytes, as a
   function of the bytes it looks at. *)
Definition decodeTail (n p0 b1 b2 b3 x : Z) : Z * Z :=
  let sz := Z.land x 7 in
  let accept := utf8.acceptRanges (Z.shiftr x 4) in
  if n <? sz then (utf8.RuneError, 1) else
  if (b1 <? utf8.lo accept) || (utf8.hi accept <? b1) then (utf8.RuneError, 1) else
  if sz <=? 2 then
    (Z.lor (Z.shiftl (Z.land p0 utf8.mask2) 6) (Z.land b1 utf8.maskx), 2)
  else
  if (b2 <? utf8.locb) || (utf8.hicb <? b2) then (utf8.RuneError, 1) else
  if sz <=? 3 then
    (Z.lor (Z.lor (Z.shiftl (Z.land p0 utf8.mask3) 12)
                  (Z.shiftl (Z.land b1 utf8.maskx) 6))
           (Z.land b2 utf8.maskx), 3)
  else
  if (b3 <? utf8.locb) || (utf8.hicb <? b3) then (utf8.RuneError, 1) else
  (Z.lor (Z.lor (Z.lor (Z.shiftl (Z.land p0 utf8.mask4) 18)
                       (Z.shiftl (Z.land b1 utf8.maskx) 12))
                (Z.shiftl (Z.land b2 utf8.maskx) 6))
         (Z.land b3 utf8.maskx), 4).

(* The rows of the table [first]. *)
Inductive FirstRow (b : Z) : Z -> Prop :=
  | RowAscii : b < 0x80 -> FirstRow b utf8.as_
  | RowBad : 0x80 <= b < 0xC2 \/ 0xF5 <= b -> FirstRow b utf8.xx
  | RowS1 : 0xC2 <= b < 0xE0 -> FirstRow b utf8.s1
  | RowS2 : b = 0xE0 -> FirstRow b utf8.s2
  | RowS3 : 0xE1 <= b < 0xED \/ 0xEE <= b < 0xF0 -> FirstRow b utf8.s3
  | RowS4 : b = 0xED -> FirstRow b utf8.s4
  | RowS5 : b = 0xF0 -> FirstRow b utf8.s5
  | RowS6 : 0xF1 <= b < 0xF4 -> FirstRow b utf8.s6
  | RowS7 : b = 0xF4 -> FirstRow b utf8.s7.

(* What a decoding returns: a byte below RuneSelf, the error rune with
   width 1, or a rune of two to four bytes, which is at least RuneSelf,
   starts with a byte of at least 0xC2 and is decided by its own bytes. *)
Inductive Decoded (n p0 b1 b2 b3 : Z) : Z * Z -> Prop :=
  | DecodedAscii : p0 < 0x80 -> Decoded n p0 b1 b2 b3 (p0, 1)
  | DecodedError : 0x80 <= p0 -> Decoded n p0 b1 b2 b3 (utf8.RuneError, 1)
  | DecodedMulti r size :
      2 <= size <= 4 -> size <= n -> 0xC2 <= p0 -> 0x80 <= b1 -> 0x80 <= r ->
      (forall n' b2' b3', size <= n' ->
         (2 < size -> b2' = b2) -> (3 < size -> b3' = b3) ->
         decodeTail n' p0 b1 b2' b3' (utf8.first p0) = (r, size)) ->
      Decoded n p0 b1 b2 b3 (r, size).

(* The message that [receiver] builds from the results of its stages. *)
Definition assemble (remote : option Addr) (now : time.Time) (prio : Z)
    (stamp : time.Time) (host tag content tag1 content1 : list byte) : Message :=
  {| Source := remote; Time := now;
     Facility := Z.shiftr prio 3; Severity := Z.land prio 0x07;
     Timestamp := stamp; Hostname := host;
     Tag := tag; Content := content; Tag1 := tag1; Content1 := content1 |}.


(** The indices of the listeners that a run closed, in order. *)
Definition closedIndices (evs : list Event) : list nat :=
  omap (fun e => match e with EClose i _ => Some i | _ => None end) evs.

(** Every failed close is reported to the fatal logger at once. *)
Definition FatalAfterFailure (evs : list Event) : Prop :=
  forall k i e, evs !! k = Some (EClose i (Some e)) -> evs !! S k = Some (EFatal [e]).

(** No handler is called in [evs]. *)
Definition NoHandle (evs : list Event) : Prop :=
  forall k i arg ret, evs !! k <> Some (EHandle i arg ret).

(** The fatal logger returns to its caller, whatever it is given. *)
Definition SinkReturns {W} (lg : FatalLogger W) : Prop :=
  forall v w, is_Some (Fatalln lg v w).

(** No [Close] of these listeners returns an error. *)
Definition NoCloseFails {W} (cs : list (Listener W)) : Prop :=
  forall c w, c ∈ cs -> fst (Close c w) = None.

(** ** Servers to run Shutdown and the handler chain on *)

Module demo.

(* a state that counts the listeners closed *)
Definition closing : Listener nat := {| Close := fun w => (None, S w) |}.

Definition failing : Listener nat :=
  {| Close := fun w => (Some (lit "use of closed network connection"), w) |}.

(* a handler that returns nil *)
Definition flush : Handler nat := {| Handle := fun _ w => (None, w) |}.

(* a message with nothing in it *)
Definition blank : Message := assemble None time.zero 13 time.zero [] [] [] [] [].

(* a handler that answers nil with a message *)
Definition revive : Handler nat :=
  {| Handle := fun m w => (Some (default blank m), w) |}.

(* a logger whose Fatalln returns *)
Definition quiet : FatalLogger nat := {| Fatalln := fun _ w => Some w |}.

(* the standard logger, one listener whose Close fails, one whose Close works *)
Definition broken : Server nat :=
  {| conns := [failing; closing]; handlers := [flush]; shutdown := false;
     tagrunes := ∅; l := stdLogger |}.

(* the same listeners with a logger that returns *)
Definition patient : Server nat := SetLogger broken quiet.

(* a chain whose first handler returns nil *)
Definition stopper : Server nat :=
  {| conns := []; handlers := [flush; revive; revive]; shutdown := false;
     tagrunes := ∅; l := stdLogger |}.

(* a chain whose first handler answers nil with a message *)
Definition chain : Server nat :=
  {| conns := []; handlers := [revive; flush; flush]; shutdown := false;
     tagrunes := ∅; l := stdLogger |}.

End demo.

(** ** The loop of [receiver]

    Lines 106 to 116 and the loop around the decoder.  The loop is run on
    what the network and the clock give it, turn by turn; the server is
    the one the goroutine was started on, as long as no other goroutine
    changes it. *)

(** A connection as [receiver] uses one: [RemoteAddr()], and the one call
    [Read(buf)], which gives the bytes [buf[:n]] and the error. *)
Record Conn := { RemoteAddr : option Addr; Read : list byte * option (list byte) }.

(** What one turn of the loop finds: the value [conn] that [c.Accept()]
    returned, nil or not (the error of [Accept] is overwritten before it is
    looked at), and the values of [time.Now()] at lines 121 and 141. *)
Record Arrival := { conn : option Conn; clockTime : time.Time; clockStamp : time.Time }.

Section Receiver.

Context {W : Type}.

(** How a run of [receiver] ends. *)
Inductive Outcome :=
  | Waiting (w : W)          (* in [c.Accept()]: the arrivals are used up *)
  | Returned (w : W)         (* the [return] of line 115 *)
  | Exited                   (* [Fatalln] ended the process *)
  | Panicked (why : string).

(** One turn of the loop: it goes on to the next turn, or the run ends. *)
Inductive Turn :=
  | Next (logged : option (list byte)) (evs : list Event) (w : W)
  | Stop (evs : list Event) (o : Outcome).

Definition receiver_turn (rt : Runtime) (s : Server W) (a : Arrival) (w : W) : Turn :=
  match conn a with
  | None => Stop [] (Panicked "nil pointer dereference")   (* conn.Read on nil *)
  | Some c =>
      let '(pkt, err) := Read c in
      match err with
      | Some e =>
          if negb (shutdown s) then
            let v := [lit "Read error:"; e] in
            match Fatalln (l s) v w with
            | Some w' => Stop [EFatal v] (Returned w')
            | None => Stop [EFatal v] Exited
            end
          else Stop [] (Returned w)
      | None =>
          match receiver_step rt s (RemoteAddr c) (clockTime a) (clockStamp a) pkt w with
          | Ok (logged, evs, w') => Next logged evs w'
          | Panic why => Stop [] (Panicked why)
          end
      end
  end.

(** [receiver]: the calls of the handlers and of the fatal logger, and how
    the run ends. *)
Fixpoint receiver (rt : Runtime) (s : Server W) (arrivals : list Arrival) (w : W)
    : list Event * Outcome :=
  match arrivals with
  | [] => ([], Waiting w)
  | a :: rest =>
      match receiver_turn rt s a w with
      | Next _ evs w' =>
          let '(evs', o) := receiver rt s rest w' in (evs ++ evs', o)
      | Stop evs o => (evs, o)
      end
  end.

End Receiver.

Arguments Outcome : clear implicits.
Arguments Turn : clear implicits.

(** ** Words for the further properties *)

(** [x] is a run of consecutive bytes of [s]. *)
Definition Within (x s : list byte) : Prop := exists pre post, s = pre ++ x ++ post.


(** A visible ASCII character, from [!] to [~]. *)
Definition isGraphic (b : byte) : bool := (0x21 <=? bz b) && (bz b <=? 0x7E).

(** The white space of ASCII: tab, LF, VT, FF, CR and the space. *)
Definition isSpaceByte (b : byte) : bool :=
  ((0x09 <=? bz b) && (bz b <=? 0x0D)) || (bz b =? 0x20).


(** [t] starts and ends with a visible ASCII character. *)
Definition Framed (t : list byte) : Prop :=
  (exists b, head t = Some b /\ isGraphic b = true)
  /\ (exists b, last t = Some b /\ isGraphic b = true).

(** The message that a run of the chain on [m] ends with: what its last
    call returned, or [m] itself when no handler was called. *)
Definition chainOut (m : option Message) (evs : list Event) : option Message :=
  match last evs with
  | Some (EHandle _ _ ret) => ret
  | _ => m
  end.

(** The run of the chain ended with a handler that returned nil. *)
Definition stopped (evs : list Event) : bool :=
  match last evs with
  | Some (EHandle _ _ None) => true
  | _ => false
  end.

(** The arguments of the calls of the handler [i], in order. *)
Definition handled (i : nat) (evs : list Event) : list (option Message) :=
  omap (fun e => match e with
                 | EHandle j arg _ => if (j =? i)%nat then Some arg else None
                 | _ => None
                 end) evs.

(** The message that the decoder makes of an arrival. *)
Definition decoded {W} (rt : Runtime) (s : Server W) (a : Arrival) : option Message :=
  match conn a with
  | Some c =>
      match receiver_decode rt s (RemoteAddr c) (clockTime a) (clockStamp a)
              (fst (Read c)) with
      | Ok (m, _) => Some m
      | Panic _ => None
      end
  | None => None
  end.

(** An arrival whose read gave at least one byte and no error. *)
Definition Readable (a : Arrival) : Prop :=
  exists c pkt, conn a = Some c /\ Read c = (pkt, None) /\ pkt <> [].

(** The servers that [NewServer], [AddHandler] and [AddAllowedRunes] make:
    no call of [SetLogger] and none of [Shutdown]. *)
Inductive Default {W} : Server W -> Prop :=
  | DefaultNew : Default NewServer
  | DefaultHandler s h : Default s -> Default (AddHandler s h)
  | DefaultRunes s a : Default s -> Default (AddAllowedRunes s a).

(** Two runtimes accept the same values as dates, whatever dates they
    make of them. *)
Definition SameAcceptance (rt1 rt2 : Runtime) : Prop :=
  unicodeTables rt1 = unicodeTables rt2
  /\ forall layout value, parses rt1 layout value = parses rt2 layout value.

Module sample.

(* the reference runtime with a parser that makes one date of every value
   it accepts *)
Definition fixedParse (layout value : list byte) : option time.Time :=
  match ref.Parse layout value with
  | Some t => Some (if time.IsZero t then t else {| time.sec := 1; time.nsec := 0 |})
  | None => None
  end.

Definition fixed : Runtime :=
  {| unicodeTables := ref.tables; time_Parse := fixedParse |}.

(* a datagram from the reference peer *)
Definition datagram (pkt : list byte) : Arrival :=
  {| conn := Some {| RemoteAddr := ref.peer; Read := (pkt, None) |};
     clockTime := time.zero; clockStamp := time.zero |}.

(* a connection whose read fails *)
Definition hangup : Arrival :=
  {| conn := Some {| RemoteAddr := ref.peer; Read := ([], Some (lit "EOF")) |};
     clockTime := time.zero; clockStamp := time.zero |}.

(* a handler that counts the messages it is given and passes them on *)
Definition counting : Handler nat :=
  {| Handle := fun m w => (m, S w) |}.

(* a server with the counting handler and a logger that returns *)
Definition counter : Server nat :=
  SetLogger (AddHandler NewServer counting) demo.quiet.

(* the server that Shutdown leaves of demo.patient *)
Definition halted : Server nat :=
  {| conns := []; handlers := []; shutdown := true;
     tagrunes := tagrunes demo.patient; l := demo.quiet |}.

End sample.

(** * Properties *)


(** ** Bytes, indexing and slicing *)

(* Comparisons that were decided become propositions. *)
Ltac zb :=
  repeat match goal with
  | H : (_ <=? _) = true |- _ => apply Z.leb_le in H
  | H : (_ <=? _) = false |- _ => apply Z.leb_gt in H
  | H : (_ <? _) = true |- _ => apply Z.ltb_lt in H
  | H : (_ <? _) = false |- _ => apply Z.ltb_ge in H
  | H : (_ =? _) = true |- _ => apply Z.eqb_eq in H
  | H : (_ =? _) = false |- _ => apply Z.eqb_neq in H
  end.

Ltac zlia := zb; lia.

Lemma bz_range b : 0 <= bz b < 256.
Proof. unfold bz. pose proof (Byte.to_N_bounded b). lia. Qed.

Lemma bz_inj a b : bz a = bz b -> a = b.
Proof.
  unfold bz. intros H. apply N2Z.inj in H.
  pose proof (Byte.of_to_N a) as Ha. rewrite H, Byte.of_to_N in Ha. congruence.
Qed.

Lemma byte_eqb_refl c : Byte.eqb c c = true.
Proof. by apply Byte.byte_dec_lb. Qed.

Lemma byte_eqb_neq a b : a <> b -> Byte.eqb a b = false.
Proof.
  intros H. destruct (Byte.eqb a b) eqn:E; [|done].
  apply Byte.byte_dec_bl in E. done.
Qed.

Lemma len_nil {A} : len (@nil A) = 0.
Proof. done. Qed.

Lemma len_cons {A} (x : A) s : len (x :: s) = 1 + len s.
Proof. unfold len. simpl. lia. Qed.

Lemma len_app {A} (s t : list A) : len (s ++ t) = len s + len t.
Proof. unfold len. rewrite length_app. lia. Qed.

Lemma len_nonneg {A} (s : list A) : 0 <= len s.
Proof. unfold len. lia. Qed.

Lemma index_ok s i :
  0 <= i < len s -> index s i = Ok (nth (Z.to_nat i) s x00).
Proof.
  intros H. unfold index.
  destruct (0 <=? i) eqn:E1; [|lia]. destruct (i <? len s) eqn:E2; [done|lia].
Qed.

Lemma slice_ok s lo hi :
  0 <= lo <= hi -> hi <= len s ->
  slice s lo hi = Ok (take (Z.to_nat (hi - lo)) (drop (Z.to_nat lo) s)).
Proof.
  intros H1 H2. unfold slice.
  destruct (0 <=? lo) eqn:E1; [|lia]. destruct (lo <=? hi) eqn:E2; [|lia].
  destruct (hi <=? len s) eqn:E3; [done|lia].
Qed.

Lemma slice_from_ok s lo :
  0 <= lo <= len s -> slice_from s lo = Ok (drop (Z.to_nat lo) s).
Proof.
  intros H. unfold slice_from. rewrite slice_ok by lia. f_equal.
  apply take_ge. rewrite length_drop. unfold len in *. lia.
Qed.

Lemma slice_to_ok s hi :
  0 <= hi <= len s -> slice_to s hi = Ok (take (Z.to_nat hi) s).
Proof.
  intros H. unfold slice_to. rewrite slice_ok by lia.
  by rewrite Z.sub_0_r.
Qed.

(** ** bytes.IndexByte *)

Lemma IndexByte_range b c : -1 <= bytes.IndexByte b c < len b.
Proof.
  induction b as [|x b IH]; simpl; [rewrite len_nil; lia|].
  rewrite len_cons. destruct (Byte.eqb x c); [lia|].
  destruct (bytes.IndexByte b c =? -1) eqn:E; lia.
Qed.

Lemma IndexByte_app pre c post :
  c ∉ pre -> bytes.IndexByte (pre ++ c :: post) c = len pre.
Proof.
  induction pre as [|x pre IH]; simpl; intros Hn.
  - by rewrite byte_eqb_refl.
  - rewrite byte_eqb_neq by (intros ->; apply Hn; left).
    rewrite IH by (intros ?; apply Hn; by right).
    rewrite len_cons. pose proof (len_nonneg pre).
    destruct (len pre =? -1) eqn:E; lia.
Qed.

Lemma IndexByte_split b c :
  (bytes.IndexByte b c = -1 /\ c ∉ b)
  \/ exists pre post, b = pre ++ c :: post /\ c ∉ pre.
Proof.
  induction b as [|x b IH]; simpl.
  - left. split; [done|]. apply not_elem_of_nil.
  - destruct (Byte.eqb x c) eqn:E.
    + apply Byte.byte_dec_bl in E as ->. right. exists [], b.
      split; [done|apply not_elem_of_nil].
    + apply Byte.eqb_false in E.
      destruct IH as [[-> Hn]|(pre & post & -> & Hn)].
      * left. split; [done|]. rewrite not_elem_of_cons. done.
      * right. exists (x :: pre), post. split; [done|].
        rewrite not_elem_of_cons. done.
Qed.

(** ** strconv.Atoi on priority tokens *)

Lemma digits_spec s n :
  strconv.digits s n =
  if forallb isDigitByte s then Some (digitsFrom n s) else None.
Proof.
  revert n. induction s as [|c s IH]; intros n; simpl; [done|].
  pose proof (bz_range c) as Hc. unfold isDigitByte at 1.
  destruct (48 <=? bz c) eqn:E1; simpl.
  - rewrite Z.mod_small by lia.
    destruct (bz c <=? 57) eqn:E2; simpl.
    + destruct (9 <? bz c - 48) eqn:E3; [lia|]. apply IH.
    + destruct (9 <? bz c - 48) eqn:E3; [done|lia].
  - replace ((bz c - 48) mod 256) with (bz c - 48 + 256).
    + destruct (9 <? bz c - 48 + 256) eqn:E3; [done|lia].
    + apply Z.mod_unique with (q := -1); lia.
Qed.

Lemma forallb_Forall_digit s :
  forallb isDigitByte s = true <-> Forall (fun b => isDigitByte b = true) s.
Proof.
  rewrite forallb_forall, List.Forall_forall. done.
Qed.

Lemma digitsFrom_lower n ds :
  0 <= n -> Forall (fun b => isDigitByte b = true) ds -> n <= digitsFrom n ds.
Proof.
  revert n. induction ds as [|d ds IH]; intros n Hn Hd; simpl; [lia|].
  inversion Hd as [|?? Hd1 Hd2]; subst. unfold isDigitByte in Hd1.
  apply andb_prop in Hd1 as [H1 H2].
  etrans; [|apply IH; [lia|done]]. lia.
Qed.

Lemma digitsFrom_zero n ds :
  0 <= n -> Forall (fun b => isDigitByte b = true) ds ->
  digitsFrom n ds = 0 -> n = 0 /\ Forall (fun b => b = "0"%byte) ds.
Proof.
  revert n. induction ds as [|d ds IH]; intros n Hn Hd H0; simpl in *; [done|].
  inversion Hd as [|?? Hd1 Hd2]; subst. unfold isDigitByte in Hd1.
  apply andb_prop in Hd1 as [H1 H2].
  destruct (IH (n * 10 + (bz d - 48))) as [Hz Hall]; [lia|done|done|].
  split; [lia|]. constructor; [|done]. apply bz_inj. change (bz "0") with 48. lia.
Qed.

Lemma digitsFrom_zeros ds :
  Forall (fun b => b = "0"%byte) ds ->
  digitsFrom 0 ds = 0 /\ Forall (fun b => isDigitByte b = true) ds.
Proof.
  induction 1 as [|d ds -> _ [IH1 IH2]]; simpl; [done|].
  split; [done|]. constructor; done.
Qed.

Lemma Atoi_cons s0 rest :
  strconv.Atoi (s0 :: rest) =
  if bz s0 =? 45 then
    if len rest <? 1 then None else option_map Z.opp (strconv.digits rest 0)
  else if bz s0 =? 43 then
    if len rest <? 1 then None else strconv.digits rest 0
  else strconv.digits (s0 :: rest) 0.
Proof.
  cbv beta iota zeta delta [strconv.Atoi].
  destruct (bz s0 =? 45), (bz s0 =? 43); cbv beta iota delta [orb andb];
    try destruct (len rest <? 1); try done;
    match goal with |- context [match ?d with _ => _ end] => by destruct d end.
Qed.

Lemma Atoi_PriToken tok p :
  (1 <= length tok <= 3)%nat ->
  (strconv.Atoi tok = Some p /\ 0 <= p) <-> PriToken tok p.
Proof.
  intros Hlen. split.
  - intros [Ha Hp]. destruct tok as [|s0 rest]; [simpl in Hlen; lia|].
    rewrite Atoi_cons in Ha. simpl in Hlen.
    destruct (bz s0 =? 45) eqn:Em; [|destruct (bz s0 =? 43) eqn:Epl].
    + assert (s0 = "-"%byte) as -> by (apply bz_inj; change (bz "-") with 45; lia).
      destruct (len rest <? 1) eqn:El; [done|].
      rewrite digits_spec in Ha.
      destruct (forallb isDigitByte rest) eqn:Ed; [|done].
      apply forallb_Forall_digit in Ed. injection Ha as <-.
      pose proof (digitsFrom_lower 0 rest ltac:(lia) Ed).
      destruct (digitsFrom_zero 0 rest) as [_ Hz]; [lia|done|lia|].
      replace (- digitsFrom 0 rest) with 0 by lia.
      constructor; [|done]. unfold len in El. lia.
    + assert (s0 = "+"%byte) as -> by (apply bz_inj; change (bz "+") with 43; lia).
      destruct (len rest <? 1) eqn:El; [done|].
      rewrite digits_spec in Ha.
      destruct (forallb isDigitByte rest) eqn:Ed; [|done].
      apply forallb_Forall_digit in Ed. injection Ha as <-.
      constructor; [|done]. unfold len in El. lia.
    + rewrite digits_spec in Ha.
      destruct (forallb isDigitByte (s0 :: rest)) eqn:Ed; [|done].
      apply forallb_Forall_digit in Ed. injection Ha as <-.
      constructor; [simpl; lia|done].
  - intros H. destruct H as [ds Hl Hd|ds Hl Hd|ds Hl Hd].
    + destruct ds as [|s0 rest]; [simpl in Hl; lia|].
      pose proof (digitsFrom_lower 0 _ ltac:(lia) Hd).
      rewrite Atoi_cons. inversion Hd as [|?? Hd1 _]; subst.
      unfold isDigitByte in Hd1. apply andb_prop in Hd1 as [H1 H2].
      destruct (bz s0 =? 45) eqn:Em; [lia|]. destruct (bz s0 =? 43) eqn:Epl; [lia|].
      rewrite digits_spec. apply forallb_Forall_digit in Hd. rewrite Hd. done.
    + pose proof (digitsFrom_lower 0 _ ltac:(lia) Hd).
      rewrite Atoi_cons. change (bz "+") with 43.
      change (43 =? 45) with false. change (43 =? 43) with true. cbv iota.
      destruct (len ds <? 1) eqn:El; [unfold len in El; lia|].
      rewrite digits_spec. apply forallb_Forall_digit in Hd. rewrite Hd. done.
    + destruct (digitsFrom_zeros ds Hd) as [Hz Hd'].
      rewrite Atoi_cons. change (bz "-") with 45.
      change (45 =? 45) with true. cbv iota.
      destruct (len ds <? 1) eqn:El; [unfold len in El; lia|].
      rewrite digits_spec. apply forallb_Forall_digit in Hd'. rewrite Hd'.
      simpl. rewrite Hz. done.
Qed.

Lemma PriToken_length tok p : PriToken tok p -> (1 <= length tok <= 3)%nat.
Proof. destruct 1; simpl; lia. Qed.

Lemma PriToken_nonneg tok p : PriToken tok p -> 0 <= p.
Proof.
  intros H. pose proof (PriToken_length _ _ H) as Hl.
  apply Atoi_PriToken in H; [tauto|done].
Qed.

Lemma digit_not_gt b : isDigitByte b = true -> b <> ">"%byte.
Proof. intros H ->. done. Qed.

Lemma PriToken_no_gt tok p : PriToken tok p -> ">"%byte ∉ tok.
Proof.
  assert (Hd : forall ds, Forall (fun b => isDigitByte b = true) ds -> ">"%byte ∉ ds).
  { intros ds Hd Hin. rewrite List.Forall_forall in Hd.
    apply list_elem_of_In in Hin. by apply Hd in Hin. }
  destruct 1 as [ds Hl H|ds Hl H|ds Hl H].
  - by apply Hd.
  - rewrite not_elem_of_cons. split; [done|by apply Hd].
  - rewrite not_elem_of_cons. split; [done|].
    apply Hd. eapply Forall_impl; [exact H|]. by intros ? ->.
Qed.

(** ** Parse priority *)

Lemma parsePriority_recognized tok p rest :
  PriToken tok p ->
  parsePriority ("<"%byte :: tok ++ ">"%byte :: rest) = Ok (p, true, rest).
Proof.
  intros Ht. pose proof (PriToken_length _ _ Ht) as Hl.
  pose proof (PriToken_no_gt _ _ Ht) as Hg.
  apply Atoi_PriToken in Ht as [Ha Hp]; [|done].
  pose proof (len_nonneg rest) as Hr.
  assert (Hlen : len ("<"%byte :: tok ++ ">"%byte :: rest) = 2 + len tok + len rest).
  { rewrite len_cons, len_app, len_cons. lia. }
  assert (Hlt : 1 <= len tok <= 3) by (unfold len; lia).
  unfold parsePriority.
  rewrite index_ok by lia. cbn [bind]. change (Z.to_nat 0) with 0%nat. cbn [nth].
  rewrite slice_from_ok by lia. cbn [bind].
  change (drop (Z.to_nat 1) ("<"%byte :: tok ++ ">"%byte :: rest))
    with (tok ++ ">"%byte :: rest).
  rewrite IndexByte_app by done.
  destruct (1 <? 1 + len tok) eqn:E1; [|lia].
  destruct (1 + len tok <? 5) eqn:E2; [|lia]. simpl andb. cbv iota.
  rewrite slice_ok by lia. cbn [bind].
  change (drop (Z.to_nat 1) ("<"%byte :: tok ++ ">"%byte :: rest))
    with (tok ++ ">"%byte :: rest).
  replace (Z.to_nat (1 + len tok - 1)) with (length tok) by (unfold len; lia).
  rewrite take_app_length, Ha.
  destruct (0 <=? p) eqn:E3; [|lia].
  rewrite slice_from_ok by lia. cbn [bind].
  replace (Z.to_nat (1 + len tok + 1)) with (S (length tok + 1)) by (unfold len; lia).
  simpl drop. rewrite drop_app_add'; [|done]. done.
Qed.

Lemma parsePriority_default pkt :
  pkt <> [] -> (forall p rest, ~ HasPriority pkt p rest) ->
  parsePriority pkt = Ok (13, false, pkt).
Proof.
  intros Hne Hno. destruct pkt as [|b0 tl]; [done|].
  pose proof (len_nonneg tl) as Htl.
  unfold parsePriority. rewrite index_ok by (rewrite len_cons; lia).
  cbn [bind]. change (Z.to_nat 0) with 0%nat. cbn [nth].
  destruct (Byte.eqb b0 "<") eqn:E0; [|done].
  apply Byte.byte_dec_bl in E0 as ->.
  rewrite slice_from_ok by (rewrite len_cons; lia). cbn [bind].
  change (drop (Z.to_nat 1) ("<"%byte :: tl)) with tl.
  destruct ((1 <? 1 + bytes.IndexByte tl ">") && (1 + bytes.IndexByte tl ">" <? 5))
    eqn:En; [|done].
  apply andb_prop in En as [En1 En2].
  destruct (IndexByte_split tl ">"%byte) as [[Hi _]|(tok & rest & -> & Hg)].
  { rewrite Hi in En1. done. }
  rewrite IndexByte_app in * by done.
  assert (Hlt : (1 <= length tok <= 3)%nat) by (unfold len in *; lia).
  rewrite slice_ok; [|lia|rewrite len_cons, len_app, len_cons; pose proof (len_nonneg rest); lia].
  cbn [bind].
  change (drop (Z.to_nat 1) ("<"%byte :: tok ++ ">"%byte :: rest))
    with (tok ++ ">"%byte :: rest).
  replace (Z.to_nat (1 + len tok - 1)) with (length tok) by (unfold len; lia).
  rewrite take_app_length.
  destruct (strconv.Atoi tok) as [p|] eqn:Ha; [|done].
  destruct (0 <=? p) eqn:Ep; [|done].
  exfalso. apply (Hno p rest). exists tok. split; [done|].
  apply Atoi_PriToken; [done|]. split; [done|lia].
Qed.

Lemma HasPriority_dec pkt :
  (exists p rest, HasPriority pkt p rest) \/ (forall p rest, ~ HasPriority pkt p rest).
Proof.
  destruct pkt as [|b0 tl].
  { right. intros p rest (tok & H & _). done. }
  destruct (Byte.eqb b0 "<") eqn:E0.
  2:{ right. intros p rest (tok & H & _). injection H as -> _. done. }
  apply Byte.byte_dec_bl in E0 as ->.
  destruct (IndexByte_split tl ">"%byte) as [[_ Hn]|(tok & rest & -> & Hg)].
  { right. intros p rest (tok & H & _). injection H as ->.
    apply Hn. apply elem_of_app. right. left. }
  assert (Huniq : forall tok' p' rest',
    "<"%byte :: tok ++ ">"%byte :: rest = "<"%byte :: tok' ++ ">"%byte :: rest' ->
    PriToken tok' p' -> tok' = tok /\ rest' = rest).
  { intros tok' p' rest' Heq Ht. injection Heq as Heq.
    pose proof (PriToken_no_gt _ _ Ht) as Hg'.
    pose proof (IndexByte_app tok ">"%byte rest Hg) as H1.
    pose proof (IndexByte_app tok' ">"%byte rest' Hg') as H2.
    rewrite Heq, H2 in H1.
    assert (Hl : length tok' = length tok) by (unfold len in H1; lia).
    apply app_inj_1 in Heq as [-> Heq]; [|done]. injection Heq as ->. done. }
  destruct (decide (1 <= length tok <= 3)%nat) as [Hl|Hl].
  2:{ right. intros p' rest' (tok' & Heq & Ht).
      destruct (Huniq _ _ _ Heq Ht) as [-> _].
      apply PriToken_length in Ht. lia. }
  destruct (strconv.Atoi tok) as [p|] eqn:Ha.
  2:{ right. intros p' rest' (tok' & Heq & Ht).
      destruct (Huniq _ _ _ Heq Ht) as [-> _].
      apply Atoi_PriToken in Ht as [Ht _]; [congruence|done]. }
  destruct (decide (0 <= p)) as [Hp|Hp].
  - left. exists p, rest, tok. split; [done|]. by apply Atoi_PriToken.
  - right. intros p' rest' (tok' & Heq & Ht).
    destruct (Huniq _ _ _ Heq Ht) as [-> _].
    apply Atoi_PriToken in Ht as [Ht Hp']; [|done].
    rewrite Ha in Ht. injection Ht as ->. done.
Qed.

Lemma parsePriority_cases pkt :
  pkt <> [] ->
  (exists p rest, HasPriority pkt p rest /\ parsePriority pkt = Ok (p, true, rest))
  \/ ((forall p rest, ~ HasPriority pkt p rest)
      /\ parsePriority pkt = Ok (13, false, pkt)).
Proof.
  intros Hne. destruct (HasPriority_dec pkt) as [(p & rest & H)|H].
  - left. exists p, rest. split; [done|].
    destruct H as (tok & -> & Ht). by apply parsePriority_recognized.
  - right. split; [done|]. by apply parsePriority_default.
Qed.

(** ** unicode/utf8 *)

Lemma Zland_le_r a b : 0 <= a -> 0 <= b -> Z.land a b <= b.
Proof.
  intros Ha Hb. destruct a as [|p|p], b as [|q|q]; unfold Z.land; try lia.
  pose proof (N.land_le_r (Npos p) (Npos q)) as H. unfold N.land in H. lia.
Qed.

Lemma Zlor_ge_l a b : 0 <= a -> 0 <= b -> a <= Z.lor a b.
Proof.
  intros Ha Hb. pose proof (Z.add_lor_land a b).
  pose proof (Zland_le_r a b Ha Hb). lia.
Qed.

Lemma Zlor_ge_r a b : 0 <= a -> 0 <= b -> b <= Z.lor a b.
Proof. intros Ha Hb. rewrite Z.lor_comm. by apply Zlor_ge_l. Qed.

Lemma Zland_mask a n : 0 <= n -> Z.land a (2 ^ n - 1) = a mod 2 ^ n.
Proof.
  intros Hn. rewrite <- Z.land_ones by done. f_equal.
  rewrite Z.ones_equiv. lia.
Qed.

Lemma Zland_63 a : Z.land a 63 = a mod 64.
Proof. change 63 with (Z.ones 6). by rewrite Z.land_ones. Qed.

Lemma Zland_31 a : Z.land a 31 = a mod 32.
Proof. change 31 with (Z.ones 5). by rewrite Z.land_ones. Qed.

Lemma Zland_15 a : Z.land a 15 = a mod 16.
Proof. change 15 with (Z.ones 4). by rewrite Z.land_ones. Qed.

Lemma Zland_7 a : Z.land a 7 = a mod 8.
Proof. change 7 with (Z.ones 3). by rewrite Z.land_ones. Qed.

Ltac case_if :=
  match goal with
  | |- context [if ?c then _ else _] => destruct c eqn:?
  end.

Lemma len_pos_cons {A} (p : list A) : p <> [] -> 1 <= len p.
Proof. destruct p; [done|]. rewrite len_cons. pose proof (len_nonneg p). lia. Qed.

Lemma DecodeRune_unfold p :
  utf8.DecodeRune p =
  if len p <? 1 then (utf8.RuneError, 0) else
  let x := utf8.first (utf8.at_ p 0) in
  if utf8.as_ <=? x then ((if Z.testbit x 0 then utf8.RuneError else utf8.at_ p 0), 1)
  else decodeTail (len p) (utf8.at_ p 0) (utf8.at_ p 1) (utf8.at_ p 2) (utf8.at_ p 3) x.
Proof. reflexivity. Qed.

Lemma first_row b : FirstRow b (utf8.first b).
Proof.
  unfold utf8.first.
  repeat case_if; first
    [ apply RowAscii; lia | apply RowS1; lia | apply RowS2; lia
    | apply RowS3; lia | apply RowS4; lia | apply RowS5; lia
    | apply RowS6; lia | apply RowS7; lia | apply RowBad; lia ].
Qed.

Ltac row x sz ar :=
  unfold decodeTail;
  change (Z.land x 7) with sz;
  change (utf8.acceptRanges (Z.shiftr x 4)) with ar;
  cbn [utf8.lo utf8.hi];
  unfold utf8.locb, utf8.hicb, utf8.mask2, utf8.mask3, utf8.mask4, utf8.maskx;
  let c2 := eval vm_compute in (sz <=? 2) in change (sz <=? 2) with c2;
  let c3 := eval vm_compute in (sz <=? 3) in try change (sz <=? 3) with c3;
  cbv iota.

Ltac nn :=
  repeat first
    [ lia
    | apply Z.lor_nonneg; split
    | apply Z.shiftl_nonneg
    | apply Z.land_nonneg; left ].

Lemma shiftl_lower a k c : 0 <= k -> c <= a -> c * 2 ^ k <= Z.shiftl a k.
Proof. intros Hk Hc. rewrite Z.shiftl_mul_pow2 by done. nia. Qed.

(* the decoded rune is at least its leading part / its second part *)
Ltac lead_l := etrans; [|apply Zlor_ge_l; nn].
Ltac lead_r := etrans; [|apply Zlor_ge_r; nn].
Ltac lower k c :=
  etrans; [|apply (shiftl_lower _ k c); [lia|]]; [lia|];
  rewrite ?Zland_31, ?Zland_63, ?Zland_15, ?Zland_7;
  Z.div_mod_to_equations; lia.

Lemma decodeTail_Decoded n p0 b1 b2 b3 :
  0 <= p0 < 256 -> 0 <= b1 < 256 -> 0 <= b2 < 256 -> 0 <= b3 < 256 ->
  (utf8.as_ <=? utf8.first p0) = false ->
  Decoded n p0 b1 b2 b3 (decodeTail n p0 b1 b2 b3 (utf8.first p0)).
Proof.
  intros H0 H1 H2 H3 Hx.
  pose proof (first_row p0) as Hrow.
  remember (utf8.first p0) as x eqn:Hxeq.
  destruct Hrow as [Hr|Hr|Hr|Hr|Hr|Hr|Hr|Hr|Hr];
    try (vm_compute in Hx; discriminate Hx).
  - (* two bytes *)
    row utf8.s1 2 {| utf8.lo := 0x80; utf8.hi := 0xBF |}.
    destruct (n <? 2) eqn:En; [apply DecodedError; lia|].
    destruct ((b1 <? 128) || (191 <? b1)) eqn:E1; [apply DecodedError; lia|].
    apply DecodedMulti; try lia.
    + lead_l. lower 6 2.
    + intros n' b2' b3' Hn' _ _. rewrite <- Hxeq.
      row utf8.s1 2 {| utf8.lo := 0x80; utf8.hi := 0xBF |}.
      destruct (n' <? 2) eqn:En'; [lia|]. by rewrite E1.
  - (* three bytes, first byte 0xE0 *)
    row utf8.s2 3 {| utf8.lo := 0xA0; utf8.hi := 0xBF |}.
    destruct (n <? 3) eqn:En; [apply DecodedError; lia|].
    destruct ((b1 <? 160) || (191 <? b1)) eqn:E1; [apply DecodedError; lia|].
    destruct ((b2 <? 128) || (191 <? b2)) eqn:E2; [apply DecodedError; lia|].
    apply DecodedMulti; try lia.
    + lead_l. lead_r. lower 6 32.
    + intros n' b2' b3' Hn' -> _; [|lia]. rewrite <- Hxeq.
      row utf8.s2 3 {| utf8.lo := 0xA0; utf8.hi := 0xBF |}.
      destruct (n' <? 3) eqn:En'; [lia|]. by rewrite E1, E2.
  - (* three bytes *)
    row utf8.s3 3 {| utf8.lo := 0x80; utf8.hi := 0xBF |}.
    destruct (n <? 3) eqn:En; [apply DecodedError; lia|].
    destruct ((b1 <? 128) || (191 <? b1)) eqn:E1; [apply DecodedError; lia|].
    destruct ((b2 <? 128) || (191 <? b2)) eqn:E2; [apply DecodedError; lia|].
    apply DecodedMulti; try lia.
    + lead_l. lead_l. lower 12 1.
    + intros n' b2' b3' Hn' -> _; [|lia]. rewrite <- Hxeq.
      row utf8.s3 3 {| utf8.lo := 0x80; utf8.hi := 0xBF |}.
      destruct (n' <? 3) eqn:En'; [lia|]. by rewrite E1, E2.
  - (* three bytes, first byte 0xED *)
    row utf8.s4 3 {| utf8.lo := 0x80; utf8.hi := 0x9F |}.
    destruct (n <? 3) eqn:En; [apply DecodedError; lia|].
    destruct ((b1 <? 128) || (159 <? b1)) eqn:E1; [apply DecodedError; lia|].
    destruct ((b2 <? 128) || (191 <? b2)) eqn:E2; [apply DecodedError; lia|].
    apply DecodedMulti; try lia.
    + lead_l. lead_l. lower 12 1.
    + intros n' b2' b3' Hn' -> _; [|lia]. rewrite <- Hxeq.
      row utf8.s4 3 {| utf8.lo := 0x80; utf8.hi := 0x9F |}.
      destruct (n' <? 3) eqn:En'; [lia|]. by rewrite E1, E2.
  - (* four bytes, first byte 0xF0 *)
    row utf8.s5 4 {| utf8.lo := 0x90; utf8.hi := 0xBF |}.
    destruct (n <? 4) eqn:En; [apply DecodedError; lia|].
    destruct ((b1 <? 144) || (191 <? b1)) eqn:E1; [apply DecodedError; lia|].
    destruct ((b2 <? 128) || (191 <? b2)) eqn:E2; [apply DecodedError; lia|].
    destruct ((b3 <? 128) || (191 <? b3)) eqn:E3; [apply DecodedError; lia|].
    apply DecodedMulti; try lia.
    + lead_l. lead_l. lead_r. lower 12 16.
    + intros n' b2' b3' Hn' -> ->; [|lia|lia]. rewrite <- Hxeq.
      row utf8.s5 4 {| utf8.lo := 0x90; utf8.hi := 0xBF |}.
      destruct (n' <? 4) eqn:En'; [lia|]. by rewrite E1, E2, E3.
  - (* four bytes *)
    row utf8.s6 4 {| utf8.lo := 0x80; utf8.hi := 0xBF |}.
    destruct (n <? 4) eqn:En; [apply DecodedError; lia|].
    destruct ((b1 <? 128) || (191 <? b1)) eqn:E1; [apply DecodedError; lia|].
    destruct ((b2 <? 128) || (191 <? b2)) eqn:E2; [apply DecodedError; lia|].
    destruct ((b3 <? 128) || (191 <? b3)) eqn:E3; [apply DecodedError; lia|].
    apply DecodedMulti; try lia.
    + lead_l. lead_l. lead_l. lower 18 1.
    + intros n' b2' b3' Hn' -> ->; [|lia|lia]. rewrite <- Hxeq.
      row utf8.s6 4 {| utf8.lo := 0x80; utf8.hi := 0xBF |}.
      destruct (n' <? 4) eqn:En'; [lia|]. by rewrite E1, E2, E3.
  - (* four bytes, first byte 0xF4 *)
    row utf8.s7 4 {| utf8.lo := 0x80; utf8.hi := 0x8F |}.
    destruct (n <? 4) eqn:En; [apply DecodedError; lia|].
    destruct ((b1 <? 128) || (143 <? b1)) eqn:E1; [apply DecodedError; lia|].
    destruct ((b2 <? 128) || (191 <? b2)) eqn:E2; [apply DecodedError; lia|].
    destruct ((b3 <? 128) || (191 <? b3)) eqn:E3; [apply DecodedError; lia|].
    apply DecodedMulti; try lia.
    + lead_l. lead_l. lead_l. lower 18 1.
    + intros n' b2' b3' Hn' -> ->; [|lia|lia]. rewrite <- Hxeq.
      row utf8.s7 4 {| utf8.lo := 0x80; utf8.hi := 0x8F |}.
      destruct (n' <? 4) eqn:En'; [lia|]. by rewrite E1, E2, E3.
Qed.

Lemma at_range p i : 0 <= utf8.at_ p i < 256.
Proof. apply bz_range. Qed.

Lemma DecodeRune_Decoded p :
  p <> [] ->
  Decoded (len p) (utf8.at_ p 0) (utf8.at_ p 1) (utf8.at_ p 2) (utf8.at_ p 3)
    (utf8.DecodeRune p).
Proof.
  intros Hne. pose proof (len_pos_cons p Hne) as Hlen.
  rewrite DecodeRune_unfold. destruct (len p <? 1) eqn:E0; [lia|]. cbv zeta.
  destruct (utf8.as_ <=? utf8.first (utf8.at_ p 0)) eqn:Hx.
  - pose proof (first_row (utf8.at_ p 0)) as Hrow.
    remember (utf8.first (utf8.at_ p 0)) as x eqn:Hxeq.
    destruct Hrow; try (vm_compute in Hx; discriminate Hx).
    + change (Z.testbit utf8.as_ 0) with false. by apply DecodedAscii.
    + change (Z.testbit utf8.xx 0) with true. apply DecodedError. lia.
  - apply decodeTail_Decoded; auto using at_range.
Qed.

Lemma DecodeRune_size p :
  p <> [] -> 1 <= snd (utf8.DecodeRune p) <= len p.
Proof.
  intros Hne. pose proof (len_pos_cons p Hne) as Hlen.
  destruct (DecodeRune_Decoded p Hne); cbn [snd]; lia.
Qed.

Lemma at_app_l p q i : (i < length p)%nat -> utf8.at_ (p ++ q) i = utf8.at_ p i.
Proof. intros H. unfold utf8.at_. by rewrite app_nth1. Qed.

(* A rune of two bytes or more is decoded from its own bytes: what follows
   them does not matter. *)
Lemma DecodeRune_app p q r size :
  utf8.DecodeRune p = (r, size) -> 2 <= size ->
  utf8.DecodeRune (p ++ q) = (r, size).
Proof.
  intros Hd Hs.
  assert (Hne : p <> []) by (intros ->; vm_compute in Hd; injection Hd; lia).
  pose proof (DecodeRune_Decoded p Hne) as H. rewrite Hd in H.
  inversion H as [| |r' size' Hsz Hn Hp0 Hb1 Hr Hst]; subst; try lia.
  pose proof (len_nonneg q) as Hq.
  rewrite DecodeRune_unfold in Hd |- *. rewrite len_app.
  destruct (len p <? 1) eqn:E0; [lia|]. destruct (len p + len q <? 1) eqn:E1; [lia|].
  cbv zeta in Hd |- *. rewrite (at_app_l p q 0) by (unfold len in *; lia).
  destruct (utf8.as_ <=? utf8.first (utf8.at_ p 0)) eqn:Hx.
  { injection Hd as _ Hd. lia. }
  rewrite (at_app_l p q 1) by (unfold len in *; lia).
  apply Hst; [lia| |]; intros; apply at_app_l; unfold len in *; lia.
Qed.

Lemma DecodeRune_multi p r size :
  utf8.DecodeRune p = (r, size) -> 2 <= size ->
  0x80 <= r /\ 0xC2 <= utf8.at_ p 0 /\ size <= len p.
Proof.
  intros Hd Hs.
  assert (Hne : p <> []) by (intros ->; vm_compute in Hd; injection Hd; lia).
  pose proof (DecodeRune_Decoded p Hne) as H. rewrite Hd in H.
  inversion H; subst; lia.
Qed.

(* A byte of RuneSelf or more that no continuation byte follows decodes to
   the error rune. *)
Lemma DecodeRune_lone p :
  p <> [] -> 0x80 <= utf8.at_ p 0 -> (len p = 1 \/ utf8.at_ p 1 < 0x80) ->
  utf8.DecodeRune p = (utf8.RuneError, 1).
Proof.
  intros Hne H0 H1. pose proof (DecodeRune_Decoded p Hne) as H.
  inversion H as [Hlt Heq|Hge Heq|r size Hsz Hn Hp0 Hb1 Hr Hst Heq]; try done; lia.
Qed.

Lemma scanStart_le fuel p start lim : utf8.scanStart fuel p start lim <= start.
Proof.
  revert start. induction fuel as [|k IH]; intros start; simpl; [lia|].
  case_if; [lia|]. case_if; [lia|]. specialize (IH (start - 1)). lia.
Qed.

Lemma at_drop p k i : utf8.at_ (drop k p) i = utf8.at_ p (k + i).
Proof. unfold utf8.at_. f_equal. apply nth_skipn. Qed.

(* The last rune of a string that ends in a byte of RuneSelf or more. *)
Lemma DecodeLastRune_high p r size :
  p <> [] -> 0x80 <= utf8.at_ p (length p - 1) ->
  utf8.DecodeLastRune p = (r, size) ->
  (r = utf8.RuneError /\ size = 1)
  \/ (2 <= size <= len p
      /\ utf8.DecodeRune (drop (Z.to_nat (len p - size)) p) = (r, size)).
Proof.
  intros Hne Hhi. pose proof (len_pos_cons p Hne) as Hlen.
  unfold utf8.DecodeLastRune. cbv zeta.
  destruct (len p =? 0) eqn:E0; [lia|].
  replace (Z.to_nat (len p - 1)) with (length p - 1)%nat by (unfold len; lia).
  destruct (utf8.at_ p (length p - 1) <? utf8.RuneSelf) eqn:E1;
    [unfold utf8.RuneSelf in E1; lia|].
  pose proof (scanStart_le 4 p (len p - 1 - 1) (Z.max (len p - utf8.UTFMax) 0)) as Hle.
  set (st0 := utf8.scanStart 4 p (len p - 1 - 1) (Z.max (len p - utf8.UTFMax) 0)) in *.
  set (st := if st0 <? 0 then 0 else st0).
  assert (Hst : 0 <= st <= len p - 1) by (unfold st; destruct (st0 <? 0) eqn:?; lia).
  assert (Hne' : drop (Z.to_nat st) p <> []).
  { intros Hnil. apply (f_equal length) in Hnil. rewrite length_drop in Hnil.
    simpl in Hnil. unfold len in *. lia. }
  pose proof (DecodeRune_Decoded _ Hne') as Hdec.
  destruct (utf8.DecodeRune (drop (Z.to_nat st) p)) as [r0 size0] eqn:Hd.
  destruct (st + size0 =? len p) eqn:E2; cbn [negb]; intros Heq;
    injection Heq as <- <-; [|by left].
  inversion Hdec as [Hlt|Hge|r' size' Hsz Hn Hp0 Hb1 Hr Hstab]; subst.
  - exfalso. rewrite at_drop in Hlt.
    replace (Z.to_nat st + 0)%nat with (length p - 1)%nat in Hlt by (unfold len in *; lia).
    lia.
  - by left.
  - right. split; [lia|]. replace (len p - size0) with st by lia. done.
Qed.

(** ** Ranging over the runes of a string *)

Lemma rangeLoop_bounds fuel s i j r :
  (j, r) ∈ strings.rangeLoop fuel s i -> i <= j < i + len s.
Proof.
  revert s i. induction fuel as [|k IH]; intros s i Hin; simpl in Hin.
  { by apply elem_of_nil in Hin. }
  destruct s as [|b s']; [by apply elem_of_nil in Hin|].
  set (s := b :: s') in *.
  assert (Hne : s <> []) by done.
  pose proof (DecodeRune_size s Hne) as Hsz.
  destruct (utf8.DecodeRune s) as [r0 size]. cbn [snd] in Hsz.
  apply elem_of_cons in Hin as [Heq|Hin].
  - injection Heq as -> ->. zlia.
  - apply IH in Hin.
    assert (len (drop (Z.to_nat size) s) = len s - size).
    { unfold len in *. rewrite length_drop. zlia. }
    zlia.
Qed.

Lemma range_bounds s j r : (j, r) ∈ strings.range s -> 0 <= j < len s.
Proof. intros H. apply rangeLoop_bounds in H. zlia. Qed.

Lemma firstIndex_spec f truth rs :
  (forall j r, (j, r) ∈ rs -> 0 <= j) ->
  (strings.firstIndex f truth rs = -1
   /\ Forall (fun ir => f (snd ir) = negb truth) rs)
  \/ (exists before r after,
        rs = before ++ (strings.firstIndex f truth rs, r) :: after
        /\ Forall (fun ir => f (snd ir) = negb truth) before
        /\ f r = truth).
Proof.
  induction rs as [|[j r] rs IH]; intros Hpos; simpl.
  { left. by split. }
  destruct (Bool.eqb (f r) truth) eqn:E.
  - right. exists [], r, rs. split; [done|]. split; [constructor|].
    by apply eqb_prop.
  - assert (Hf : f r = negb truth) by (destruct (f r), truth; done).
    destruct IH as [[Hn Hall]|(before & r' & after & Heq & Hall & Hr)].
    { intros j' r' Hin. apply (Hpos j' r'). by right. }
    + left. split; [done|]. by constructor.
    + right. exists ((j, r) :: before), r', after.
      split; [by rewrite Heq at 1|]. split; [by constructor|done].
Qed.

Lemma firstIndex_range f truth rs n :
  (forall j r, (j, r) ∈ rs -> 0 <= j < n) ->
  strings.firstIndex f truth rs = -1 \/ 0 <= strings.firstIndex f truth rs < n.
Proof.
  induction rs as [|[j r] rs IH]; intros Hb; simpl; [by left|].
  destruct (Bool.eqb (f r) truth).
  - right. apply (Hb j r). left.
  - apply IH. intros j' r' Hin. apply (Hb j' r'). by right.
Qed.

Lemma indexFunc_range s f truth :
  strings.indexFunc s f truth = -1 \/ 0 <= strings.indexFunc s f truth < len s.
Proof. apply firstIndex_range. intros j r. apply range_bounds. Qed.

Lemma IndexFunc_range s f :
  strings.IndexFunc s f = -1 \/ 0 <= strings.IndexFunc s f < len s.
Proof. apply indexFunc_range. Qed.

(** ** Trimming trailing NUL, CR and LF *)

Lemma isNulCrLf_byte b : isNulCrLf (bz b) = isNulCrLfByte b.
Proof. done. Qed.

Lemma junk_low b : isNulCrLfByte b = true -> bz b < 0x80.
Proof.
  unfold isNulCrLfByte. intros H.
  apply orb_prop in H as [H|H]; [apply orb_prop in H as [H|H]|]; zlia.
Qed.

Lemma isNulCrLf_high r : 0x80 <= r -> isNulCrLf r = false.
Proof.
  intros H. unfold isNulCrLf.
  destruct (r =? 0) eqn:?, (r =? 13) eqn:?, (r =? 10) eqn:?; zlia || done.
Qed.

(* Every string is a string that does not end in NUL, CR or LF, followed by
   bytes that are NUL, CR or LF. *)
Lemma trim_decompose (s : list byte) :
  exists core junk,
    s = core ++ junk
    /\ Forall (fun b => isNulCrLfByte b = true) junk
    /\ forall b, last core = Some b -> isNulCrLfByte b = false.
Proof.
  induction s as [|b s IH] using rev_ind.
  - exists [], []. split; [done|]. split; [constructor|]. intros b H. done.
  - destruct (isNulCrLfByte b) eqn:E.
    + destruct IH as (core & junk & -> & Hj & Hc).
      exists core, (junk ++ [b]). split; [by rewrite app_assoc|].
      split; [|done]. apply Forall_app. split; [done|]. by constructor.
    + exists (s ++ [b]), []. split; [by rewrite app_nil_r|].
      split; [constructor|]. intros b'. rewrite last_snoc. by intros [= <-].
Qed.

Lemma at_junk core junk k :
  Forall (fun b => isNulCrLfByte b = true) junk ->
  (length core <= k < length core + length junk)%nat ->
  isNulCrLf (utf8.at_ (core ++ junk) k) = true /\ utf8.at_ (core ++ junk) k < 0x80.
Proof.
  intros Hj Hk. unfold utf8.at_. rewrite app_nth2 by zlia.
  rewrite List.Forall_forall in Hj.
  assert (Hin : In (nth (k - length core) junk x00) junk) by (apply nth_In; zlia).
  apply Hj in Hin. rewrite isNulCrLf_byte. split; [done|by apply junk_low].
Qed.

(* The loop of lastIndexFunc steps over the trailing bytes one at a time. *)
Lemma lastIndexLoop_junk core junk n fuel :
  Forall (fun b => isNulCrLfByte b = true) junk ->
  (n <= length junk)%nat -> (n <= fuel)%nat ->
  bytes.lastIndexLoop fuel (core ++ junk) isNulCrLf false (len core + Z.of_nat n)
  = bytes.lastIndexLoop (fuel - n) (core ++ junk) isNulCrLf false (len core).
Proof.
  intros Hj. revert fuel. induction n as [|n IH]; intros fuel Hn Hf.
  { by rewrite Z.add_0_r, Nat.sub_0_r. }
  destruct fuel as [|fuel]; [zlia|]. cbn [bytes.lastIndexLoop].
  pose proof (len_nonneg core) as Hc.
  destruct (len core + Z.of_nat (S n) <=? 0) eqn:E0; [zlia|].
  replace (Z.to_nat (len core + Z.of_nat (S n) - 1)) with (length core + n)%nat
    by (unfold len; zlia).
  destruct (at_junk core junk (length core + n) Hj ltac:(zlia)) as [Hjk Hlow].
  destruct (utf8.RuneSelf <=? utf8.at_ (core ++ junk) (length core + n)) eqn:E1;
    [unfold utf8.RuneSelf in E1; zlia|].
  rewrite Hjk. cbn [Bool.eqb].
  replace (len core + Z.of_nat (S n) - 1) with (len core + Z.of_nat n) by zlia.
  rewrite IH by zlia. done.
Qed.

Lemma at_last core b : utf8.at_ (core ++ [b]) (length core) = bz b.
Proof. unfold utf8.at_. by rewrite nth_middle. Qed.

(** bytes.TrimRightFunc with isNulCrLf removes the trailing NUL, CR and LF
    bytes and nothing else. *)
Lemma TrimRightFunc_core core junk :
  Forall (fun b => isNulCrLfByte b = true) junk ->
  (forall b, last core = Some b -> isNulCrLfByte b = false) ->
  bytes.TrimRightFunc (core ++ junk) isNulCrLf = core.
Proof.
  intros Hj Hc. unfold bytes.TrimRightFunc, bytes.lastIndexFunc.
  assert (Hlen : len (core ++ junk) = len core + Z.of_nat (length junk)).
  { by rewrite len_app. }
  rewrite Hlen, length_app, lastIndexLoop_junk by (done || zlia).
  replace (length core + length junk - length junk)%nat with (length core) by zlia.
  destruct core as [|b0 core0] using rev_ind.
  { simpl. done. }
  clear IHcore0. rewrite last_snoc in Hc. specialize (Hc b0 eq_refl).
  set (core := core0 ++ [b0]) in *.
  assert (Hlc : length core = S (length core0)).
  { unfold core. rewrite length_app. simpl. zlia. }
  rewrite Hlc. cbn [bytes.lastIndexLoop].
  destruct (len core <=? 0) eqn:E0; [unfold len in E0; zlia|].
  replace (Z.to_nat (len core - 1)) with (length core0) by (unfold len; zlia).
  assert (Hat : utf8.at_ (core ++ junk) (length core0) = bz b0).
  { rewrite at_app_l by zlia. apply at_last. }
  rewrite Hat.
  replace (Z.to_nat (len core)) with (length core) by (unfold len; zlia).
  rewrite take_app_length.
  destruct (utf8.RuneSelf <=? bz b0) eqn:Ehi.
  - (* the last byte kept belongs to a rune of several bytes, or is invalid *)
    unfold utf8.RuneSelf in Ehi.
    destruct (utf8.DecodeLastRune core) as [r size] eqn:Hd.
    assert (Hne : core <> []) by (unfold core; by destruct core0).
    destruct (DecodeLastRune_high core r size Hne) as [[-> ->]|[Hsz Hdr]]; [|done| |].
    { replace (length core - 1)%nat with (length core0) by zlia.
      unfold core. rewrite at_last. zlia. }
    + (* an invalid byte: width 1 *)
      change (isNulCrLf utf8.RuneError) with false. cbn [Bool.eqb].
      replace (Z.to_nat (len core - 1)) with (length core0) by (unfold len; zlia).
      rewrite Hat.
      destruct (0 <=? len core - 1) eqn:E1; [|unfold len in E1; zlia].
      destruct (utf8.RuneSelf <=? bz b0) eqn:E2; [|unfold utf8.RuneSelf in E2; zlia].
      cbn [andb].
      assert (Hdrop : drop (length core0) (core ++ junk) = b0 :: junk).
      { unfold core. rewrite <- app_assoc. by rewrite drop_app_length. }
      rewrite Hdrop, DecodeRune_lone; [| done | unfold utf8.at_; cbn [nth]; zlia |].
      * cbn [snd]. replace (Z.to_nat (len core - 1 + 1)) with (length core)
          by (unfold len; zlia).
        by rewrite take_app_length.
      * destruct junk as [|j junk']; [by left|right].
        inversion Hj; subst. unfold utf8.at_. simpl. by apply junk_low.
    + (* a rune of [size] bytes *)
      destruct (DecodeRune_multi _ _ _ Hdr ltac:(zlia)) as (Hr & Hp0 & _).
      rewrite isNulCrLf_high by done. cbn [Bool.eqb].
      set (L := Z.to_nat (len core - size)) in *.
      assert (HL : (L + Z.to_nat size = length core)%nat) by (unfold L, len in *; zlia).
      rewrite at_drop, Nat.add_0_r in Hp0.
      rewrite (at_app_l core junk L) by zlia.
      destruct (0 <=? len core - size) eqn:E1; [|zlia].
      destruct (utf8.RuneSelf <=? utf8.at_ core L) eqn:E2;
        [|unfold utf8.RuneSelf in E2; zlia].
      cbn [andb]. fold L.
      rewrite drop_app_le by zlia.
      rewrite (DecodeRune_app _ junk _ _ Hdr) by zlia. cbn [snd].
      replace (Z.to_nat (len core - size + size)) with (length core)
        by (unfold len; zlia).
      by rewrite take_app_length.
  - (* the last byte kept is below RuneSelf *)
    rewrite isNulCrLf_byte, Hc. cbn [Bool.eqb].
    replace (Z.to_nat (len core - 1)) with (length core0) by (unfold len; zlia).
    rewrite Hat, Ehi, andb_false_r.
    replace (Z.to_nat (len core - 1 + 1)) with (length core) by (unfold len; zlia).
    by rewrite take_app_length.
Qed.

Lemma TrimRightFunc_Trimmed s : Trimmed s (bytes.TrimRightFunc s isNulCrLf).
Proof.
  destruct (trim_decompose s) as (core & junk & -> & Hj & Hc).
  rewrite TrimRightFunc_core by done. split; [|done]. by exists junk.
Qed.

(** ** The loops run to their end

    The loops of the library are written with a bound on their number of
    turns; the bound that the definitions pass is never reached. *)

Lemma rangeLoop_fuel f1 f2 s i :
  (length s <= f1)%nat -> (length s <= f2)%nat ->
  strings.rangeLoop f1 s i = strings.rangeLoop f2 s i.
Proof.
  revert f2 s i. induction f1 as [|k IH]; intros f2 s i H1 H2.
  { destruct s; [|simpl in H1; lia]. by destruct f2. }
  destruct f2 as [|k2]; [destruct s; [done|simpl in H2; lia]|].
  destruct s as [|b s']; [done|]. cbn [strings.rangeLoop].
  pose proof (DecodeRune_size (b :: s') ltac:(done)) as Hsz.
  destruct (utf8.DecodeRune (b :: s')) as [r size]. cbn [snd] in Hsz.
  f_equal. apply IH; rewrite length_drop; simpl in *; lia.
Qed.

Lemma scanStart_fuel f p start lim :
  start - lim + 1 < Z.of_nat f ->
  utf8.scanStart f p start lim = utf8.scanStart (S f) p start lim.
Proof.
  revert start. induction f as [|k IH]; intros start H.
  { cbn. destruct (start <? lim) eqn:E; [done|zlia]. }
  cbn [utf8.scanStart]. destruct (start <? lim) eqn:E; [done|].
  destruct (utf8.RuneStart _); [done|].
  rewrite IH by zlia. done.
Qed.

Lemma DecodeLastRune_size p :
  p <> [] -> 1 <= snd (utf8.DecodeLastRune p) <= len p.
Proof.
  intros Hne. pose proof (len_pos_cons p Hne) as Hlen.
  destruct (utf8.DecodeLastRune p) as [r size] eqn:Hd. cbn [snd].
  destruct (decide (0x80 <= utf8.at_ p (length p - 1))) as [Hhi|Hlo].
  - destruct (DecodeLastRune_high p r size Hne Hhi Hd) as [[_ ->]|[H _]]; lia.
  - unfold utf8.DecodeLastRune in Hd. cbv zeta in Hd.
    destruct (len p =? 0) eqn:E0; [zlia|].
    replace (Z.to_nat (len p - 1)) with (length p - 1)%nat in Hd by (unfold len; lia).
    destruct (utf8.at_ p (length p - 1) <? utf8.RuneSelf) eqn:E1;
      [|unfold utf8.RuneSelf in E1; zlia].
    injection Hd as _ <-. lia.
Qed.

Lemma strings_lastIndexLoop_fuel f1 f2 s g truth i :
  0 <= i <= len s -> i <= Z.of_nat f1 -> i <= Z.of_nat f2 ->
  strings.lastIndexLoop f1 s g truth i = strings.lastIndexLoop f2 s g truth i.
Proof.
  revert f2 i. induction f1 as [|k IH]; intros f2 i Hi H1 H2.
  { destruct f2; [done|]. cbn. destruct (i <=? 0) eqn:E; [done|zlia]. }
  destruct f2 as [|k2]; cbn [strings.lastIndexLoop].
  { destruct (i <=? 0) eqn:E; [done|zlia]. }
  destruct (i <=? 0) eqn:E; [done|].
  assert (Hne : take (Z.to_nat i) s <> []).
  { intros Hnil. apply (f_equal length) in Hnil. rewrite length_take in Hnil.
    simpl in Hnil. unfold len in *. zlia. }
  pose proof (DecodeLastRune_size _ Hne) as Hsz.
  assert (Hl : len (take (Z.to_nat i) s) = i).
  { unfold len in *. rewrite length_take. lia. }
  destruct (utf8.DecodeLastRune (take (Z.to_nat i) s)) as [r size]. cbn [snd] in Hsz.
  destruct (Bool.eqb (g r) truth); [done|]. apply IH; lia.
Qed.

Lemma bytes_lastIndexLoop_fuel f1 f2 s g truth i :
  0 <= i <= len s -> i <= Z.of_nat f1 -> i <= Z.of_nat f2 ->
  bytes.lastIndexLoop f1 s g truth i = bytes.lastIndexLoop f2 s g truth i.
Proof.
  revert f2 i. induction f1 as [|k IH]; intros f2 i Hi H1 H2.
  { destruct f2; [done|]. cbn. destruct (i <=? 0) eqn:E; [done|zlia]. }
  destruct f2 as [|k2]; cbn [bytes.lastIndexLoop].
  { destruct (i <=? 0) eqn:E; [done|zlia]. }
  destruct (i <=? 0) eqn:E; [done|].
  assert (Hne : take (Z.to_nat i) s <> []).
  { intros Hnil. apply (f_equal length) in Hnil. rewrite length_take in Hnil.
    simpl in Hnil. unfold len in *. zlia. }
  pose proof (DecodeLastRune_size _ Hne) as Hsz.
  assert (Hl : len (take (Z.to_nat i) s) = i).
  { unfold len in *. rewrite length_take. lia. }
  destruct (utf8.RuneSelf <=? utf8.at_ s (Z.to_nat (i - 1))).
  - destruct (utf8.DecodeLastRune (take (Z.to_nat i) s)) as [r size]. cbn [snd] in Hsz.
    destruct (Bool.eqb (g r) truth); [done|]. apply IH; lia.
  - destruct (Bool.eqb (g _) truth); [done|]. apply IH; zlia.
Qed.

(** ** Parse msg part *)

Lemma parseMsg_spec {W} (rt : Runtime) (s : Server W) (body : list byte) :
  exists tag content tag1 content1,
    parseMsg rt s body = Ok (tag, content, tag1, content1)
    /\ SplitAtFirst (isNotAlnum (unicodeTables rt) s)
         (bytes.TrimRightFunc body isNulCrLf) tag content.
Proof.
  unfold parseMsg. cbv zeta.
  set (msg := bytes.TrimRightFunc body isNulCrLf).
  set (stop := isNotAlnum (unicodeTables rt) s).
  set (space := unicode.IsSpace (unicodeTables rt)).
  set (msg1 := strings.TrimFunc msg space).
  assert (Hstrict : exists tag content,
    (if negb (strings.IndexFunc msg stop =? -1)
     then do tag <- slice_to msg (strings.IndexFunc msg stop);
          do content <- slice_from msg (strings.IndexFunc msg stop);
          Ok (tag, content)
     else Ok ([], msg)) = Ok (tag, content)
    /\ SplitAtFirst stop msg tag content).
  { pose proof (IndexFunc_range msg stop) as Hr.
    destruct (firstIndex_spec stop true (strings.range msg))
      as [[Hn Hall]|(before & r & after & Heq & Hall & Hr')].
    { intros j r Hin. apply range_bounds in Hin. lia. }
    - unfold strings.IndexFunc, strings.indexFunc. rewrite Hn. cbn.
      exists [], msg. split; [done|]. right. done.
    - fold (strings.indexFunc msg stop true) in Heq.
      fold (strings.IndexFunc msg stop) in Heq.
      assert (Hin : (strings.IndexFunc msg stop, r)
                      ∈ before ++ (strings.IndexFunc msg stop, r) :: after).
      { apply elem_of_app. right. left. }
      rewrite <- Heq in Hin.
      apply range_bounds in Hin.
      destruct (strings.IndexFunc msg stop =? -1) eqn:E; [zlia|]. cbn [negb].
      rewrite slice_to_ok, slice_from_ok by lia. cbn [bind].
      eexists _, _. split; [done|]. left.
      exists before, (strings.IndexFunc msg stop), r, after. done. }
  destruct Hstrict as (tag & content & -> & Hsplit). cbn [bind].
  pose proof (IndexFunc_range msg1 space) as Hr.
  destruct (strings.IndexFunc msg1 space =? -1) eqn:E; cbn [negb bind].
  - by eexists _, _, _, _.
  - rewrite slice_to_ok, slice_from_ok by zlia. cbn [bind].
    by eexists _, _, _, _.
Qed.

(** ** Parse header *)

Lemma byteAt_nth pkt i c :
  (i < length pkt)%nat -> byteAt pkt i c = Byte.eqb (nth i pkt x00) c.
Proof.
  intros H. unfold byteAt. rewrite nth_lookup.
  destruct (lookup_lt_is_Some_2 pkt i H) as [b ->]. done.
Qed.

(** The header detection of [receiver] computes what the specification
    describes: layout A first, then layout B, then no header. *)
Lemma parseHeader_detect rt pkt :
  parseHeader rt true pkt = Ok (detectHeader rt pkt).
Proof.
  unfold parseHeader, detectHeader, layoutA, layoutB. cbn [andb].
  destruct (26 <=? len pkt) eqn:E26.
  - assert (H26 : 26 <= len pkt) by zlia.
    destruct (16 <=? len pkt) eqn:E16; [|zlia].
    rewrite (index_ok pkt 25), (index_ok pkt 15) by lia. cbn [bind].
    rewrite (byteAt_nth pkt 25), (byteAt_nth pkt 15) by (unfold len in *; lia).
    change (Z.to_nat 25) with 25%nat. change (Z.to_nat 15) with 15%nat.
    rewrite (slice_to_ok pkt 25), (slice_to_ok pkt 15) by lia.
    change (Z.to_nat 25) with 25%nat. change (Z.to_nat 15) with 15%nat.
    destruct (Byte.eqb (nth 25 pkt x00) " ") eqn:E25;
      destruct (Byte.eqb (nth 15 pkt x00) " ") eqn:E15; cbn [bind andb negb].
    + unfold parses.
      by destruct (time_Parse rt stampLayout (take 15 pkt)) as [t|];
        [destruct (time.IsZero t)|].
    + unfold parses.
      by destruct (time_Parse rt time.RFC3339 (take 25 pkt)) as [t|];
        [destruct (time.IsZero t)|].
    + unfold parses.
      by destruct (time_Parse rt stampLayout (take 15 pkt)) as [t|];
        [destruct (time.IsZero t)|].
    + done.
  - cbn [bind andb].
    destruct (16 <=? len pkt) eqn:E16; cbn [bind andb]; [|done].
    assert (H16 : 16 <= len pkt) by zlia.
    rewrite (index_ok pkt 15) by lia. cbn [bind].
    rewrite (byteAt_nth pkt 15) by (unfold len in *; lia).
    change (Z.to_nat 15) with 15%nat.
    rewrite (slice_to_ok pkt 15) by lia.
    change (Z.to_nat 15) with 15%nat.
    destruct (Byte.eqb (nth 15 pkt x00) " ") eqn:E15; cbn [bind andb negb]; [|done].
    unfold parses.
    by destruct (time_Parse rt stampLayout (take 15 pkt)) as [t|];
      [destruct (time.IsZero t)|].
Qed.

Lemma parseHeader_noprio rt pkt : parseHeader rt false pkt = Ok 0.
Proof. done. Qed.

Lemma detectHeader_range rt pkt :
  detectHeader rt pkt = 0
  \/ (detectHeader rt pkt = 16 \/ detectHeader rt pkt = 26)
     /\ detectHeader rt pkt <= len pkt.
Proof.
  unfold detectHeader.
  destruct (layoutA rt pkt) eqn:EA.
  { right. split; [by right|]. unfold layoutA in EA.
    repeat (apply andb_prop in EA as [EA ?]). zlia. }
  destruct (layoutB rt pkt) eqn:EB; [|by left].
  right. split; [by left|]. unfold layoutB in EB.
  repeat (apply andb_prop in EB as [EB ?]). zlia.
Qed.

(** ** The hostname *)

Lemma parseHostname_none ts pkt :
  parseHostname ts 0 pkt = Ok (time.zero, [], pkt, Some pkt).
Proof. done. Qed.

(* With a header: either the hostname runs to the next space, or there is
   no space and nothing is extracted. *)
Lemma parseHostname_header ts off pkt :
  0 < off <= len pkt ->
  (exists host rest,
      drop (Z.to_nat off) pkt = host ++ " "%byte :: rest /\ (" "%byte ∉ host)
      /\ parseHostname ts off pkt = Ok (ts, host, rest, None))
  \/ ((" "%byte ∉ drop (Z.to_nat off) pkt)
      /\ parseHostname ts off pkt = Ok (time.zero, [], pkt, None)).
Proof.
  intros Hoff. unfold parseHostname.
  destruct (off =? 0) eqn:E0; [zlia|].
  rewrite slice_from_ok by lia. cbn [bind].
  set (tl := drop (Z.to_nat off) pkt).
  assert (Htl : len tl = len pkt - off).
  { unfold tl, len in *. rewrite length_drop. lia. }
  destruct (IndexByte_split tl " "%byte) as [[Hi Hn]|(host & rest & Heq & Hn)].
  - right. split; [done|]. rewrite Hi.
    destruct (off + -1 =? off - 1) eqn:E1; [done|zlia].
  - left. exists host, rest. split; [done|]. split; [done|].
    rewrite Heq, IndexByte_app by done.
    pose proof (len_nonneg host) as Hh. pose proof (len_nonneg rest) as Hr.
    assert (Hlen : len tl = len host + 1 + len rest).
    { rewrite Heq, len_app, len_cons. lia. }
    destruct (off + len host =? off - 1) eqn:E1; [zlia|]. cbn [negb].
    rewrite slice_ok by lia. cbn [bind].
    rewrite slice_from_ok by lia. cbn [bind].
    fold tl. rewrite Heq.
    replace (Z.to_nat (off + len host - off)) with (length host) by (unfold len; lia).
    rewrite take_app_length.
    replace (Z.to_nat (off + len host + 1)) with (Z.to_nat off + (length host + 1))%nat
      by (unfold len; lia).
    rewrite <- drop_drop. fold tl. rewrite Heq.
    rewrite drop_app_add'; [|done]. done.
Qed.

Lemma parseHostname_ok ts off pkt :
  0 <= off <= len pkt ->
  exists stamp host rest lg,
    parseHostname ts off pkt = Ok (stamp, host, rest, lg)
    /\ (stamp = time.zero /\ host = [] /\ rest = pkt \/ stamp = ts).
Proof.
  intros Hoff. destruct (decide (off = 0)) as [->|Hne].
  - eexists _, _, _, _. split; [apply parseHostname_none|]. by left.
  - destruct (parseHostname_header ts off pkt) as [(host & rest & _ & _ & ->)|[_ ->]];
      [lia| |]; eexists _, _, _, _; (split; [done|]); [by right|by left].
Qed.

(** ** The decoder as a whole *)

Lemma receiver_decode_stages {W} rt (s : Server W) remote now ts pkt
    prio hasPrio rest off stamp host body lg tag content tag1 content1 :
  parsePriority pkt = Ok (prio, hasPrio, rest) ->
  parseHeader rt hasPrio rest = Ok off ->
  parseHostname ts off rest = Ok (stamp, host, body, lg) ->
  parseMsg rt s body = Ok (tag, content, tag1, content1) ->
  receiver_decode rt s remote now ts pkt
  = Ok (assemble remote now prio stamp host tag content tag1 content1, lg)
  /\ messageBody rt pkt = Ok body.
Proof.
  intros H1 H2 H3 H4. unfold receiver_decode, messageBody.
  rewrite H1. cbn [bind]. rewrite H2. cbn [bind]. rewrite H3. cbn [bind].
  rewrite H4. cbn [bind]. split; [done|].
  unfold parseHostname in *. destruct (off =? 0); [by injection H3 as _ _ <- _|].
  destruct (slice_from rest off) as [tl|]; [|done]. cbn [bind] in *.
  destruct (negb _); [|by injection H3 as _ _ <- _].
  destruct (slice rest off _); [|done]. cbn [bind] in *.
  destruct (slice_from rest _); [|done]. cbn [bind] in *.
  by injection H3 as _ _ <- _.
Qed.

(** Every packet of at least one byte is decoded: no stage panics.  The
    stages are named so that each claim can say what it needs of them. *)
Lemma receiver_decode_total {W} rt (s : Server W) remote now ts pkt :
  pkt <> [] ->
  exists prio hasPrio rest stamp host body lg tag content tag1 content1,
    parsePriority pkt = Ok (prio, hasPrio, rest)
    /\ parseHostname ts (if hasPrio then detectHeader rt rest else 0) rest
       = Ok (stamp, host, body, lg)
    /\ parseMsg rt s body = Ok (tag, content, tag1, content1)
    /\ receiver_decode rt s remote now ts pkt
       = Ok (assemble remote now prio stamp host tag content tag1 content1, lg)
    /\ messageBody rt pkt = Ok body.
Proof.
  intros Hne.
  assert (Hp : exists prio hasPrio rest, parsePriority pkt = Ok (prio, hasPrio, rest)).
  { destruct (parsePriority_cases pkt Hne) as [(p & rest & _ & H)|[_ H]]; eauto. }
  destruct Hp as (prio & hasPrio & rest & Hp).
  set (off := if hasPrio then detectHeader rt rest else 0).
  assert (Hh : parseHeader rt hasPrio rest = Ok off).
  { unfold off. destruct hasPrio; [apply parseHeader_detect|apply parseHeader_noprio]. }
  assert (Hoff : 0 <= off <= len rest).
  { pose proof (len_nonneg rest). unfold off. destruct hasPrio; [|lia].
    destruct (detectHeader_range rt rest) as [->|[[->| ->] ?]]; lia. }
  destruct (parseHostname_ok ts off rest Hoff) as (stamp & host & body & lg & Hn & _).
  destruct (parseMsg_spec rt s body) as (tag & content & tag1 & content1 & Hm & _).
  exists prio, hasPrio, rest, stamp, host, body, lg, tag, content, tag1, content1.
  destruct (receiver_decode_stages rt s remote now ts pkt _ _ _ _ _ _ _ _ _ _ _ _
              Hp Hh Hn Hm) as [Hd Hb].
  done.
Qed.

(** * The claims *)

(** ** The priority (claims C1, C5, C6) *)

Lemma decimal_tokens_checked :
  forallb (fun n => bool_decide (strconv.Atoi (decimal (Z.of_nat n)) = Some (Z.of_nat n))
                    && (length (decimal (Z.of_nat n)) <=? 3)%nat
                    && (1 <=? length (decimal (Z.of_nat n)))%nat)
          (seq 0 1000) = true.
Proof. vm_compute. reflexivity. Qed.

Lemma decimal_token p : 0 <= p < 1000 -> PriToken (decimal p) p.
Proof.
  intros Hp. pose proof decimal_tokens_checked as H.
  rewrite forallb_forall in H. specialize (H (Z.to_nat p)).
  rewrite Z2Nat.id in H by lia.
  assert (Hin : In (Z.to_nat p) (seq 0 1000)) by (apply in_seq; lia).
  apply H in Hin. apply andb_prop in Hin as [Hin H1]. apply andb_prop in Hin as [Ha H3].
  apply bool_decide_eq_true in Ha.
  apply Nat.leb_le in H1, H3.
  apply Atoi_PriToken; [lia|]. split; [done|lia].
Qed.

Lemma severity_range prio : 0 <= Z.land prio 7 <= 7.
Proof. rewrite Zland_7. Z.div_mod_to_equations. lia. Qed.

(** C1, as amended: for every p from 0 to 999 and every rest, the packet
    [<p>rest], with p written in decimal, is decoded to a message with
    severity [p & 7] and facility [p >> 3]. *)
Theorem priority_of_decimal {W} (rt : Runtime) (s : Server W) (remote : option Addr)
    (now ts : time.Time) (p : Z) (rest : list byte) :
  0 <= p < 1000 ->
  exists m lg,
    receiver_decode rt s remote now ts ("<"%byte :: decimal p ++ ">"%byte :: rest)
    = Ok (m, lg)
    /\ Severity m = Z.land p 7 /\ Facility m = Z.shiftr p 3.
Proof.
  intros Hp. pose proof (decimal_token p Hp) as Ht.
  destruct (receiver_decode_total rt s remote now ts
              ("<"%byte :: decimal p ++ ">"%byte :: rest) ltac:(done))
    as (prio & hp & rest' & stamp & host & body & lg & tag & content & tag1 & content1
        & Hpri & _ & _ & Hd & _).
  rewrite (parsePriority_recognized _ _ rest Ht) in Hpri. injection Hpri as <- <- <-.
  eexists _, _. split; [exact Hd|]. done.
Qed.

Lemma priority_of_decimal_witness :
  exists m lg,
    receiver_decode ref.runtime ref.server ref.peer time.zero time.zero
      ("<"%byte :: decimal 165 ++ ">"%byte :: lit "rest") = Ok (m, lg)
    /\ Severity m = Z.land 165 7 /\ Facility m = Z.shiftr 165 3.
Proof. apply (priority_of_decimal ref.runtime ref.server). lia. Defined.

(** C1 as it is written fails at p = 1000: a token of four digits is not
    read as a priority, and the message gets the default priority 13. *)
Lemma priority_1000_is_default :
  exists m lg,
    receiver_decode ref.runtime ref.server ref.peer time.zero time.zero
      ("<"%byte :: decimal 1000 ++ ">"%byte :: lit "rest") = Ok (m, lg)
    /\ Severity m = 5 /\ Facility m = 1
    /\ Z.land 1000 7 = 0 /\ Z.shiftr 1000 3 = 125.
Proof. eexists _, _. split; [vm_compute; reflexivity|]. done. Qed.

(** C5, as amended: every packet of at least one byte is decoded to a
    message with a severity from 0 to 7; and such a packet that is not
    [<tok>rest] for a token of one to three bytes that denotes a
    non-negative integer (digits, digits after a plus sign, or zeros after a
    minus sign) gets severity 5 and facility 1, the values of the default
    priority 13. *)
Theorem severity_in_range_default_13 {W} (rt : Runtime) (s : Server W)
    (remote : option Addr) (now ts : time.Time) (pkt : list byte) :
  pkt <> [] ->
  exists m lg,
    receiver_decode rt s remote now ts pkt = Ok (m, lg)
    /\ 0 <= Severity m <= 7
    /\ 0 <= Facility m
    /\ ((forall p rest, ~ HasPriority pkt p rest) ->
        Severity m = 5 /\ Facility m = 1).
Proof.
  intros Hne.
  destruct (receiver_decode_total rt s remote now ts pkt Hne)
    as (prio & hp & rest' & stamp & host & body & lg & tag & content & tag1 & content1
        & Hpri & _ & _ & Hd & _).
  eexists _, _. split; [exact Hd|]. cbn [assemble Severity Facility].
  split; [apply severity_range|].
  destruct (parsePriority_cases pkt Hne) as [(p & rest & Hhas & Hpri')|[Hno Hpri']];
    rewrite Hpri' in Hpri; injection Hpri as <- <- <-.
  - split; [|intros Hno; by destruct (Hno p rest)].
    destruct Hhas as (tok & _ & Ht). apply PriToken_nonneg in Ht.
    by apply Z.shiftr_nonneg.
  - split; [done|]. intros _. done.
Qed.

Lemma severity_in_range_default_13_witness :
  exists m lg,
    receiver_decode ref.runtime ref.server ref.peer time.zero time.zero
      (lit "kernel: up") = Ok (m, lg)
    /\ 0 <= Severity m <= 7
    /\ Severity m = 5 /\ Facility m = 1.
Proof.
  destruct (severity_in_range_default_13 ref.runtime ref.server ref.peer
              time.zero time.zero (lit "kernel: up") ltac:(done))
    as (m & lg & Hd & Hr & _ & Hdef).
  exists m, lg. split; [exact Hd|]. split; [exact Hr|].
  apply Hdef. intros p rest (tok & Heq & _). discriminate Heq.
Defined.

(** C5 as it is written fails at [<+7>x] and at the empty packet.  The
    packet [<+7>x] has no prefix [<n>] of unsigned decimal digits, and is
    decoded with priority 7, not 13: severity 7 and facility 0.  The empty
    packet is decoded to no message at all. *)
Lemma signed_prefix_not_default :
  ~ HasUnsignedPriority (lit "<+7>x")
  /\ (exists m lg,
        receiver_decode ref.runtime ref.server ref.peer time.zero time.zero (lit "<+7>x")
        = Ok (m, lg)
        /\ Severity m = 7 /\ Facility m = 0)
  /\ receiver_decode ref.runtime ref.server ref.peer time.zero time.zero []
     = Panic "index out of range".
Proof.
  split; [|split; [|reflexivity]].
  - intros (tok & rest & Heq & Hl & Hall).
    destruct tok as [|b tok]; [simpl in Hl; lia|].
    injection Heq as <- _. inversion Hall as [|?? Hd _]. vm_compute in Hd. discriminate Hd.
  - eexists _, _. split; [vm_compute; reflexivity|]. done.
Qed.

(** C6, as amended: a priority prefix is recognized exactly when the packet
    is [<tok>rest] for a token of one to three bytes that denotes a
    non-negative integer (digits, digits after a plus sign, or zeros after a
    minus sign); then the prefix is consumed and the integer is the
    priority.  For every other packet of at least one byte nothing is
    consumed and the priority is 13. *)
Theorem priority_prefix_recognition (pkt : list byte) :
  pkt <> [] ->
  (exists p rest, HasPriority pkt p rest /\ parsePriority pkt = Ok (p, true, rest))
  \/ ((forall p rest, ~ HasPriority pkt p rest)
      /\ parsePriority pkt = Ok (13, false, pkt)).
Proof. apply parsePriority_cases. Qed.

Lemma priority_prefix_recognition_witness :
  HasPriority (lit "<34>su: failed") 34 (lit "su: failed")
  /\ parsePriority (lit "<34>su: failed") = Ok (34, true, lit "su: failed").
Proof.
  assert (Hh : HasPriority (lit "<34>su: failed") 34 (lit "su: failed")).
  { exists (lit "34"). split; [reflexivity|].
    apply (PriDigits (lit "34")); [simpl; lia|]. repeat constructor. }
  split; [exact Hh|].
  destruct (priority_prefix_recognition (lit "<34>su: failed") ltac:(done))
    as [(p & rest & _ & Hp)|[Hno _]].
  - rewrite Hp. vm_compute in Hp. injection Hp as <- <-. reflexivity.
  - destruct (Hno _ _ Hh).
Defined.

(** C6 as it is written fails at [<+7>x]: the token has a sign, and the
    prefix is recognized with priority 7. *)
Lemma signed_priority_recognized :
  parsePriority (lit "<+7>x") = Ok (7, true, lit "x")
  /\ ~ UnsignedToken (lit "+7").
Proof.
  split; [vm_compute; reflexivity|].
  intros [_ H]. inversion H as [|?? Hd _]. vm_compute in Hd. discriminate Hd.
Qed.

(** ** The header (claims C2, C3, C4) *)



(* A packet in layout B: priority, a stamp of 15 bytes that parses, a
   space, a hostname without a space, a space, the body. *)
Lemma layoutB_decode {W} (rt : Runtime) (s : Server W) (remote : option Addr)
    (now ts : time.Time) (tok : list byte) (p : Z) (stamp host body : list byte) :
  PriToken tok p -> length stamp = 15%nat -> (" "%byte ∉ host) ->
  parses rt stampLayout stamp = true ->
  exists tag content tag1 content1,
    parseMsg rt s body = Ok (tag, content, tag1, content1)
    /\ receiver_decode rt s remote now ts
         ("<"%byte :: tok ++ ">"%byte :: stamp ++ " "%byte :: host ++ " "%byte :: body)
       = Ok ({| Source := remote; Time := now;
                Facility := Z.shiftr p 3; Severity := Z.land p 7;
                Timestamp := ts; Hostname := host;
                Tag := tag; Content := content;
                Tag1 := tag1; Content1 := content1 |}, None).
Proof.
  intros Ht Hlen Hsp Hparse.
  set (rest := stamp ++ " "%byte :: host ++ " "%byte :: body).
  destruct (parseMsg_spec rt s body) as (tag & content & tag1 & content1 & Hm & _).
  exists tag, content, tag1, content1. split; [done|].
  pose proof (parsePriority_recognized tok p rest Ht) as Hp.
  assert (Hl : len rest = 17 + len host + len body).
  { unfold rest. rewrite len_app, len_cons, len_app, len_cons. unfold len. lia. }
  pose proof (len_nonneg host). pose proof (len_nonneg body).
  assert (H15 : byteAt rest 15 " " = true).
  { unfold byteAt, rest. rewrite lookup_app_r by lia. rewrite Hlen. done. }
  assert (Hdet : detectHeader rt rest = 16).
  { unfold detectHeader, layoutA, layoutB. rewrite H15.
    cbn [negb]. rewrite andb_false_r. cbn [andb].
    replace (take 15 rest) with stamp
      by (unfold rest; by rewrite <- Hlen, take_app_length).
    rewrite Hparse. destruct (16 <=? len rest) eqn:E; [done|zlia]. }
  pose proof (parseHeader_detect rt rest) as Hh. rewrite Hdet in Hh.
  assert (Hdrop : drop (Z.to_nat 16) rest = host ++ " "%byte :: body).
  { unfold rest. change (Z.to_nat 16) with (15 + 1)%nat. rewrite <- Hlen.
    rewrite drop_app_add'; [|done]. done. }
  destruct (parseHostname_header ts 16 rest ltac:(lia))
    as [(host' & body' & Heq & Hsp' & Hn)|[Hnone _]].
  2:{ exfalso. apply Hnone. rewrite Hdrop. apply elem_of_app. right. left. }
  rewrite Hdrop in Heq.
  assert (host' = host /\ body' = body) as [-> ->].
  { pose proof (IndexByte_app host " "%byte body Hsp) as H1.
    pose proof (IndexByte_app host' " "%byte body' Hsp') as H2.
    rewrite Heq, H2 in H1.
    assert (Hll : length host = length host') by (unfold len in H1; lia).
    apply app_inj_1 in Heq as [-> Heq]; [|done]. by injection Heq as ->. }
  destruct (receiver_decode_stages rt s remote now ts _ _ _ _ _ _ _ _ _ _ _ _ _
              Hp Hh Hn Hm) as [Hd Hb].
  done.
Qed.

(** C2, at the packet of the specification: hostname, tag, content, tag1
    and content1 are as the claim says, and the timestamp of the message is
    [ts], the second reading of the clock, whatever it is, not the date and
    time of the header, to which the runtime parses the stamp. *)
Theorem layoutB_example_timestamp (now ts : time.Time) :
  receiver_decode ref.runtime ref.server ref.peer now ts
    (lit "<13>Jan  2 15:04:05 myhost prog123: hello world" ++ [x0a])
  = Ok ({| Source := ref.peer; Time := now; Facility := 1; Severity := 5;
           Timestamp := ts; Hostname := lit "myhost";
           Tag := lit "prog123"; Content := lit ": hello world";
           Tag1 := lit "prog123:"; Content1 := lit "hello world" |}, None)
  /\ time_Parse ref.runtime stampLayout (lit "Jan  2 15:04:05")
     = Some (ref.Date 0 1 2 15 4 5 0).
Proof. split; vm_compute; reflexivity. Qed.

(** C3, at the empty packet: [pkt[0]] is out of range and the decoder
    panics. *)
Theorem receiver_decode_empty_panics {W} (rt : Runtime) (s : Server W)
    (remote : option Addr) (now ts : time.Time) :
  receiver_decode rt s remote now ts [] = Panic "index out of range".
Proof. reflexivity. Qed.

(* C3 for every other packet: the decoder returns a message, and a message
   whose header was not understood has neither timestamp nor hostname. *)
Lemma receiver_decode_nonempty {W} (rt : Runtime) (s : Server W)
    (remote : option Addr) (now ts : time.Time) (pkt : list byte) :
  pkt <> [] ->
  exists m lg,
    receiver_decode rt s remote now ts pkt = Ok (m, lg)
    /\ (Timestamp m = ts \/ Timestamp m = time.zero /\ Hostname m = [])
    /\ (forall reported, lg = Some reported ->
        Timestamp m = time.zero /\ Hostname m = []).
Proof.
  intros Hne.
  destruct (receiver_decode_total rt s remote now ts pkt Hne)
    as (prio & hp & rest & stamp & host & body & lg & tag & content & tag1 & content1
        & Hpri & Hn & _ & Hd & _).
  eexists _, _. split; [exact Hd|]. cbn [assemble Timestamp Hostname].
  set (off := if hp then detectHeader rt rest else 0) in *.
  assert (Hoff : off = 0 \/ 0 < off <= len rest).
  { unfold off. destruct hp; [|by left].
    destruct (detectHeader_range rt rest) as [->|[[->| ->] ?]]; [by left|right; lia..]. }
  destruct Hoff as [H0|Hpos].
  - rewrite H0, parseHostname_none in Hn. injection Hn as <- <- <- <-.
    split; [by right|done].
  - destruct (parseHostname_header ts off rest Hpos)
      as [(host' & body' & _ & _ & Hn')|[_ Hn']];
      rewrite Hn' in Hn; injection Hn as <- <- <- <-.
    + split; [by left|done].
    + split; [by right|done].
Qed.

(** ** The message part (claim C9) *)

Lemma isNotAlnum_stopRune {W} (t : Tables) (s : Server W) (r : Z) :
  isNotAlnum t s r = stopRune t s r.
Proof.
  unfold isNotAlnum, stopRune.
  by destruct (unicode.IsLetter t r), (unicode.IsNumber t r), (allowed s r).
Qed.

Lemma SplitAtFirst_ext (f g : Z -> bool) msg tag content :
  (forall r, f r = g r) -> SplitAtFirst f msg tag content -> SplitAtFirst g msg tag content.
Proof.
  intros Hfg [(before & n & r & after & Heq & Hall & Hr & Ht & Hc)|(Hall & Ht & Hc)].
  - left. exists before, n, r, after. split; [done|]. split; [|split].
    + eapply Forall_impl; [exact Hall|]. intros ir Hir. by rewrite <- Hfg.
    + by rewrite <- Hfg.
    + done.
  - right. split; [|done].
    eapply Forall_impl; [exact Hall|]. intros ir Hir. by rewrite <- Hfg.
Qed.


(** C9, as amended: the decoder strips the trailing NUL, CR and LF bytes of
    the body, and splits what is left at its first rune that is not a
    letter, not a number and not an allowed rune: the tag is what stands
    before that rune and the content what stands from it on; without such a
    rune the tag is empty and the content is everything. *)
Theorem strict_split {W} (rt : Runtime) (s : Server W) (remote : option Addr)
    (now ts : time.Time) (pkt : list byte) :
  pkt <> [] ->
  exists m lg body msg,
    receiver_decode rt s remote now ts pkt = Ok (m, lg)
    /\ messageBody rt pkt = Ok body
    /\ Trimmed body msg
    /\ SplitAtFirst (stopRune (unicodeTables rt) s) msg (Tag m) (Content m).
Proof.
  intros Hne.
  destruct (receiver_decode_total rt s remote now ts pkt Hne)
    as (prio & hp & rest & stamp & host & body & lg & tag & content & tag1 & content1
        & _ & _ & Hm & Hd & Hb).
  destruct (parseMsg_spec rt s body) as (tag' & content' & tag1' & content1' & Hm' & Hs).
  rewrite Hm' in Hm. injection Hm as -> -> -> ->.
  eexists _, _, body, _. split; [exact Hd|]. split; [exact Hb|].
  split; [apply TrimRightFunc_Trimmed|].
  eapply SplitAtFirst_ext; [|exact Hs]. apply isNotAlnum_stopRune.
Qed.

(* The body [text], CR, LF, NUL of the specification, for every runtime and
   every set of allowed runes. *)
Lemma trailing_bytes_text {W} (rt : Runtime) (s : Server W) (remote : option Addr)
    (now ts : time.Time) :
  receiver_decode rt s remote now ts (lit "text" ++ [x0d; x0a; x00])
  = Ok ({| Source := remote; Time := now; Facility := 1; Severity := 5;
           Timestamp := time.zero; Hostname := [];
           Tag := []; Content := lit "text";
           Tag1 := []; Content1 := lit "text" |},
        Some (lit "text" ++ [x0d; x0a; x00])).
Proof. vm_compute. reflexivity. Qed.

Lemma strict_split_witness :
  exists m lg body msg,
    receiver_decode ref.runtime ref.server ref.peer time.zero time.zero
      (lit "text" ++ [x0d; x0a; x00]) = Ok (m, lg)
    /\ messageBody ref.runtime (lit "text" ++ [x0d; x0a; x00]) = Ok body
    /\ Trimmed body msg
    /\ SplitAtFirst (stopRune (unicodeTables ref.runtime) ref.server) msg
         (Tag m) (Content m)
    /\ Content m = lit "text".
Proof.
  destruct (strict_split ref.runtime ref.server ref.peer time.zero time.zero
              (lit "text" ++ [x0d; x0a; x00]) ltac:(done))
    as (m & lg & body & msg & Hd & Hb & Ht & Hs).
  exists m, lg, body, msg. repeat (split; [assumption|]).
  rewrite trailing_bytes_text in Hd. injection Hd as <- _. reflexivity.
Defined.

(** C9 as it is written fails at the body [a], U+00BD, [b c]: the rune
    U+00BD (one half) is a number and no digit, so the tag does not end
    before it: it runs to the space. *)
Lemma number_rune_in_tag :
  exists m lg,
    receiver_decode ref.runtime ref.server ref.peer time.zero time.zero halfBody
    = Ok (m, lg)
    /\ messageBody ref.runtime halfBody = Ok halfBody
    /\ Trimmed halfBody halfBody
    /\ Tag m = lit "a" ++ [xc2; xbd] ++ lit "b" /\ Content m = lit " c"
    /\ strings.range halfBody = [(0, 97); (1, 0xBD); (3, 98); (4, 32); (5, 99)]
    /\ stopRuneDigit ref.tables ref.server 0xBD = true
    /\ ~ SplitAtFirst (stopRuneDigit ref.tables ref.server) halfBody (Tag m) (Content m).
Proof.
  eexists _, _. split; [vm_compute; reflexivity|]. split; [reflexivity|].
  split.
  { split; [exists []; split; [reflexivity|constructor]|].
    intros b Hb. vm_compute in Hb. injection Hb as <-. reflexivity. }
  split; [reflexivity|]. split; [reflexivity|]. split; [reflexivity|].
  split; [reflexivity|].
  intros [(before & n & r & after & Heq & Hall & Hr & Ht & _)|(Hall & _)].
  - change (strings.range halfBody)
      with [(0, 97); (1, 0xBD); (3, 98); (4, 32); (5, 99)] in Heq.
    destruct before as [|ir0 before].
    { injection Heq as <- <- _. vm_compute in Hr. discriminate Hr. }
    injection Heq as <- Heq.
    destruct before as [|ir1 before].
    { injection Heq as <- <- _. vm_compute in Ht. discriminate Ht. }
    injection Heq as <- Heq.
    inversion Hall as [|?? _ Hall']; subst. inversion Hall' as [|?? H1 _]; subst.
    vm_compute in H1. discriminate H1.
  - change (strings.range halfBody)
      with [(0, 97); (1, 0xBD); (3, 98); (4, 32); (5, 99)] in Hall.
    inversion Hall as [|?? _ Hall']; subst. inversion Hall' as [|?? H1 _]; subst.
    vm_compute in H1. discriminate H1.
Qed.

(** ** The handler chain (claims C7, C10) *)

Section Chain.

Context {W : Type}.
Implicit Types (hs : list (Handler W)) (w : W).

Lemma dispatch_Chained i hs (m : option Message) w : Chained i m (fst (dispatch i hs m w)).
Proof.
  revert i m w. induction hs as [|h hs IH]; intros i m w; simpl; [done|].
  destruct (Handle h m w) as [m' w'] eqn:Hh.
  destruct m' as [m'|]; simpl; [|done].
  specialize (IH (S i) (Some m') w').
  destruct (dispatch (S i) hs (Some m') w') as [evs w'']. simpl in *. done.
Qed.

Lemma dispatch_length i hs (m : option Message) w :
  (length (fst (dispatch i hs m w)) <= length hs)%nat.
Proof.
  revert i m w. induction hs as [|h hs IH]; intros i m w; simpl; [done|].
  destruct (Handle h m w) as [m' w'] eqn:Hh.
  destruct m' as [m'|]; simpl; [|lia].
  specialize (IH (S i) (Some m') w').
  destruct (dispatch (S i) hs (Some m') w') as [evs w'']. simpl in *. lia.
Qed.

(* A call that returned nil is the last call. *)
Lemma dispatch_nil_last i hs (m : option Message) w k j a :
  fst (dispatch i hs m w) !! k = Some (EHandle j a None) ->
  length (fst (dispatch i hs m w)) = S k.
Proof.
  revert i m w k. induction hs as [|h hs IH]; intros i m w k; simpl; [done|].
  destruct (Handle h m w) as [m' w'] eqn:Hh.
  destruct m' as [m'|]; simpl.
  - specialize (IH (S i) (Some m') w').
    destruct (dispatch (S i) hs (Some m') w') as [evs w'']. simpl in *.
    destruct k as [|k]; simpl; [done|]. intros H. f_equal. by apply IH.
  - destruct k as [|k]; simpl; [done|]. done.
Qed.

(* A call that returned a message is followed by a call of the next
   handler on that message, when there is a next handler. *)
Lemma dispatch_continues i hs (m : option Message) w k j a (m' : Message) :
  fst (dispatch i hs m w) !! k = Some (EHandle j a (Some m')) ->
  (S k < length hs)%nat ->
  exists ret, fst (dispatch i hs m w) !! S k = Some (EHandle (S j) (Some m') ret).
Proof.
  revert i m w k. induction hs as [|h hs IH]; intros i m w k; simpl; [done|].
  destruct (Handle h m w) as [m1 w1] eqn:Hh.
  destruct m1 as [m1|]; simpl.
  - pose proof (IH (S i) (Some m1) w1) as IH'.
    destruct (dispatch (S i) hs (Some m1) w1) as [evs w''] eqn:Hd. simpl in *.
    destruct k as [|k]; simpl.
    + intros [= <- <- <-] Hlen.
      destruct hs as [|h' hs']; [simpl in Hlen; lia|].
      simpl in Hd. destruct (Handle h' (Some m1) w1) as [m2 w2].
      destruct m2 as [m2|].
      * destruct (dispatch (S (S i)) hs' (Some m2) w2) as [evs' w3].
        injection Hd as <- _. by eexists.
      * injection Hd as <- _. by eexists.
    + intros H Hlen. apply IH'; [done|lia].
  - destruct k as [|k]; simpl; [done|]. done.
Qed.

(* Every call recorded is a call of the handler at that place of the
   chain, and records what the handler returned. *)
Lemma dispatch_faithful i hs (m : option Message) w k j a ret :
  fst (dispatch i hs m w) !! k = Some (EHandle j a ret) ->
  j = (i + k)%nat /\ exists h wk, hs !! k = Some h /\ fst (Handle h a wk) = ret.
Proof.
  revert i m w k. induction hs as [|h hs IH]; intros i m w k; simpl; [done|].
  destruct (Handle h m w) as [m1 w1] eqn:Hh.
  destruct m1 as [m1|]; simpl.
  - pose proof (IH (S i) (Some m1) w1) as IH'.
    destruct (dispatch (S i) hs (Some m1) w1) as [evs w'']. simpl in *.
    destruct k as [|k]; simpl.
    + intros [= <- <- <-]. split; [lia|]. exists h, w. by rewrite Hh.
    + intros H. apply IH' in H as [-> H]. split; [lia|done].
  - destruct k as [|k]; simpl; [|done].
    intros [= <- <- <-]. split; [lia|]. exists h, w. by rewrite Hh.
Qed.

(* What follows a handler that returns nil does not matter. *)
Lemma dispatch_stops i h hs (m : option Message) w w' :
  Handle h m w = (None, w') ->
  dispatch i (h :: hs) m w = ([EHandle i m None], w').
Proof. intros H. simpl. by rewrite H. Qed.

(* The first handler is called on the message given. *)
Lemma dispatch_head i h hs (m : option Message) w :
  fst (dispatch i (h :: hs) m w) !! 0%nat = Some (EHandle i m (fst (Handle h m w))).
Proof.
  simpl. destruct (Handle h m w) as [m' w'].
  destruct m' as [m'|]; [|done].
  by destruct (dispatch (S i) hs (Some m') w').
Qed.

(* When no call returns nil, every handler is called. *)
Lemma dispatch_all_called i hs (m : option Message) w :
  (forall k j a, fst (dispatch i hs m w) !! k <> Some (EHandle j a None)) ->
  length (fst (dispatch i hs m w)) = length hs.
Proof.
  revert i m w. induction hs as [|h hs IH]; intros i m w; simpl; [done|].
  destruct (Handle h m w) as [m' w'].
  destruct m' as [m'|]; simpl.
  - specialize (IH (S i) (Some m') w').
    destruct (dispatch (S i) hs (Some m') w') as [evs w'']. simpl in *.
    intros Hno. f_equal. apply IH. intros k j a. apply (Hno (S k) j a).
  - intros Hno. by destruct (Hno 0%nat i m).
Qed.

(* The dispatch is the run of the chain. *)
Lemma dispatch_ChainRun i hs (m : option Message) w :
  ChainRun i hs m w (fst (dispatch i hs m w)) (snd (dispatch i hs m w)).
Proof.
  revert i m w. induction hs as [|h hs IH]; intros i m w; simpl; [constructor|].
  destruct (Handle h m w) as [m' w'] eqn:Hh.
  destruct m' as [m'|]; simpl.
  - specialize (IH (S i) (Some m') w').
    destruct (dispatch (S i) hs (Some m') w') as [evs w'']. simpl in *.
    by eapply RunNext.
  - by apply RunNil.
Qed.

End Chain.

(** C7: the events of [passToHandlers] are calls of the handlers in the
    order of the chain, the first on the message given and each other one
    on what the call before it returned; each is a call of the handler at
    its place and records what that handler returned; a call that returned
    nil is the last one: no handler after it is called.  The calls are
    made: the first handler is called on the message given; after a call
    that returned a message the next handler, when there is one, is called
    on that message; so when no call returns nil every handler is called.
    Events and final state are those of the run of the chain as the claim
    words it. *)
Theorem passToHandlers_short_circuit {W} (s : Server W) (m : option Message) (w : W) :
  let evs := fst (passToHandlers s m w) in
  Chained 0 m evs
  /\ (forall k j a ret, evs !! k = Some (EHandle j a ret) ->
        j = k /\ exists h wk, handlers s !! k = Some h /\ fst (Handle h a wk) = ret)
  /\ (forall k j a, evs !! k = Some (EHandle j a None) -> length evs = S k)
  /\ (forall h hs w', handlers s = h :: hs -> Handle h m w = (None, w') ->
        passToHandlers s m w = ([EHandle 0 m None], w'))
  /\ (forall h hs, handlers s = h :: hs ->
        evs !! 0%nat = Some (EHandle 0 m (fst (Handle h m w))))
  /\ (forall k j a m', evs !! k = Some (EHandle j a (Some m')) ->
        (S k < length (handlers s))%nat ->
        exists ret, evs !! S k = Some (EHandle (S k) (Some m') ret))
  /\ ((forall k j a, evs !! k <> Some (EHandle j a None)) ->
        length evs = length (handlers s))
  /\ ChainRun 0 (handlers s) m w evs (snd (passToHandlers s m w)).
Proof.
  unfold passToHandlers. cbv zeta. split; [apply dispatch_Chained|].
  split; [|split; [|split; [|split; [|split; [|split]]]]].
  - intros k j a ret H. by apply dispatch_faithful in H as [-> H].
  - intros k j a H. by apply dispatch_nil_last in H.
  - intros h hs w' -> H. by apply dispatch_stops.
  - intros h hs ->. apply dispatch_head.
  - intros k j a m' H Hlen.
    destruct (dispatch_faithful _ _ _ _ _ _ _ _ H) as [-> _].
    by apply dispatch_continues in H.
  - apply dispatch_all_called.
  - apply dispatch_ChainRun.
Qed.

Lemma passToHandlers_short_circuit_witness :
  passToHandlers demo.stopper (Some demo.blank) 0%nat
  = ([EHandle 0 (Some demo.blank) None], 0%nat)
  /\ fst (passToHandlers demo.chain (Some demo.blank) 0%nat) !! 0%nat
     = Some (EHandle 0 (Some demo.blank) (Some demo.blank))
  /\ exists ret,
       fst (passToHandlers demo.chain (Some demo.blank) 0%nat) !! 1%nat
       = Some (EHandle 1 (Some demo.blank) ret).
Proof.
  destruct (passToHandlers_short_circuit demo.stopper (Some demo.blank) 0%nat)
    as (_ & _ & _ & Hstop & _).
  destruct (passToHandlers_short_circuit demo.chain (Some demo.blank) 0%nat)
    as (_ & _ & _ & _ & Hfirst & Hnext & _).
  split; [apply (Hstop demo.flush [demo.revive; demo.revive]); reflexivity|].
  pose proof (Hfirst demo.revive [demo.flush; demo.flush] eq_refl) as H0.
  split; [exact H0|].
  apply (Hnext 0%nat 0%nat (Some demo.blank) demo.blank); [exact H0|simpl; lia].
Defined.



(** ** Shutdown (claim C8) *)

Lemma closeConns_returns {W} (lg : FatalLogger W) (i : nat) (cs : list (Listener W))
    (w : W) :
  SinkReturns lg \/ NoCloseFails cs ->
  exists evs w1,
    closeConns lg i cs w = (evs, Some w1)
    /\ closedIndices evs = seq i (length cs)
    /\ FatalAfterFailure evs
    /\ NoHandle evs.
Proof.
  revert i w. induction cs as [|c cs IH]; intros i w Hok.
  { exists [], w. repeat split; intros k; intros; by rewrite lookup_nil in *. }
  assert (Hok' : SinkReturns lg \/ NoCloseFails cs).
  { destruct Hok as [H|H]; [by left|right].
    intros c' w' Hin. apply H. by right. }
  cbn [closeConns]. destruct (Close c w) as [err w1] eqn:Hc.
  destruct err as [e|].
  - assert (Hs : SinkReturns lg).
    { destruct Hok as [H|H]; [done|].
      specialize (H c w ltac:(left)). rewrite Hc in H. done. }
    destruct (Hs [e] w1) as [w2 Hf]. rewrite Hf.
    destruct (IH (S i) w2 Hok') as (evs & w3 & -> & Hidx & Hfat & Hno).
    exists (EClose i (Some e) :: EFatal [e] :: evs), w3.
    split; [done|]. split; [|split].
    + unfold closedIndices in *. cbn. by rewrite Hidx.
    + intros [|[|k]] j e'; cbn.
      * by intros [= <- <-].
      * done.
      * apply Hfat.
    + intros [|[|k]] j a r; cbn; [done..|apply Hno].
  - destruct (IH (S i) w1 Hok') as (evs & w3 & -> & Hidx & Hfat & Hno).
    exists (EClose i None :: evs), w3.
    split; [done|]. split; [|split].
    + unfold closedIndices in *. cbn. by rewrite Hidx.
    + intros [|k] j e'; cbn; [done|apply Hfat].
    + intros [|k] j a r; cbn; [done|apply Hno].
Qed.

(** C8, as amended: when the fatal logger returns to its caller, or no
    [Close] fails, [Shutdown] closes every listener in the order of the
    list, reports each failed close to the fatal logger at once, calls no
    handler meanwhile, then passes nil to the handler chain, and returns a
    server that is marked shut down and has no listener and no handler. *)
Theorem Shutdown_effects {W} (s : Server W) (w : W) :
  SinkReturns (l s) \/ NoCloseFails (conns s) ->
  exists evs1 w1 evs2 w2 s',
    closeConns (l s) 0 (conns s) w = (evs1, Some w1)
    /\ closedIndices evs1 = seq 0 (length (conns s))
    /\ FatalAfterFailure evs1
    /\ NoHandle evs1
    /\ passToHandlers s None w1 = (evs2, w2)
    /\ Shutdown s w = (evs1 ++ evs2, Some (s', w2))
    /\ shutdown s' = true /\ conns s' = [] /\ handlers s' = []
    /\ tagrunes s' = tagrunes s /\ l s' = l s.
Proof.
  intros Hok.
  destruct (closeConns_returns (l s) 0 (conns s) w Hok)
    as (evs1 & w1 & Hc & Hidx & Hfat & Hno).
  destruct (passToHandlers s None w1) as [evs2 w2] eqn:Hp.
  eexists evs1, w1, evs2, w2, _.
  split; [done|]. split; [done|]. split; [done|]. split; [done|]. split; [done|].
  split.
  - unfold Shutdown. cbn [l conns]. rewrite Hc.
    unfold passToHandlers in *. cbn [handlers]. rewrite Hp. reflexivity.
  - done.
Qed.

Lemma Shutdown_effects_witness :
  exists evs1 w1 evs2 w2 s',
    closeConns (l demo.patient) 0 (conns demo.patient) 0%nat = (evs1, Some w1)
    /\ closedIndices evs1 = seq 0 (length (conns demo.patient))
    /\ FatalAfterFailure evs1
    /\ NoHandle evs1
    /\ passToHandlers demo.patient None w1 = (evs2, w2)
    /\ Shutdown demo.patient 0%nat = (evs1 ++ evs2, Some (s', w2))
    /\ shutdown s' = true /\ conns s' = [] /\ handlers s' = []
    /\ tagrunes s' = tagrunes demo.patient /\ l s' = l demo.patient.
Proof.
  apply (Shutdown_effects demo.patient 0%nat).
  left. intros v w. by eexists.
Defined.

(** C8 as it is written fails with the standard logger when a [Close]
    fails: [Fatalln] ends the process, the second listener is not closed,
    the handlers get no nil and [Shutdown] does not return. *)
Lemma Shutdown_halts_on_close_error :
  Shutdown demo.broken 0%nat
  = ([EClose 0 (Some (lit "use of closed network connection"));
      EFatal [lit "use of closed network connection"]], None)
  /\ closedIndices (fst (Shutdown demo.broken 0%nat)) = [0%nat]
  /\ length (conns demo.broken) = 2%nat
  /\ length (handlers demo.broken) = 1%nat.
Proof. repeat split. Qed.

(** * Further properties

    Properties of the code that the claims above do not state. *)

(** ** The decoder, further *)

(* A token denotes at most 999. *)
Lemma PriToken_upper tok p : PriToken tok p -> p <= 999.
Proof.
  assert (Hd : forall b, isDigitByte b = true -> 48 <= bz b <= 57).
  { intros b H. unfold isDigitByte in H. apply andb_prop in H as [H1 H2]. zlia. }
  assert (Hv : forall ds, (length ds <= 3)%nat ->
             Forall (fun b => isDigitByte b = true) ds -> digitsValue ds <= 999).
  { intros ds Hl Hall. unfold digitsValue.
    destruct ds as [|a [|b [|c [|? ?]]]]; cbn [foldl]; [lia| | | |simpl in Hl; lia].
    - inversion Hall as [|?? Ha _]; subst. apply Hd in Ha. lia.
    - inversion Hall as [|?? Ha Hall1]; subst. inversion Hall1 as [|?? Hb _]; subst.
      apply Hd in Ha, Hb. lia.
    - inversion Hall as [|?? Ha Hall1]; subst. inversion Hall1 as [|?? Hb Hall2]; subst.
      inversion Hall2 as [|?? Hc _]; subst. apply Hd in Ha, Hb, Hc. lia. }
  intros [ds Hl Hall|ds Hl Hall|ds Hl Hall]; [apply Hv; [lia|done]..|lia].
Qed.

(* The priority that was parsed is from 0 to 999. *)
Lemma parsePriority_range pkt prio hp rest :
  parsePriority pkt = Ok (prio, hp, rest) -> 0 <= prio <= 999.
Proof.
  intros H. destruct pkt as [|b pkt]; [done|].
  destruct (parsePriority_cases (b :: pkt) ltac:(done))
    as [(p & rest' & (tok & _ & Ht) & Hp)|[_ Hp]];
    rewrite Hp in H; injection H as <- <- <-; [|lia].
  split; [by apply PriToken_nonneg in Ht|by apply PriToken_upper in Ht].
Qed.

(** X1: severity and facility together hold the priority, and the facility
    is at most 124.  For every packet of at least one byte, the message has
    [8 * Facility + Severity] equal to the priority that was read from the
    packet (13 when there is none), and a facility from 0 to 124. *)
Theorem facility_range {W} (rt : Runtime) (s : Server W) (remote : option Addr)
    (now ts : time.Time) (pkt : list byte) :
  pkt <> [] ->
  exists m lg prio hasPrio rest,
    parsePriority pkt = Ok (prio, hasPrio, rest)
    /\ receiver_decode rt s remote now ts pkt = Ok (m, lg)
    /\ 8 * Facility m + Severity m = prio
    /\ 0 <= Facility m <= 124.
Proof.
  intros Hne.
  destruct (receiver_decode_total rt s remote now ts pkt Hne)
    as (prio & hp & rest & stamp & host & body & lg & tag & content & tag1 & content1
        & Hpri & _ & _ & Hd & _).
  eexists _, _, prio, hp, rest. split; [done|]. split; [exact Hd|].
  cbn [assemble Severity Facility].
  pose proof (parsePriority_range _ _ _ _ Hpri) as Hr.
  rewrite Zland_7, Z.shiftr_div_pow2 by lia. change (2 ^ 3) with 8.
  split; Z.div_mod_to_equations; lia.
Qed.

Lemma facility_range_witness :
  exists m lg prio hasPrio rest,
    parsePriority (lit "<999>x") = Ok (prio, hasPrio, rest)
    /\ receiver_decode ref.runtime ref.server ref.peer time.zero time.zero (lit "<999>x")
       = Ok (m, lg)
    /\ 8 * Facility m + Severity m = prio
    /\ 0 <= Facility m <= 124.
Proof. apply (facility_range ref.runtime ref.server). done. Defined.

(** X2: a packet of at least one byte without a priority prefix that the
    decoder recognizes is not searched for a header.  The prefixes that it
    recognizes are [<tok>] for a token of one to three bytes that denotes a
    non-negative integer: digits, digits after a plus sign, or zeros after a
    minus sign.  Whatever else such a packet holds, the message has the
    default priority, no hostname and no timestamp, its tag and content
    fields are taken from the whole packet, and the whole packet is
    reported as not parsed. *)
Theorem no_priority_no_header {W} (rt : Runtime) (s : Server W) (remote : option Addr)
    (now ts : time.Time) (pkt : list byte) :
  pkt <> [] -> (forall p rest, ~ HasPriority pkt p rest) ->
  exists tag content tag1 content1,
    parseMsg rt s pkt = Ok (tag, content, tag1, content1)
    /\ receiver_decode rt s remote now ts pkt
       = Ok ({| Source := remote; Time := now; Facility := 1; Severity := 5;
                Timestamp := time.zero; Hostname := [];
                Tag := tag; Content := content;
                Tag1 := tag1; Content1 := content1 |}, Some pkt).
Proof.
  intros Hne Hno.
  destruct (parseMsg_spec rt s pkt) as (tag & content & tag1 & content1 & Hm & _).
  exists tag, content, tag1, content1. split; [done|].
  destruct (receiver_decode_stages rt s remote now ts _ _ _ _ _ _ _ _ _ _ _ _ _
              (parsePriority_default pkt Hne Hno) (parseHeader_noprio rt pkt)
              (parseHostname_none ts pkt) Hm) as [Hd _].
  exact Hd.
Qed.

Lemma no_priority_no_header_witness :
  exists tag content tag1 content1,
    parseMsg ref.runtime ref.server (lit "Jan  2 15:04:05 myhost su: failed")
    = Ok (tag, content, tag1, content1)
    /\ receiver_decode ref.runtime ref.server ref.peer time.zero time.zero
         (lit "Jan  2 15:04:05 myhost su: failed")
       = Ok ({| Source := ref.peer; Time := time.zero; Facility := 1; Severity := 5;
                Timestamp := time.zero; Hostname := [];
                Tag := tag; Content := content;
                Tag1 := tag1; Content1 := content1 |},
             Some (lit "Jan  2 15:04:05 myhost su: failed")).
Proof.
  apply (no_priority_no_header ref.runtime ref.server); [done|].
  intros p rest (tok & Heq & _). discriminate Heq.
Defined.

(* The header test of [receiver] looks at the date that was parsed only to
   see that there is one and that it is not the zero time. *)
Lemma parseHeader_parses rt hasPrio pkt :
  parseHeader rt hasPrio pkt =
  do probe5424 <-
    (if hasPrio && (26 <=? len pkt) then
       do b25 <- index pkt 25;
       if Byte.eqb b25 " " then
         do b15 <- index pkt 15; Ok (negb (Byte.eqb b15 " "))
       else Ok false
     else Ok false);
  if probe5424 then
    do value <- slice_to pkt 25;
    if parses rt time.RFC3339 value then Ok 26 else Ok 0
  else
    do probe3164 <-
      (if hasPrio && (16 <=? len pkt) then
         do b15 <- index pkt 15; Ok (Byte.eqb b15 " ")
       else Ok false);
    if probe3164 then
      do value <- slice_to pkt 15;
      if parses rt stampLayout value then Ok 16 else Ok 0
    else Ok 0.
Proof.
  unfold parseHeader, parses.
  destruct (if hasPrio && (26 <=? len pkt) then _ else _) as [[|]|]; cbn [bind]; [| |done].
  - destruct (slice_to pkt 25) as [v|]; cbn [bind]; [|done].
    by destruct (time_Parse rt time.RFC3339 v).
  - destruct (if hasPrio && (16 <=? len pkt) then _ else _) as [[|]|]; cbn [bind]; [|done..].
    destruct (slice_to pkt 15) as [v|]; cbn [bind]; [|done].
    by destruct (time_Parse rt stampLayout v).
Qed.

(** X3: the date and time that the header of a packet parses to does not
    reach the message.  Two runtimes with the same Unicode tables whose
    [time.Parse] accept the same values (and give the zero time for the
    same values) decode every packet to the same message, whatever dates
    the two parsers return. *)
Theorem parsed_time_unused {W} (rt1 rt2 : Runtime) (s : Server W) (remote : option Addr)
    (now ts : time.Time) (pkt : list byte) :
  SameAcceptance rt1 rt2 ->
  receiver_decode rt1 s remote now ts pkt = receiver_decode rt2 s remote now ts pkt.
Proof.
  intros [Htab Hacc]. unfold receiver_decode.
  destruct (parsePriority pkt) as [[[prio hp] rest]|]; cbn [bind]; [|done].
  assert (Hh : parseHeader rt1 hp rest = parseHeader rt2 hp rest).
  { rewrite !parseHeader_parses.
    destruct (if hp && (26 <=? len rest) then _ else _) as [[|]|]; cbn [bind]; [| |done].
    - destruct (slice_to rest 25) as [v|]; cbn [bind]; [|done]. by rewrite Hacc.
    - destruct (if hp && (16 <=? len rest) then _ else _) as [[|]|]; cbn [bind]; [|done..].
      destruct (slice_to rest 15) as [v|]; cbn [bind]; [|done]. by rewrite Hacc. }
  rewrite Hh. destruct (parseHeader rt2 hp rest) as [off|]; cbn [bind]; [|done].
  destruct (parseHostname ts off rest) as [[[[stamp host] body] lg]|]; cbn [bind]; [|done].
  unfold parseMsg. by rewrite Htab.
Qed.

Lemma parsed_time_unused_witness :
  time_Parse ref.runtime stampLayout (lit "Jan  2 15:04:05")
  <> time_Parse sample.fixed stampLayout (lit "Jan  2 15:04:05")
  /\ receiver_decode ref.runtime ref.server ref.peer time.zero time.zero
       (lit "<13>Jan  2 15:04:05 myhost su: failed")
     = receiver_decode sample.fixed ref.server ref.peer time.zero time.zero
         (lit "<13>Jan  2 15:04:05 myhost su: failed").
Proof.
  split; [vm_compute; discriminate|].
  apply (parsed_time_unused ref.runtime sample.fixed ref.server).
  split; [reflexivity|]. intros layout value.
  unfold parses. cbn [time_Parse ref.runtime sample.fixed]. unfold sample.fixedParse.
  destruct (ref.Parse layout value) as [t|]; [|reflexivity].
  destruct (time.IsZero t) eqn:E; [by rewrite E|reflexivity].
Defined.

(** ** Header and hostname *)

(* A byte that is not in a string that is written out. *)
Ltac absent := rewrite list_elem_of_In; vm_compute; intuition discriminate.

(* A packet after its priority: a stamp, a space, a hostname without a
   space, a space, the body, where the header test finds the header of the
   length of the stamp. *)
Lemma stamped_decode {W} (rt : Runtime) (s : Server W) (remote : option Addr)
    (now ts : time.Time) (tok : list byte) (p : Z) (stamp host body : list byte) :
  PriToken tok p -> (" "%byte ∉ host) ->
  detectHeader rt (stamp ++ " "%byte :: host ++ " "%byte :: body) = len stamp + 1 ->
  exists tag content tag1 content1,
    parseMsg rt s body = Ok (tag, content, tag1, content1)
    /\ receiver_decode rt s remote now ts
         ("<"%byte :: tok ++ ">"%byte :: stamp ++ " "%byte :: host ++ " "%byte :: body)
       = Ok ({| Source := remote; Time := now;
                Facility := Z.shiftr p 3; Severity := Z.land p 7;
                Timestamp := ts; Hostname := host;
                Tag := tag; Content := content;
                Tag1 := tag1; Content1 := content1 |}, None).
Proof.
  intros Ht Hsp Hdet.
  set (rest := stamp ++ " "%byte :: host ++ " "%byte :: body) in *.
  destruct (parseMsg_spec rt s body) as (tag & content & tag1 & content1 & Hm & _).
  exists tag, content, tag1, content1. split; [done|].
  pose proof (parsePriority_recognized tok p rest Ht) as Hp.
  assert (Hl : len rest = len stamp + 2 + len host + len body).
  { unfold rest. rewrite len_app, len_cons, len_app, len_cons. lia. }
  pose proof (len_nonneg host). pose proof (len_nonneg body). pose proof (len_nonneg stamp).
  pose proof (parseHeader_detect rt rest) as Hh. rewrite Hdet in Hh.
  assert (Hdrop : drop (Z.to_nat (len stamp + 1)) rest = host ++ " "%byte :: body).
  { unfold rest. replace (Z.to_nat (len stamp + 1)) with (length stamp + 1)%nat
      by (unfold len; lia).
    rewrite drop_app_add'; [|done]. done. }
  destruct (parseHostname_header ts (len stamp + 1) rest ltac:(lia))
    as [(host' & body' & Heq & Hsp' & Hn)|[Hnone _]].
  2:{ exfalso. apply Hnone. rewrite Hdrop. apply elem_of_app. right. left. }
  rewrite Hdrop in Heq.
  assert (host' = host /\ body' = body) as [-> ->].
  { pose proof (IndexByte_app host " "%byte body Hsp) as Hi1.
    pose proof (IndexByte_app host' " "%byte body' Hsp') as Hi2.
    rewrite Heq, Hi2 in Hi1.
    assert (Hll : length host = length host') by (unfold len in Hi1; lia).
    apply app_inj_1 in Heq as [-> Heq]; [|done]. by injection Heq as ->. }
  destruct (receiver_decode_stages rt s remote now ts _ _ _ _ _ _ _ _ _ _ _ _ _
              Hp Hh Hn Hm) as [Hd Hb].
  done.
Qed.

Lemma byteAt_stamp_end stamp tl : byteAt (stamp ++ " "%byte :: tl) (length stamp) " " = true.
Proof. unfold byteAt. rewrite lookup_app_r by lia. by rewrite Nat.sub_diag. Qed.

(** X4: a packet that is written as the decoder expects is decoded to its
    parts.  For a priority token, a stamp, a hostname without a space and
    a body, where the stamp has 25 bytes, no space at offset 15, and parses
    under RFC3339 to a time that is not the zero time, or has 15 bytes and
    parses under [Jan _2 15:04:05] to a time that is not the zero time, the
    packet [<tok>stamp host body] is decoded to the hostname [host] and to
    the tag and content fields of [body]; nothing is reported as not
    parsed; and the timestamp is [ts], the clock reading of line 141. *)
Theorem stamped_packet_decoded {W} (rt : Runtime) (s : Server W) (remote : option Addr)
    (now ts : time.Time) (tok : list byte) (p : Z) (stamp host body : list byte) :
  PriToken tok p -> (" "%byte ∉ host) ->
  (length stamp = 25%nat /\ byteAt stamp 15 " " = false
   /\ parses rt time.RFC3339 stamp = true)
  \/ (length stamp = 15%nat /\ parses rt stampLayout stamp = true) ->
  exists tag content tag1 content1,
    parseMsg rt s body = Ok (tag, content, tag1, content1)
    /\ receiver_decode rt s remote now ts
         ("<"%byte :: tok ++ ">"%byte :: stamp ++ " "%byte :: host ++ " "%byte :: body)
       = Ok ({| Source := remote; Time := now;
                Facility := Z.shiftr p 3; Severity := Z.land p 7;
                Timestamp := ts; Hostname := host;
                Tag := tag; Content := content;
                Tag1 := tag1; Content1 := content1 |}, None).
Proof.
  intros Ht Hsp Hlay. apply stamped_decode; [done..|].
  set (tl := host ++ " "%byte :: body).
  pose proof (byteAt_stamp_end stamp tl) as Hend.
  assert (Hl : len (stamp ++ " "%byte :: tl) = len stamp + 1 + len tl).
  { rewrite len_app, len_cons. lia. }
  pose proof (len_nonneg tl) as Htl.
  assert (Htake : take (length stamp) (stamp ++ " "%byte :: tl) = stamp)
    by apply take_app_length.
  unfold detectHeader, layoutA, layoutB.
  destruct Hlay as [(Hlen & H15 & Hparse)|(Hlen & Hparse)].
  - rewrite Hlen in Hend, Htake. rewrite Hend, Htake, Hparse.
    assert (H15' : byteAt (stamp ++ " "%byte :: tl) 15 " " = false).
    { unfold byteAt in *. rewrite lookup_app_l; [done|]. rewrite Hlen. lia. }
    rewrite H15'. cbn [negb andb].
    destruct (26 <=? len (stamp ++ " "%byte :: tl)) eqn:E; [|unfold len in *; zlia].
    cbn [andb]. unfold len. lia.
  - rewrite Hlen in Hend, Htake. rewrite Hend, Htake, Hparse.
    cbn [negb]. rewrite andb_false_r. cbn [andb].
    destruct (16 <=? len (stamp ++ " "%byte :: tl)) eqn:E; [|unfold len in *; zlia].
    cbn [andb]. unfold len. lia.
Qed.

Lemma stamped_packet_decoded_witness :
  exists tag content tag1 content1,
    parseMsg ref.runtime ref.server (lit "su: failed") = Ok (tag, content, tag1, content1)
    /\ receiver_decode ref.runtime ref.server ref.peer time.zero time.zero
         ("<"%byte :: lit "34" ++ ">"%byte :: lit "2006-01-02T15:04:05+07:00"
            ++ " "%byte :: lit "myhost" ++ " "%byte :: lit "su: failed")
       = Ok ({| Source := ref.peer; Time := time.zero;
                Facility := Z.shiftr 34 3; Severity := Z.land 34 7;
                Timestamp := time.zero; Hostname := lit "myhost";
                Tag := tag; Content := content;
                Tag1 := tag1; Content1 := content1 |}, None).
Proof.
  apply (stamped_packet_decoded ref.runtime ref.server ref.peer time.zero time.zero
           (lit "34") 34 (lit "2006-01-02T15:04:05+07:00") (lit "myhost") (lit "su: failed")).
  - apply (PriDigits (lit "34")); [simpl; lia|]. repeat constructor.
  - absent.
  - left. split; [reflexivity|]. split; vm_compute; reflexivity.
Defined.

(** X5: a header without a space after it gives no hostname.  When a
    packet with a priority has a header (a stamp that the header test
    accepts) and no space anywhere after the header, the message has no
    hostname and no timestamp, its tag and content fields are taken from
    the whole packet after the priority, the stamp included, and nothing is
    reported as not parsed. *)
Theorem header_without_hostname {W} (rt : Runtime) (s : Server W) (remote : option Addr)
    (now ts : time.Time) (pkt : list byte) (p : Z) (rest : list byte) :
  HasPriority pkt p rest ->
  detectHeader rt rest <> 0 ->
  (" "%byte ∉ drop (Z.to_nat (detectHeader rt rest)) rest) ->
  exists tag content tag1 content1,
    parseMsg rt s rest = Ok (tag, content, tag1, content1)
    /\ receiver_decode rt s remote now ts pkt
       = Ok ({| Source := remote; Time := now;
                Facility := Z.shiftr p 3; Severity := Z.land p 7;
                Timestamp := time.zero; Hostname := [];
                Tag := tag; Content := content;
                Tag1 := tag1; Content1 := content1 |}, None).
Proof.
  intros (tok & -> & Ht) Hdet Hnosp.
  destruct (parseMsg_spec rt s rest) as (tag & content & tag1 & content1 & Hm & _).
  exists tag, content, tag1, content1. split; [done|].
  pose proof (parsePriority_recognized tok p rest Ht) as Hp.
  pose proof (parseHeader_detect rt rest) as Hh.
  assert (Hoff : 0 < detectHeader rt rest <= len rest).
  { destruct (detectHeader_range rt rest) as [?|[[?|?] ?]]; lia. }
  destruct (parseHostname_header ts _ rest Hoff)
    as [(host & body & Heq & _ & _)|[_ Hn]].
  { exfalso. apply Hnosp. rewrite Heq. apply elem_of_app. right. left. }
  destruct (receiver_decode_stages rt s remote now ts _ _ _ _ _ _ _ _ _ _ _ _ _
              Hp Hh Hn Hm) as [Hd _].
  exact Hd.
Qed.

Lemma header_without_hostname_witness :
  exists tag content tag1 content1,
    parseMsg ref.runtime ref.server (lit "Jan  2 15:04:05 rebooted")
    = Ok (tag, content, tag1, content1)
    /\ receiver_decode ref.runtime ref.server ref.peer time.zero time.zero
         (lit "<13>Jan  2 15:04:05 rebooted")
       = Ok ({| Source := ref.peer; Time := time.zero;
                Facility := Z.shiftr 13 3; Severity := Z.land 13 7;
                Timestamp := time.zero; Hostname := [];
                Tag := tag; Content := content;
                Tag1 := tag1; Content1 := content1 |}, None).
Proof.
  apply (header_without_hostname ref.runtime ref.server ref.peer time.zero time.zero
           (lit "<13>Jan  2 15:04:05 rebooted") 13 (lit "Jan  2 15:04:05 rebooted")).
  - exists (lit "13"). split; [reflexivity|].
    apply (PriDigits (lit "13")); [simpl; lia|]. repeat constructor.
  - vm_compute. discriminate.
  - absent.
Defined.

(** ** Trailing NUL, CR and LF bytes *)

Section Junk.

Variable junk : list byte.
Hypothesis Hjunk : Forall (fun b => isNulCrLfByte b = true) junk.

Lemma junk_elem b : b ∈ junk -> isNulCrLfByte b = true.
Proof. intros H. rewrite Forall_forall in Hjunk. by apply Hjunk. Qed.

Lemma junk_not_space : " "%byte ∉ junk.
Proof. intros H. apply junk_elem in H. discriminate H. Qed.

(* The bytes of a priority prefix are not NUL, CR or LF. *)
Lemma PriToken_bytes tok p b : PriToken tok p -> b ∈ tok -> isNulCrLfByte b = false.
Proof.
  assert (Hd : forall ds, Forall (fun b => isDigitByte b = true) ds ->
                          b ∈ ds -> isNulCrLfByte b = false).
  { intros ds Hall Hin. rewrite Forall_forall in Hall. specialize (Hall b Hin).
    unfold isDigitByte in Hall. apply andb_prop in Hall as [H1 H2].
    unfold isNulCrLfByte.
    destruct (bz b =? 0) eqn:?, (bz b =? 13) eqn:?, (bz b =? 10) eqn:?; zlia || done. }
  intros [ds Hl Hall|ds Hl Hall|ds Hl Hall] Hin.
  - by apply (Hd ds).
  - apply elem_of_cons in Hin as [->|Hin]; [done|]. by apply (Hd ds).
  - apply elem_of_cons in Hin as [->|Hin]; [done|].
    rewrite Forall_forall in Hall. by rewrite (Hall b Hin).
Qed.

Lemma HasPriority_junk pkt p rest :
  HasPriority (pkt ++ junk) p rest -> exists rest', HasPriority pkt p rest'.
Proof.
  intros (tok & Heq & Ht).
  replace ("<"%byte :: tok ++ ">"%byte :: rest)
    with (("<"%byte :: tok ++ [">"%byte]) ++ rest) in Heq
    by (cbn; by rewrite <- app_assoc).
  apply app_eq_inv in Heq as [(k & -> & _)|(k & Hpre & Hj)].
  - exists k, tok. split; [|done]. cbn. by rewrite <- app_assoc.
  - destruct k as [|b k].
    + rewrite app_nil_r in Hpre. subst pkt. exists [], tok. done.
    + exfalso.
      assert (Hbj : isNulCrLfByte b = true).
      { apply junk_elem. rewrite Hj. left. }
      assert (Hin : b ∈ "<"%byte :: tok ++ [">"%byte]).
      { rewrite Hpre. apply elem_of_app. right. left. }
      apply elem_of_cons in Hin as [->|Hin]; [done|].
      apply elem_of_app in Hin as [Hin|Hin].
      * by rewrite (PriToken_bytes _ _ _ Ht Hin) in Hbj.
      * apply list_elem_of_singleton in Hin as ->. done.
Qed.

Lemma parsePriority_junk pkt :
  pkt <> [] ->
  exists prio hasPrio rest,
    parsePriority pkt = Ok (prio, hasPrio, rest)
    /\ parsePriority (pkt ++ junk) = Ok (prio, hasPrio, rest ++ junk).
Proof.
  intros Hne.
  destruct (parsePriority_cases pkt Hne) as [(p & rest & (tok & -> & Ht) & Hp)|[Hno Hp]].
  - exists p, true, rest. split; [done|].
    replace (("<"%byte :: tok ++ ">"%byte :: rest) ++ junk)
      with ("<"%byte :: tok ++ ">"%byte :: (rest ++ junk))
      by (cbn; by rewrite <- app_assoc).
    by apply parsePriority_recognized.
  - exists 13, false, pkt. split; [done|].
    apply parsePriority_default; [by destruct pkt|].
    intros p rest Hh. apply HasPriority_junk in Hh as [rest' Hh]. by apply (Hno p rest').
Qed.

Lemma byteAt_junk rest i : byteAt (rest ++ junk) i " " = byteAt rest i " ".
Proof.
  unfold byteAt. destruct (decide (i < length rest)%nat) as [Hlt|Hge].
  - by rewrite lookup_app_l.
  - rewrite lookup_app_r, (lookup_ge_None_2 rest i) by lia.
    destruct (junk !! (i - length rest)%nat) as [b|] eqn:E; [|done].
    apply list_elem_of_lookup_2, junk_elem in E.
    apply byte_eqb_neq. by intros ->.
Qed.

Lemma byteAt_length pkt i c : byteAt pkt i c = true -> (i < length pkt)%nat.
Proof.
  unfold byteAt. destruct (pkt !! i) eqn:E; [|done].
  intros _. by apply lookup_lt_Some in E.
Qed.

Lemma detectHeader_junk rt rest : detectHeader rt (rest ++ junk) = detectHeader rt rest.
Proof.
  assert (HA : layoutA rt (rest ++ junk) = layoutA rt rest).
  { unfold layoutA. rewrite !byteAt_junk.
    destruct (byteAt rest 25 " ") eqn:E.
    - apply byteAt_length in E. rewrite take_app_le by lia.
      rewrite len_app. pose proof (len_nonneg junk).
      destruct (26 <=? len rest + len junk) eqn:E1, (26 <=? len rest) eqn:E2;
        unfold len in *; zlia || done.
    - by rewrite !andb_false_r. }
  assert (HB : layoutB rt (rest ++ junk) = layoutB rt rest).
  { unfold layoutB. rewrite !byteAt_junk.
    destruct (byteAt rest 15 " ") eqn:E.
    - apply byteAt_length in E. rewrite take_app_le by lia.
      rewrite len_app. pose proof (len_nonneg junk).
      destruct (16 <=? len rest + len junk) eqn:E1, (16 <=? len rest) eqn:E2;
        unfold len in *; zlia || done.
    - by rewrite !andb_false_r. }
  unfold detectHeader. by rewrite HA, HB.
Qed.

Lemma parseHostname_junk ts off rest stamp host body lg :
  0 <= off <= len rest ->
  parseHostname ts off rest = Ok (stamp, host, body, lg) ->
  parseHostname ts off (rest ++ junk)
  = Ok (stamp, host, body ++ junk, (fun q => q ++ junk) <$> lg).
Proof.
  intros Hoff Hn.
  destruct (decide (off = 0)) as [->|Hnz].
  { rewrite parseHostname_none in Hn |- *. by injection Hn as <- <- <- <-. }
  assert (Hoff' : 0 < off <= len (rest ++ junk)).
  { rewrite len_app. pose proof (len_nonneg junk). lia. }
  assert (Hdrop : drop (Z.to_nat off) (rest ++ junk) = drop (Z.to_nat off) rest ++ junk).
  { apply drop_app_le. unfold len in *. lia. }
  destruct (parseHostname_header ts off rest ltac:(lia))
    as [(h & b & Heq & Hsp & Hn')|[Hnone Hn']];
    rewrite Hn' in Hn; injection Hn as <- <- <- <-.
  - destruct (parseHostname_header ts off (rest ++ junk) Hoff')
      as [(h' & b' & Heq' & Hsp' & Hn2)|[Hnone2 _]].
    + rewrite Hdrop, Heq, <- app_assoc in Heq'. cbn in Heq'.
      apply not_elem_of_app_cons_inv_l in Heq' as (-> & _ & <-); done.
    + exfalso. apply Hnone2. rewrite Hdrop, Heq.
      apply elem_of_app. left. apply elem_of_app. right. left.
  - destruct (parseHostname_header ts off (rest ++ junk) Hoff')
      as [(h' & b' & Heq' & Hsp' & Hn2)|[_ Hn2]]; [|done].
    exfalso. rewrite Hdrop in Heq'.
    assert (Hin : " "%byte ∈ drop (Z.to_nat off) rest ++ junk).
    { rewrite Heq'. apply elem_of_app. right. left. }
    apply elem_of_app in Hin as [Hin|Hin]; [done|by apply junk_not_space].
Qed.

Lemma TrimRightFunc_junk body :
  bytes.TrimRightFunc (body ++ junk) isNulCrLf = bytes.TrimRightFunc body isNulCrLf.
Proof.
  destruct (trim_decompose body) as (core & j0 & -> & Hj0 & Hc).
  rewrite <- app_assoc, !TrimRightFunc_core; try done.
  by apply Forall_app.
Qed.

Lemma parseMsg_junk {W} rt (s : Server W) body :
  parseMsg rt s (body ++ junk) = parseMsg rt s body.
Proof. unfold parseMsg. by rewrite TrimRightFunc_junk. Qed.

End Junk.

(** X6: NUL, CR and LF bytes at the end of a packet do not change the
    message.  A packet of at least one byte and the same packet with any
    number of NUL, CR and LF bytes after it are decoded to the same message,
    in every field; only the packet that is reported as not parsed, when one
    is, has the bytes. *)
Theorem trailing_junk_ignored {W} (rt : Runtime) (s : Server W) (remote : option Addr)
    (now ts : time.Time) (pkt junk : list byte) :
  pkt <> [] -> Forall (fun b => isNulCrLfByte b = true) junk ->
  exists m lg,
    receiver_decode rt s remote now ts pkt = Ok (m, lg)
    /\ receiver_decode rt s remote now ts (pkt ++ junk)
       = Ok (m, (fun q => q ++ junk) <$> lg).
Proof.
  intros Hne Hj.
  destruct (receiver_decode_total rt s remote now ts pkt Hne)
    as (prio & hp & rest & stamp & host & body & lg & tag & content & tag1 & content1
        & Hpri & Hn & Hm & Hd & _).
  eexists _, lg. split; [exact Hd|].
  destruct (parsePriority_junk junk Hj pkt Hne) as (prio' & hp' & rest' & Hp1 & Hp2).
  rewrite Hp1 in Hpri. injection Hpri as -> -> ->.
  set (off := if hp then detectHeader rt rest else 0) in *.
  assert (Hh : parseHeader rt hp (rest ++ junk) = Ok off).
  { unfold off. destruct hp; [|apply parseHeader_noprio].
    rewrite parseHeader_detect. by rewrite detectHeader_junk. }
  assert (Hoff : 0 <= off <= len rest).
  { unfold off. destruct hp; [|pose proof (len_nonneg rest); lia].
    destruct (detectHeader_range rt rest) as [->|[[->| ->] ?]];
      pose proof (len_nonneg rest); lia. }
  pose proof (parseHostname_junk junk Hj ts off rest _ _ _ _ Hoff Hn) as Hn2.
  rewrite <- (parseMsg_junk junk Hj rt s body) in Hm.
  destruct (receiver_decode_stages rt s remote now ts _ _ _ _ _ _ _ _ _ _ _ _ _
              Hp2 Hh Hn2 Hm) as [Hd2 _].
  exact Hd2.
Qed.

Lemma trailing_junk_ignored_witness :
  exists m lg,
    receiver_decode ref.runtime ref.server ref.peer time.zero time.zero
      (lit "<13>Jan  2 15:04:05 myhost su: failed") = Ok (m, lg)
    /\ receiver_decode ref.runtime ref.server ref.peer time.zero time.zero
         (lit "<13>Jan  2 15:04:05 myhost su: failed" ++ [x0d; x0a; x00; x0a])
       = Ok (m, (fun q => q ++ [x0d; x0a; x00; x0a]) <$> lg).
Proof.
  apply (trailing_junk_ignored ref.runtime ref.server); [done|].
  repeat (apply List.Forall_cons; [reflexivity|]). apply List.Forall_nil.
Defined.

(** ** The fields are parts of the packet *)

Lemma Within_refl s : Within s s.
Proof. exists [], []. by rewrite app_nil_r. Qed.

Lemma Within_nil s : Within [] s.
Proof. by exists [], s. Qed.

Lemma Within_trans x y z : Within x y -> Within y z -> Within x z.
Proof.
  intros (p1 & q1 & ->) (p2 & q2 & ->). exists (p2 ++ p1), (q1 ++ q2).
  by rewrite <- !app_assoc.
Qed.

Lemma Within_take n s : Within (take n s) s.
Proof. exists [], (drop n s). cbn. by rewrite take_drop. Qed.

Lemma Within_drop n s : Within (drop n s) s.
Proof. exists (take n s), []. by rewrite app_nil_r, take_drop. Qed.

Lemma slice_Within s lo hi x : slice s lo hi = Ok x -> Within x s.
Proof.
  unfold slice. destruct (_ && _); [|done]. intros [= <-].
  eapply Within_trans; [apply Within_take|apply Within_drop].
Qed.

Lemma TrimLeftFunc_Within s f : Within (strings.TrimLeftFunc s f) s.
Proof.
  unfold strings.TrimLeftFunc. destruct (_ =? -1); [apply Within_nil|apply Within_drop].
Qed.

Lemma TrimFunc_Within s f : Within (strings.TrimFunc s f) s.
Proof.
  unfold strings.TrimFunc, strings.TrimRightFunc.
  eapply Within_trans; [apply Within_take|apply TrimLeftFunc_Within].
Qed.

Lemma parseMsg_Within {W} rt (s : Server W) body tag content tag1 content1 :
  parseMsg rt s body = Ok (tag, content, tag1, content1) ->
  Within tag body /\ Within content body /\ Within tag1 body /\ Within content1 body.
Proof.
  unfold parseMsg. cbv zeta.
  set (msg := bytes.TrimRightFunc body isNulCrLf).
  set (space := unicode.IsSpace (unicodeTables rt)).
  set (msg1 := strings.TrimFunc msg space).
  assert (Hmsg : Within msg body) by apply Within_take.
  assert (Hmsg1 : Within msg1 body).
  { eapply Within_trans; [apply TrimFunc_Within|done]. }
  intros H.
  assert (Hstrict : Within tag body /\ Within content body
    /\ (if negb (strings.IndexFunc msg1 space =? -1)
        then do tag1 <- slice_to msg1 (strings.IndexFunc msg1 space);
             do tl <- slice_from msg1 (strings.IndexFunc msg1 space + 1);
             Ok (tag1, strings.TrimLeftFunc tl space)
        else Ok ([], msg1)) = Ok (tag1, content1)).
  { destruct (negb (strings.IndexFunc msg _ =? -1)).
    - destruct (slice_to msg _) as [t|] eqn:Et; cbn [bind] in H; [|done].
      destruct (slice_from msg _) as [c|] eqn:Ec; cbn [bind] in H; [|done].
      apply slice_Within in Et, Ec.
      destruct (if negb _ then _ else _) as [[t1 c1]|]; cbn [bind] in H; [|done].
      injection H as <- <- <- <-.
      split; [by eapply Within_trans|]. split; [by eapply Within_trans|done].
    - cbn [bind] in H.
      destruct (if negb _ then _ else _) as [[t1 c1]|]; cbn [bind] in H; [|done].
      injection H as <- <- <- <-. split; [apply Within_nil|]. done. }
  destruct Hstrict as (Ht & Hc & Hloose). split; [done|]. split; [done|].
  destruct (negb (strings.IndexFunc msg1 space =? -1)).
  - destruct (slice_to msg1 _) as [t|] eqn:Et; cbn [bind] in Hloose; [|done].
    destruct (slice_from msg1 _) as [c|] eqn:Ec; cbn [bind] in Hloose; [|done].
    apply slice_Within in Et, Ec. injection Hloose as <- <-.
    split; [by eapply Within_trans|].
    eapply Within_trans; [apply TrimLeftFunc_Within|]. by eapply Within_trans.
  - injection Hloose as <- <-. split; [apply Within_nil|done].
Qed.

(** X7: the decoder copies; it does not rewrite.  For every packet of at
    least one byte, each text field of the message (hostname, tag, content,
    tag1, content1) is a run of consecutive bytes of the packet, or empty;
    tag and content are next to each other: tag followed by content is a
    run of consecutive bytes of the packet too. *)
Theorem fields_within_packet {W} (rt : Runtime) (s : Server W) (remote : option Addr)
    (now ts : time.Time) (pkt : list byte) :
  pkt <> [] ->
  exists m lg,
    receiver_decode rt s remote now ts pkt = Ok (m, lg)
    /\ Within (Hostname m) pkt
    /\ Within (Tag m) pkt /\ Within (Content m) pkt /\ Within (Tag m ++ Content m) pkt
    /\ Within (Tag1 m) pkt /\ Within (Content1 m) pkt.
Proof.
  intros Hne.
  destruct (receiver_decode_total rt s remote now ts pkt Hne)
    as (prio & hp & rest & stamp & host & body & lg & tag & content & tag1 & content1
        & Hpri & Hn & Hm & Hd & _).
  eexists _, lg. split; [exact Hd|]. cbn [assemble Hostname Tag Content Tag1 Content1].
  assert (Hrest : Within rest pkt).
  { destruct (parsePriority_cases pkt Hne) as [(p & r & (tok & -> & _) & Hp)|[_ Hp]];
      rewrite Hp in Hpri; injection Hpri as <- <- <-; [|apply Within_refl].
    exists ("<"%byte :: tok ++ [">"%byte]), []. cbn. by rewrite app_nil_r, <- app_assoc. }
  set (off := if hp then detectHeader rt rest else 0) in *.
  assert (Hoff : off = 0 \/ 0 < off <= len rest).
  { unfold off. destruct hp; [|by left].
    destruct (detectHeader_range rt rest) as [->|[[->| ->] ?]]; [by left|right; lia..]. }
  assert (Hhb : Within host rest /\ Within body rest).
  { destruct Hoff as [H0|Hpos].
    - rewrite H0, parseHostname_none in Hn. injection Hn as <- <- <- <-.
      split; [apply Within_nil|apply Within_refl].
    - destruct (parseHostname_header ts off rest Hpos)
        as [(host' & body' & Heq & _ & Hn')|[_ Hn']];
        rewrite Hn' in Hn; injection Hn as <- <- <- <-.
      + split.
        * eapply Within_trans; [|apply (Within_drop (Z.to_nat off))].
          rewrite Heq. exists [], (" "%byte :: body'). done.
        * eapply Within_trans; [|apply (Within_drop (Z.to_nat off))].
          rewrite Heq. exists (host' ++ [" "%byte]), []. by rewrite app_nil_r, <- app_assoc.
      + split; [apply Within_nil|apply Within_refl]. }
  destruct Hhb as [Hhost Hbody].
  destruct (parseMsg_Within rt s body _ _ _ _ Hm) as (Ht & Hc & Ht1 & Hc1).
  assert (Hbp : Within body pkt) by (by eapply Within_trans).
  split; [by eapply Within_trans|].
  split; [by eapply Within_trans|]. split; [by eapply Within_trans|].
  split.
  - destruct (parseMsg_spec rt s body) as (tag' & content' & tag1' & content1' & Hm' & Hs).
    rewrite Hm' in Hm. injection Hm as -> -> -> ->.
    eapply Within_trans; [|exact Hbp].
    assert (Heq : tag ++ content = bytes.TrimRightFunc body isNulCrLf).
    { destruct Hs as [(before & n & r & after & _ & _ & _ & -> & ->)|(_ & -> & ->)];
        [apply take_drop|done]. }
    rewrite Heq. apply Within_take.
  - split; by eapply Within_trans.
Qed.

Lemma fields_within_packet_witness :
  exists m lg,
    receiver_decode ref.runtime ref.server ref.peer time.zero time.zero
      (lit "<13>Jan  2 15:04:05 myhost su: failed") = Ok (m, lg)
    /\ Within (Hostname m) (lit "<13>Jan  2 15:04:05 myhost su: failed")
    /\ Within (Tag m) (lit "<13>Jan  2 15:04:05 myhost su: failed")
    /\ Within (Content m) (lit "<13>Jan  2 15:04:05 myhost su: failed")
    /\ Within (Tag m ++ Content m) (lit "<13>Jan  2 15:04:05 myhost su: failed")
    /\ Within (Tag1 m) (lit "<13>Jan  2 15:04:05 myhost su: failed")
    /\ Within (Content1 m) (lit "<13>Jan  2 15:04:05 myhost su: failed").
Proof. apply (fields_within_packet ref.runtime ref.server). done. Defined.

(** ** Strings of ASCII bytes *)


Lemma DecodeRune_ascii b s : bz b < 0x80 -> utf8.DecodeRune (b :: s) = (bz b, 1).
Proof.
  intros Hb. pose proof (DecodeRune_Decoded (b :: s) ltac:(done)) as H.
  change (utf8.at_ (b :: s) 0) with (bz b) in H.
  inversion H as [Hlt Heq|Hge Heq|r size Hsz Hn Hp0 Hb1 Hr Hst Heq]; [done|lia..].
Qed.

Lemma rangeLoop_ascii fuel b s i :
  bz b < 0x80 ->
  strings.rangeLoop (S fuel) (b :: s) i = (i, bz b) :: strings.rangeLoop fuel s (i + 1).
Proof. intros Hb. cbn [strings.rangeLoop]. by rewrite DecodeRune_ascii. Qed.

(* The first rune that [f] gives [truth] for, after ASCII bytes that it
   does not. *)
Lemma firstIndex_ascii f truth fuel pre b rest i :
  Forall (fun x => bz x < 0x80 /\ f (bz x) = negb truth) pre ->
  bz b < 0x80 -> f (bz b) = truth -> (length pre < fuel)%nat ->
  strings.firstIndex f truth (strings.rangeLoop fuel (pre ++ b :: rest) i) = i + len pre.
Proof.
  intros Hpre Hb Hf. revert fuel i.
  induction Hpre as [|x pre [Hx Hfx] _ IH]; intros fuel i Hfuel.
  - destruct fuel as [|fuel]; [simpl in Hfuel; lia|].
    cbn [app]. rewrite rangeLoop_ascii by done. cbn [strings.firstIndex].
    rewrite Hf. rewrite eqb_reflx. rewrite len_nil. lia.
  - destruct fuel as [|fuel]; [simpl in Hfuel; lia|].
    cbn [app]. rewrite rangeLoop_ascii by done. cbn [strings.firstIndex].
    rewrite Hfx. replace (Bool.eqb (negb truth) truth) with false by (by destruct truth).
    rewrite IH by (simpl in Hfuel; lia). rewrite len_cons. lia.
Qed.

Lemma indexFunc_ascii f truth pre b rest :
  Forall (fun x => bz x < 0x80 /\ f (bz x) = negb truth) pre ->
  bz b < 0x80 -> f (bz b) = truth ->
  strings.indexFunc (pre ++ b :: rest) f truth = len pre.
Proof.
  intros Hpre Hb Hf. unfold strings.indexFunc, strings.range.
  rewrite firstIndex_ascii; [lia|done..|].
  rewrite length_app. simpl. lia.
Qed.

Lemma firstIndex_ascii_none f truth fuel s i :
  Forall (fun x => bz x < 0x80 /\ f (bz x) = negb truth) s ->
  strings.firstIndex f truth (strings.rangeLoop fuel s i) = -1.
Proof.
  intros Hs. revert fuel i. induction Hs as [|x s [Hx Hfx] _ IH]; intros fuel i.
  - by destruct fuel.
  - destruct fuel as [|fuel]; [done|].
    rewrite rangeLoop_ascii by done. cbn [strings.firstIndex].
    rewrite Hfx. replace (Bool.eqb (negb truth) truth) with false by (by destruct truth).
    apply IH.
Qed.

Lemma indexFunc_ascii_none f truth s :
  Forall (fun x => bz x < 0x80 /\ f (bz x) = negb truth) s ->
  strings.indexFunc s f truth = -1.
Proof. intros Hs. by apply firstIndex_ascii_none. Qed.



(* TrimLeftFunc steps over ASCII bytes that [f] holds of and stops at an
   ASCII byte that it does not hold of. *)
Lemma TrimLeftFunc_ascii f lead b rest :
  Forall (fun x => bz x < 0x80 /\ f (bz x) = true) lead ->
  bz b < 0x80 -> f (bz b) = false ->
  strings.TrimLeftFunc (lead ++ b :: rest) f = b :: rest.
Proof.
  intros Hlead Hb Hf. unfold strings.TrimLeftFunc.
  rewrite indexFunc_ascii by done.
  pose proof (len_nonneg lead). destruct (len lead =? -1) eqn:E; [zlia|].
  replace (Z.to_nat (len lead)) with (length lead) by (unfold len; lia).
  by rewrite drop_app_length.
Qed.

Lemma DecodeLastRune_ascii s b : bz b < 0x80 -> utf8.DecodeLastRune (s ++ [b]) = (bz b, 1).
Proof.
  intros Hb. unfold utf8.DecodeLastRune. cbv zeta.
  assert (Hl : len (s ++ [b]) = len s + 1) by (rewrite len_app; done).
  pose proof (len_nonneg s).
  destruct (len (s ++ [b]) =? 0) eqn:E; [zlia|].
  replace (Z.to_nat (len (s ++ [b]) - 1)) with (length s) by (unfold len in *; lia).
  rewrite at_last.
  destruct (bz b <? utf8.RuneSelf) eqn:E1; [done|unfold utf8.RuneSelf in E1; zlia].
Qed.

(* The loop of lastIndexFunc steps over trailing ASCII bytes that [f] holds
   of, one at a time. *)
Lemma strings_lastIndexLoop_tail f core tail n fuel :
  Forall (fun x => bz x < 0x80 /\ f (bz x) = true) tail ->
  (n <= length tail)%nat -> (n <= fuel)%nat ->
  strings.lastIndexLoop fuel (core ++ tail) f false (len core + Z.of_nat n)
  = strings.lastIndexLoop (fuel - n) (core ++ tail) f false (len core).
Proof.
  intros Ht. revert fuel. induction n as [|n IH]; intros fuel Hn Hf.
  { by rewrite Z.add_0_r, Nat.sub_0_r. }
  destruct fuel as [|fuel]; [lia|]. cbn [strings.lastIndexLoop].
  pose proof (len_nonneg core) as Hc.
  destruct (len core + Z.of_nat (S n) <=? 0) eqn:E0; [zlia|].
  replace (Z.to_nat (len core + Z.of_nat (S n))) with (length core + S n)%nat
    by (unfold len; lia).
  destruct (lookup_lt_is_Some_2 tail n ltac:(lia)) as [x Hx].
  assert (Htake : take (length core + S n) (core ++ tail) = (core ++ take n tail) ++ [x]).
  { rewrite take_app_add. rewrite (take_S_r _ _ _ Hx). by rewrite app_assoc. }
  rewrite Htake.
  rewrite Forall_forall in Ht.
  destruct (Ht x (list_elem_of_lookup_2 _ _ _ Hx)) as [Hlow Hfx].
  rewrite DecodeLastRune_ascii by done. rewrite Hfx. cbn [Bool.eqb].
  replace (len core + Z.of_nat (S n) - 1) with (len core + Z.of_nat n) by lia.
  rewrite IH by lia. done.
Qed.

(* strings.TrimRightFunc removes trailing ASCII bytes that [f] holds of and
   stops at an ASCII byte that it does not hold of. *)
Lemma strings_TrimRightFunc_ascii f core0 g tail :
  Forall (fun x => bz x < 0x80 /\ f (bz x) = true) tail ->
  bz g < 0x80 -> f (bz g) = false ->
  strings.TrimRightFunc ((core0 ++ [g]) ++ tail) f = core0 ++ [g].
Proof.
  intros Ht Hg Hf. set (core := core0 ++ [g]).
  unfold strings.TrimRightFunc, strings.lastIndexFunc.
  assert (Hlen : len (core ++ tail) = len core + Z.of_nat (length tail))
    by (by rewrite len_app).
  rewrite Hlen, length_app, strings_lastIndexLoop_tail by (done || lia).
  replace (length core + length tail - length tail)%nat with (length core) by lia.
  assert (Hlc : length core = S (length core0)).
  { unfold core. rewrite length_app. simpl. lia. }
  rewrite Hlc. cbn [strings.lastIndexLoop].
  destruct (len core <=? 0) eqn:E0; [unfold len in E0; zlia|].
  replace (Z.to_nat (len core)) with (length core) by (unfold len; lia).
  rewrite take_app_length.
  assert (Hd : utf8.DecodeLastRune core = (bz g, 1)) by (by apply DecodeLastRune_ascii).
  rewrite Hd, Hf. cbn [Bool.eqb].
  replace (Z.to_nat (len core - 1)) with (length core0) by (unfold len; lia).
  assert (Hat : utf8.at_ (core ++ tail) (length core0) = bz g).
  { rewrite at_app_l by lia. apply at_last. }
  rewrite Hat.
  destruct (utf8.RuneSelf <=? bz g) eqn:E1; [unfold utf8.RuneSelf in E1; zlia|].
  rewrite andb_false_r.
  replace (Z.to_nat (len core - 1 + 1)) with (length core) by (unfold len; lia).
  by rewrite take_app_length.
Qed.

(** ** White space and visible characters *)

Lemma isSpaceByte_spec t b :
  isSpaceByte b = true -> bz b < 0x80 /\ unicode.IsSpace t (bz b) = true.
Proof.
  unfold isSpaceByte. intros H.
  assert (Hr : 9 <= bz b <= 13 \/ bz b = 32).
  { apply orb_prop in H as [H|H]; [apply andb_prop in H as [H1 H2]; zlia|zlia]. }
  split; [lia|]. unfold unicode.IsSpace, unicode.isLatin1, unicode.MaxLatin1.
  destruct ((0 <=? bz b) && (bz b <=? 255)) eqn:E;
    [|apply andb_false_iff in E as [E|E]; zlia].
  destruct (bz b =? 9) eqn:?, (bz b =? 10) eqn:?, (bz b =? 11) eqn:?,
    (bz b =? 12) eqn:?, (bz b =? 13) eqn:?, (bz b =? 32) eqn:?; try done; zlia.
Qed.

Lemma isGraphic_spec t b :
  isGraphic b = true ->
  bz b < 0x80 /\ unicode.IsSpace t (bz b) = false /\ isNulCrLfByte b = false
  /\ isSpaceByte b = false.
Proof.
  unfold isGraphic. intros H. apply andb_prop in H as [H1 H2].
  split; [zlia|]. split; [|split].
  - unfold unicode.IsSpace, unicode.isLatin1, unicode.MaxLatin1.
    destruct ((0 <=? bz b) && (bz b <=? 255)) eqn:E;
      [|apply andb_false_iff in E as [E|E]; zlia].
    destruct (bz b =? 9) eqn:?, (bz b =? 10) eqn:?, (bz b =? 11) eqn:?,
      (bz b =? 12) eqn:?, (bz b =? 13) eqn:?, (bz b =? 32) eqn:?,
      (bz b =? 133) eqn:?, (bz b =? 160) eqn:?; try done; zlia.
  - unfold isNulCrLfByte.
    destruct (bz b =? 0) eqn:?, (bz b =? 13) eqn:?, (bz b =? 10) eqn:?; try done; zlia.
  - unfold isSpaceByte.
    destruct ((9 <=? bz b) && (bz b <=? 13)) eqn:E1;
      [apply andb_prop in E1 as [? ?]; zlia|].
    destruct (bz b =? 32) eqn:?; [zlia|done].
Qed.

Lemma spaces_spec t sp :
  Forall (fun b => isSpaceByte b = true) sp ->
  Forall (fun x => bz x < 0x80 /\ unicode.IsSpace t (bz x) = true) sp.
Proof. intros H. eapply Forall_impl; [exact H|]. intros b. apply isSpaceByte_spec. Qed.

Lemma graphics_spec t word :
  Forall (fun b => isGraphic b = true) word ->
  Forall (fun x => bz x < 0x80 /\ unicode.IsSpace t (bz x) = negb true) word.
Proof.
  intros H. eapply Forall_impl; [exact H|]. intros b Hb.
  by destruct (isGraphic_spec t b Hb) as (? & ? & _).
Qed.

(** ** The loose split: Tag1 and Content1 *)

(* Two ways of writing one concatenation. *)
Ltac assoc := rewrite <- ?app_assoc; cbn [app]; rewrite <- ?app_assoc; cbn [app]; reflexivity.

(* What "Parse msg part" makes Tag1 and Content1 of. *)
Lemma parseMsg_loose {W} rt (s : Server W) body tag content tag1 content1 :
  parseMsg rt s body = Ok (tag, content, tag1, content1) ->
  let space := unicode.IsSpace (unicodeTables rt) in
  let msg1 := strings.TrimFunc (bytes.TrimRightFunc body isNulCrLf) space in
  let n := strings.IndexFunc msg1 space in
  (n = -1 /\ tag1 = [] /\ content1 = msg1)
  \/ (0 <= n < len msg1
      /\ tag1 = take (Z.to_nat n) msg1
      /\ content1 = strings.TrimLeftFunc (drop (Z.to_nat (n + 1)) msg1) space).
Proof.
  unfold parseMsg. cbv zeta.
  set (msg := bytes.TrimRightFunc body isNulCrLf).
  set (space := unicode.IsSpace (unicodeTables rt)).
  set (msg1 := strings.TrimFunc msg space).
  destruct (if negb (strings.IndexFunc msg _ =? -1) then _ else _) as [[t c]|];
    cbn [bind]; [|done].
  pose proof (IndexFunc_range msg1 space) as Hr.
  destruct (strings.IndexFunc msg1 space =? -1) eqn:E; cbn [negb bind].
  - intros [= _ _ <- <-]. left. split; [zlia|done].
  - rewrite slice_to_ok, slice_from_ok by zlia. cbn [bind].
    intros [= _ _ <- <-]. right. split; [zlia|done].
Qed.

(* Trailing white space and then NUL, CR and LF bytes after a visible
   character: trimming NUL, CR and LF leaves white space at most. *)
Lemma TrimRightFunc_trail x g trail junk :
  isGraphic g = true ->
  Forall (fun b => isSpaceByte b = true) trail ->
  Forall (fun b => isNulCrLfByte b = true) junk ->
  exists trail',
    Forall (fun b => isSpaceByte b = true) trail'
    /\ bytes.TrimRightFunc ((x ++ [g]) ++ trail ++ junk) isNulCrLf = (x ++ [g]) ++ trail'.
Proof.
  intros Hg Ht Hj.
  destruct (trim_decompose trail) as (tcore & tj & -> & Htj & Hc).
  apply Forall_app in Ht as [Htc _].
  exists tcore. split; [done|].
  replace ((x ++ [g]) ++ (tcore ++ tj) ++ junk)
    with (((x ++ [g]) ++ tcore) ++ (tj ++ junk)) by assoc.
  apply TrimRightFunc_core; [by apply Forall_app|].
  intros b Hb. destruct tcore as [|c tcore] using rev_ind.
  - rewrite app_nil_r, last_snoc in Hb. injection Hb as <-.
    by destruct (isGraphic_spec {| Letter := fun _ => false; Number := fun _ => false;
                                   Digit := fun _ => false; White_Space := fun _ => false |}
                   g Hg) as (_ & _ & ? & _).
  - rewrite app_assoc, last_snoc in Hb. injection Hb as <-.
    apply Hc. by rewrite last_snoc.
Qed.

Lemma Framed_inv text :
  Framed text ->
  exists h text1 text0 g,
    text = h :: text1 /\ text = text0 ++ [g]
    /\ isGraphic h = true /\ isGraphic g = true.
Proof.
  intros [(h & Hh & Hgh) (g & Hl & Hgg)].
  destruct text as [|h' text1]; [done|]. injection Hh as ->.
  apply last_Some in Hl as [text0 Heq].
  by exists h, text1, text0, g.
Qed.

(* A body that starts and ends with a visible character, within white
   space and before NUL, CR and LF bytes, is what the two trimmings
   leave. *)
Lemma TrimFunc_framed rt (lead mid trail junk : list byte) :
  Framed mid ->
  Forall (fun b => isSpaceByte b = true) lead ->
  Forall (fun b => isSpaceByte b = true) trail ->
  Forall (fun b => isNulCrLfByte b = true) junk ->
  strings.TrimFunc (bytes.TrimRightFunc (lead ++ mid ++ trail ++ junk) isNulCrLf)
    (unicode.IsSpace (unicodeTables rt))
  = mid.
Proof.
  intros Hmid Hlead Htrail Hjunk.
  destruct (Framed_inv mid Hmid) as (h & m1 & m0 & g & Hhd & Hlast & Hh & Hg).
  destruct (TrimRightFunc_trail (lead ++ m0) g trail junk Hg Htrail Hjunk)
    as (trail' & Htrail' & Heq).
  replace (lead ++ mid ++ trail ++ junk) with (((lead ++ m0) ++ [g]) ++ trail ++ junk)
    by (rewrite Hlast; assoc).
  rewrite Heq. unfold strings.TrimFunc.
  destruct (isGraphic_spec (unicodeTables rt) h Hh) as (Hlow & Hns & _).
  destruct (isGraphic_spec (unicodeTables rt) g Hg) as (Hglow & Hgns & _).
  replace (((lead ++ m0) ++ [g]) ++ trail') with (lead ++ h :: (m1 ++ trail'))
    by (rewrite <- !app_assoc; f_equal; rewrite app_assoc, <- Hlast, Hhd; done).
  rewrite TrimLeftFunc_ascii; [|by apply spaces_spec|done..].
  replace (h :: m1 ++ trail') with ((m0 ++ [g]) ++ trail')
    by (by rewrite <- Hlast, Hhd).
  rewrite strings_TrimRightFunc_ascii; [by rewrite Hlast|by apply spaces_spec|done..].
Qed.

Lemma Framed_word word :
  word <> [] -> Forall (fun b => isGraphic b = true) word -> Framed word.
Proof.
  intros Hne Hall. rewrite Forall_forall in Hall. split.
  - destruct word as [|h w]; [done|]. exists h. split; [done|]. apply Hall. left.
  - destruct (last word) as [g|] eqn:El; [|by apply last_None in El].
    exists g. split; [done|]. apply Hall. by apply last_Some_elem_of.
Qed.

Lemma Framed_words word more text :
  word <> [] -> Forall (fun b => isGraphic b = true) word -> Framed text ->
  Framed (word ++ more ++ text).
Proof.
  intros Hne Hall Htext.
  destruct (Framed_word word Hne Hall) as [(h & Hh & Hgh) _].
  destruct (Framed_inv text Htext) as (_ & _ & text0 & g & _ & -> & _ & Hg).
  split.
  - exists h. split; [|done]. destruct word; [done|]. done.
  - exists g. split; [|done]. by rewrite !app_assoc, last_snoc.
Qed.

(** X8: Tag1 is the first word of the body and Content1 is what follows
    it.  For a body that is, in this order, white space, a word of visible
    ASCII characters, a white-space byte, more white space, a text that
    starts and ends with a visible ASCII character, white space, and NUL,
    CR and LF bytes (each white space possibly empty), Tag1 is the word and
    Content1 is the text. *)
Theorem loose_split_words {W} (rt : Runtime) (s : Server W)
    (lead word gap text trail junk : list byte) (sp : byte) :
  word <> [] -> Forall (fun b => isGraphic b = true) word ->
  isSpaceByte sp = true ->
  Forall (fun b => isSpaceByte b = true) lead ->
  Forall (fun b => isSpaceByte b = true) gap ->
  Forall (fun b => isSpaceByte b = true) trail ->
  Framed text ->
  Forall (fun b => isNulCrLfByte b = true) junk ->
  exists tag content,
    parseMsg rt s (lead ++ word ++ sp :: gap ++ text ++ trail ++ junk)
    = Ok (tag, content, word, text).
Proof.
  intros Hword Hgraphic Hsp Hlead Hgap Htrail Htext Hjunk.
  destruct (parseMsg_spec rt s (lead ++ word ++ sp :: gap ++ text ++ trail ++ junk))
    as (tag & content & tag1 & content1 & Hm & _).
  exists tag, content. rewrite Hm.
  apply parseMsg_loose in Hm. cbv zeta in Hm.
  destruct (Framed_inv text Htext) as (h & text1 & text0 & g & Hhd & Hlast & Hh & Hg).
  set (space := unicode.IsSpace (unicodeTables rt)) in *.
  assert (Hmsg1 : strings.TrimFunc
            (bytes.TrimRightFunc (lead ++ word ++ sp :: gap ++ text ++ trail ++ junk)
               isNulCrLf) space
          = word ++ sp :: gap ++ text).
  { replace (lead ++ word ++ sp :: gap ++ text ++ trail ++ junk)
      with (lead ++ (word ++ (sp :: gap) ++ text) ++ trail ++ junk) by assoc.
    unfold space. rewrite TrimFunc_framed; [assoc|by apply Framed_words|done..]. }
  rewrite Hmsg1 in Hm.
  destruct (isSpaceByte_spec (unicodeTables rt) sp Hsp) as [Hsplow Hspsp].
  assert (Hn : strings.IndexFunc (word ++ sp :: gap ++ text) space = len word).
  { apply indexFunc_ascii; [by apply graphics_spec|done..]. }
  rewrite Hn in Hm. pose proof (len_nonneg word) as Hw.
  destruct Hm as [[Hneg _]|(_ & -> & ->)]; [lia|].
  replace (Z.to_nat (len word)) with (length word) by (unfold len; lia).
  replace (Z.to_nat (len word + 1)) with (length word + 1)%nat by (unfold len; lia).
  rewrite take_app_length.
  replace (word ++ sp :: gap ++ text) with (word ++ [sp] ++ gap ++ text) by done.
  rewrite drop_app_add, Hhd. cbn [app drop]. rewrite drop_0.
  destruct (isGraphic_spec (unicodeTables rt) h Hh) as (Hhlow & Hhns & _).
  rewrite TrimLeftFunc_ascii; [done|by apply spaces_spec|done..].
Qed.

Lemma loose_split_words_witness :
  exists tag content,
    parseMsg ref.runtime ref.server
      (lit "  " ++ lit "su:" ++ " "%byte :: lit " " ++ lit "auth failed" ++ lit " "
         ++ [x0d; x0a])
    = Ok (tag, content, lit "su:", lit "auth failed").
Proof.
  apply (loose_split_words ref.runtime ref.server (lit "  ") (lit "su:") (lit " ")
           (lit "auth failed") (lit " ") [x0d; x0a] " "%byte).
  - done.
  - repeat (apply List.Forall_cons; [reflexivity|]). apply List.Forall_nil.
  - reflexivity.
  - repeat (apply List.Forall_cons; [reflexivity|]). apply List.Forall_nil.
  - repeat (apply List.Forall_cons; [reflexivity|]). apply List.Forall_nil.
  - repeat (apply List.Forall_cons; [reflexivity|]). apply List.Forall_nil.
  - split; eexists; (split; [reflexivity|reflexivity]).
  - repeat (apply List.Forall_cons; [reflexivity|]). apply List.Forall_nil.
Defined.

(** X9: a body of one word has no Tag1.  For a body that is white space,
    one word of visible ASCII characters, white space, and NUL, CR and LF
    bytes, Tag1 is empty and Content1 is the word. *)
Theorem loose_split_single_word {W} (rt : Runtime) (s : Server W)
    (lead word trail junk : list byte) :
  word <> [] -> Forall (fun b => isGraphic b = true) word ->
  Forall (fun b => isSpaceByte b = true) lead ->
  Forall (fun b => isSpaceByte b = true) trail ->
  Forall (fun b => isNulCrLfByte b = true) junk ->
  exists tag content,
    parseMsg rt s (lead ++ word ++ trail ++ junk) = Ok (tag, content, [], word).
Proof.
  intros Hword Hgraphic Hlead Htrail Hjunk.
  destruct (parseMsg_spec rt s (lead ++ word ++ trail ++ junk))
    as (tag & content & tag1 & content1 & Hm & _).
  exists tag, content. rewrite Hm.
  apply parseMsg_loose in Hm. cbv zeta in Hm.
  set (space := unicode.IsSpace (unicodeTables rt)) in *.
  assert (Hmsg1 : strings.TrimFunc
            (bytes.TrimRightFunc (lead ++ word ++ trail ++ junk) isNulCrLf) space
          = word).
  { unfold space. apply TrimFunc_framed; [by apply Framed_word|done..]. }
  rewrite Hmsg1 in Hm.
  assert (Hn : strings.IndexFunc word space = -1).
  { apply indexFunc_ascii_none. by apply graphics_spec. }
  rewrite Hn in Hm. destruct Hm as [(_ & -> & ->)|[Hneg _]]; [done|lia].
Qed.

Lemma loose_split_single_word_witness :
  exists tag content,
    parseMsg ref.runtime ref.server (lit " " ++ lit "rebooted" ++ lit " " ++ [x0a])
    = Ok (tag, content, [], lit "rebooted").
Proof.
  apply (loose_split_single_word ref.runtime ref.server (lit " ") (lit "rebooted")
           (lit " ") [x0a]).
  - done.
  - repeat (apply List.Forall_cons; [reflexivity|]). apply List.Forall_nil.
  - repeat (apply List.Forall_cons; [reflexivity|]). apply List.Forall_nil.
  - repeat (apply List.Forall_cons; [reflexivity|]). apply List.Forall_nil.
  - repeat (apply List.Forall_cons; [reflexivity|]). apply List.Forall_nil.
Defined.

(** X10: a body of white space has neither Tag1 nor Content1.  For a body
    that is ASCII white space and then NUL, CR and LF bytes, or empty, both
    are empty. *)
Theorem blank_body {W} (rt : Runtime) (s : Server W) (blank junk : list byte) :
  Forall (fun b => isSpaceByte b = true) blank ->
  Forall (fun b => isNulCrLfByte b = true) junk ->
  exists tag content, parseMsg rt s (blank ++ junk) = Ok (tag, content, [], []).
Proof.
  intros Hblank Hjunk.
  destruct (parseMsg_spec rt s (blank ++ junk))
    as (tag & content & tag1 & content1 & Hm & _).
  exists tag, content. rewrite Hm.
  apply parseMsg_loose in Hm. cbv zeta in Hm.
  set (space := unicode.IsSpace (unicodeTables rt)) in *.
  destruct (trim_decompose blank) as (core & j0 & -> & Hj0 & Hc).
  apply Forall_app in Hblank as [Hcore _].
  assert (Hmsg : bytes.TrimRightFunc ((core ++ j0) ++ junk) isNulCrLf = core).
  { rewrite <- app_assoc. apply TrimRightFunc_core; [by apply Forall_app|done]. }
  rewrite Hmsg in Hm.
  assert (Hmsg1 : strings.TrimFunc core space = []).
  { unfold strings.TrimFunc, strings.TrimLeftFunc.
    rewrite indexFunc_ascii_none; [done|].
    eapply Forall_impl; [exact Hcore|]. intros b Hb.
    by destruct (isSpaceByte_spec (unicodeTables rt) b Hb). }
  rewrite Hmsg1 in Hm.
  destruct Hm as [(_ & -> & ->)|[Hr _]]; [done|]. cbn in Hr. lia.
Qed.

Lemma blank_body_witness :
  exists tag content,
    parseMsg ref.runtime ref.server (lit "   " ++ [x0d; x0a]) = Ok (tag, content, [], []).
Proof.
  apply (blank_body ref.runtime ref.server (lit "   ") [x0d; x0a]).
  - repeat (apply List.Forall_cons; [reflexivity|]). apply List.Forall_nil.
  - repeat (apply List.Forall_cons; [reflexivity|]). apply List.Forall_nil.
Defined.

(** ** A white-space rune of two bytes *)






(** ** The strict split and the allowed runes *)







(** ** The strict split keeps runes whole *)

(* A rune of the range is what DecodeRune reads at its offset. *)
Lemma rangeLoop_decodes fuel s i j r :
  (j, r) ∈ strings.rangeLoop fuel s i ->
  i <= j /\ fst (utf8.DecodeRune (drop (Z.to_nat (j - i)) s)) = r
  /\ drop (Z.to_nat (j - i)) s <> [].
Proof.
  revert s i. induction fuel as [|k IH]; intros s i Hin; simpl in Hin.
  { by apply elem_of_nil in Hin. }
  destruct s as [|b s']; [by apply elem_of_nil in Hin|].
  set (s := b :: s') in *.
  pose proof (DecodeRune_size s ltac:(done)) as Hsz.
  destruct (utf8.DecodeRune s) as [r0 size] eqn:Hd. cbn [snd] in Hsz.
  apply elem_of_cons in Hin as [Heq|Hin].
  - injection Heq as -> ->. rewrite Z.sub_diag. change (Z.to_nat 0) with 0%nat.
    rewrite drop_0. split; [lia|]. by rewrite Hd.
  - apply IH in Hin as (Hle & Hr & Hne).
    rewrite drop_drop in Hr, Hne.
    replace (Z.to_nat size + Z.to_nat (j - (i + size)))%nat with (Z.to_nat (j - i))
      in Hr, Hne by lia.
    split; [lia|done].
Qed.

(** X13: the strict split does not cut a rune in two on the side of the
    content.  Either the trimmed body has no rune that ends the tag, and
    then the tag is empty and the content is the trimmed body; or the
    content is not empty and the rune that DecodeRune reads at its start is
    whole and is one that ends the tag: not a letter, not a number, not
    allowed. *)
Theorem content_starts_at_stop_rune {W} (rt : Runtime) (s : Server W)
    (body tag content tag1 content1 : list byte) :
  parseMsg rt s body = Ok (tag, content, tag1, content1) ->
  (Forall (fun ir => stopRune (unicodeTables rt) s (snd ir) = false)
     (strings.range (bytes.TrimRightFunc body isNulCrLf))
   /\ tag = [] /\ content = bytes.TrimRightFunc body isNulCrLf)
  \/ (content <> []
      /\ stopRune (unicodeTables rt) s (fst (utf8.DecodeRune content)) = true
      /\ tag ++ content = bytes.TrimRightFunc body isNulCrLf).
Proof.
  intros Hm.
  destruct (parseMsg_spec rt s body) as (tag' & content' & tag1' & content1' & Hm' & Hs).
  rewrite Hm' in Hm. injection Hm as -> -> -> ->.
  destruct Hs as [(before & n & r & after & Heq & Hall & Hr & -> & ->)|(Hall & -> & ->)].
  - right.
    assert (Hin : (n, r) ∈ strings.range (bytes.TrimRightFunc body isNulCrLf)).
    { rewrite Heq. apply elem_of_app. right. left. }
    apply rangeLoop_decodes in Hin as (_ & Hdec & Hne). rewrite Z.sub_0_r in Hdec, Hne.
    split; [done|]. split; [|apply take_drop].
    by rewrite Hdec, <- isNotAlnum_stopRune.
  - left. split; [|done].
    eapply Forall_impl; [exact Hall|]. intros ir Hir. by rewrite <- isNotAlnum_stopRune.
Qed.

Lemma content_starts_at_stop_rune_witness :
  lit "caf" ++ [xc3; xa9] ++ [xe2; x80; x94] ++ lit "open" <> []
  /\ stopRune (unicodeTables ref.runtime) ref.server
       (fst (utf8.DecodeRune ([xe2; x80; x94] ++ lit "open"))) = true.
Proof.
  destruct (content_starts_at_stop_rune ref.runtime ref.server
              (lit "caf" ++ [xc3; xa9] ++ [xe2; x80; x94] ++ lit "open")
              (lit "caf" ++ [xc3; xa9]) ([xe2; x80; x94] ++ lit "open")
              [] (lit "caf" ++ [xc3; xa9] ++ [xe2; x80; x94] ++ lit "open"))
    as [(_ & Ht & _)|(_ & Hstop & _)].
  - vm_compute. reflexivity.
  - discriminate Ht.
  - split; [done|exact Hstop].
Defined.

(** ** The handler chain as handlers are added *)

Section ChainGrows.

Context {W : Type}.
Implicit Types (hs : list (Handler W)) (w : W).

(* The events of a dispatch are calls of handlers. *)
Lemma dispatch_calls i hs (m : option Message) w :
  Forall (fun e => exists j a r, e = EHandle j a r) (fst (dispatch i hs m w)).
Proof.
  revert i m w. induction hs as [|h hs IH]; intros i m w; simpl; [constructor|].
  destruct (Handle h m w) as [m' w'].
  destruct m' as [m'|]; simpl.
  - specialize (IH (S i) (Some m') w').
    destruct (dispatch (S i) hs (Some m') w') as [evs w'']. simpl in *.
    constructor; [by eexists _, _, _|done].
  - constructor; [by eexists _, _, _|constructor].
Qed.

Lemma chainOut_cons j a r (m : option Message) evs :
  Forall (fun e => exists j a r, e = EHandle j a r) evs ->
  chainOut m (EHandle j a r :: evs) = chainOut r evs
  /\ stopped (EHandle j a r :: evs) = match evs with [] => match r with None => true | _ => false end | _ => stopped evs end.
Proof.
  intros Hall. unfold chainOut, stopped.
  destruct evs as [|e evs]; [done|].
  rewrite last_cons.
  assert (Hl : exists j' a' r', last (e :: evs) = Some (EHandle j' a' r')).
  { destruct (last (e :: evs)) as [x|] eqn:El.
    - apply last_Some_elem_of in El. rewrite Forall_forall in Hall.
      destruct (Hall x El) as (j' & a' & r' & ->). by eexists _, _, _.
    - by apply last_None in El. }
  destruct Hl as (j' & a' & r' & ->). done.
Qed.

(* The chain with one more handler at its end. *)
Lemma dispatch_snoc i hs (h : Handler W) (m : option Message) w :
  dispatch i (hs ++ [h]) m w =
  let '(evs, w1) := dispatch i hs m w in
  if stopped evs then (evs, w1)
  else
    let '(ret, w2) := Handle h (chainOut m evs) w1 in
    (evs ++ [EHandle (i + length hs) (chainOut m evs) ret], w2).
Proof.
  revert i m w. induction hs as [|h0 hs IH]; intros i m w.
  { cbn. rewrite Nat.add_0_r. destruct (Handle h m w) as [m' w']. by destruct m'. }
  cbn [app dispatch]. destruct (Handle h0 m w) as [m' w'].
  destruct m' as [m'|]; [|done].
  rewrite IH. pose proof (dispatch_calls (S i) hs (Some m') w') as Hall.
  destruct (dispatch (S i) hs (Some m') w') as [evs w1]. cbn [fst] in Hall.
  destruct (chainOut_cons i m (Some m') m evs Hall) as [-> ->].
  replace (i + length (h0 :: hs))%nat with (S i + length hs)%nat by (simpl; lia).
  destruct evs as [|e evs].
  - cbn. by destruct (Handle h (Some m') w1).
  - destruct (stopped (e :: evs)); [done|].
    by destruct (Handle h (chainOut (Some m') (e :: evs)) w1).
Qed.

(* The handler [i] is called at most once in a dispatch, first of all when
   the dispatch starts at [i]. *)
Lemma handled_dispatch_later i j hs (m : option Message) w :
  (i < j)%nat -> handled i (fst (dispatch j hs m w)) = [].
Proof.
  revert j m w. induction hs as [|h hs IH]; intros j m w Hij; simpl; [done|].
  destruct (Handle h m w) as [m' w'].
  assert (Hne : (j =? i)%nat = false) by (apply Nat.eqb_neq; lia).
  destruct m' as [m'|]; simpl.
  - specialize (IH (S j) (Some m') w' ltac:(lia)).
    destruct (dispatch (S j) hs (Some m') w') as [evs w'']. simpl in *.
    unfold handled in *. cbn. by rewrite Hne.
  - unfold handled. cbn. by rewrite Hne.
Qed.

Lemma handled_dispatch_first i h hs (m : option Message) w :
  handled i (fst (dispatch i (h :: hs) m w)) = [m].
Proof.
  simpl. destruct (Handle h m w) as [m' w'].
  destruct m' as [m'|]; simpl.
  - pose proof (handled_dispatch_later i (S i) hs (Some m') w' ltac:(lia)) as H.
    destruct (dispatch (S i) hs (Some m') w') as [evs w'']. simpl in *.
    unfold handled in *. cbn. rewrite Nat.eqb_refl. cbn. by rewrite H.
  - unfold handled. cbn. by rewrite Nat.eqb_refl.
Qed.

Lemma handled_app i evs evs' : handled i (evs ++ evs') = handled i evs ++ handled i evs'.
Proof. unfold handled. apply omap_app. Qed.

End ChainGrows.

(** X14: [AddHandler] puts the handler at the end of the chain.  A message
    goes through the handlers that were there before, as it did; when none
    of them returned nil, the new handler is called, last, on what came out
    of them (on the message itself when there was none before), and when one
    of them returned nil it is not called. *)
Theorem AddHandler_runs_last {W} (s : Server W) (h : Handler W)
    (m : option Message) (w : W) :
  passToHandlers (AddHandler s h) m w =
  let '(evs, w1) := passToHandlers s m w in
  if stopped evs then (evs, w1)
  else
    let '(ret, w2) := Handle h (chainOut m evs) w1 in
    (evs ++ [EHandle (length (handlers s)) (chainOut m evs) ret], w2).
Proof.
  unfold passToHandlers, AddHandler. cbn [handlers].
  rewrite dispatch_snoc. done.
Qed.

(** ** Shutdown, further *)

(* How the loop over the listeners ends: it closes all of them, or it ends
   in the report of a failed close, from which the logger did not return. *)
Lemma closeConns_outcome {W} (lg : FatalLogger W) (i : nat) (cs : list (Listener W))
    (w : W) :
  (exists evs w1,
      closeConns lg i cs w = (evs, Some w1)
      /\ closedIndices evs = seq i (length cs))
  \/ (exists evs k e w1,
        closeConns lg i cs w = (evs ++ [EClose (i + k) (Some e); EFatal [e]], None)
        /\ (k < length cs)%nat
        /\ closedIndices evs = seq i k
        /\ NoHandle evs
        /\ Fatalln lg [e] w1 = None).
Proof.
  revert i w. induction cs as [|c cs IH]; intros i w.
  { left. by exists [], w. }
  cbn [closeConns]. destruct (Close c w) as [err w1] eqn:Hc.
  destruct err as [e|].
  - destruct (Fatalln lg [e] w1) as [w2|] eqn:Hf.
    + destruct (IH (S i) w2) as [(evs & w3 & -> & Hidx)|(evs & k & e' & w3 & -> & Hk & Hidx & Hno & Hf')].
      * left. eexists _, _. split; [done|]. unfold closedIndices in *. cbn. by rewrite Hidx.
      * right. exists (EClose i (Some e) :: EFatal [e] :: evs), (S k), e', w3.
        replace (i + S k)%nat with (S i + k)%nat by lia.
        split; [done|]. split; [simpl; lia|]. split; [|split; [|done]].
        -- unfold closedIndices in *. cbn. by rewrite Hidx.
        -- intros [|[|n]] j a r; cbn; [done..|apply Hno].
    + right. exists [], 0%nat, e, w1. rewrite Nat.add_0_r.
      split; [done|]. split; [simpl; lia|]. split; [done|]. split; [|done].
      intros n j a r. by rewrite lookup_nil.
  - destruct (IH (S i) w1) as [(evs & w3 & -> & Hidx)|(evs & k & e' & w3 & -> & Hk & Hidx & Hno & Hf')].
    + left. eexists _, _. split; [done|]. unfold closedIndices in *. cbn. by rewrite Hidx.
    + right. exists (EClose i None :: evs), (S k), e', w3.
      replace (i + S k)%nat with (S i + k)%nat by lia.
      split; [done|]. split; [simpl; lia|]. split; [|split; [|done]].
      * unfold closedIndices in *. cbn. by rewrite Hidx.
      * intros [|n] j a r; cbn; [done|apply Hno].
Qed.

(** X15: when [Shutdown] does not return, it has stopped at a listener
    whose [Close] failed and whose report the fatal logger did not return
    from: the listeners before it were closed, in order, the listeners
    after it were not, and no handler was called, so none was given nil. *)
Theorem Shutdown_stops_at_fatal {W} (s : Server W) (w : W) (evs : list Event) :
  Shutdown s w = (evs, None) ->
  exists evs0 k e w1,
    evs = evs0 ++ [EClose k (Some e); EFatal [e]]
    /\ (k < length (conns s))%nat
    /\ closedIndices evs = seq 0 (S k)
    /\ NoHandle evs
    /\ Fatalln (l s) [e] w1 = None.
Proof.
  unfold Shutdown. cbn [l conns].
  destruct (closeConns_outcome (l s) 0 (conns s) w)
    as [(evs1 & w1 & -> & _)|(evs0 & k & e & w1 & -> & Hk & Hidx & Hno & Hf)].
  { destruct (passToHandlers _ None w1). done. }
  intros [= <-]. exists evs0, k, e, w1. cbn [Nat.add].
  split; [done|]. split; [done|]. split; [|split; [|done]].
  - rewrite seq_S. unfold closedIndices in *. by rewrite omap_app, Hidx.
  - intros n j a r Hn. apply lookup_app_Some in Hn as [Hn|[_ Hn]].
    + by apply Hno in Hn.
    + destruct (n - length evs0)%nat as [|[|?]]; done.
Qed.

Lemma Shutdown_stops_at_fatal_witness :
  exists evs0 k e w1,
    [EClose 0 (Some (lit "use of closed network connection"));
     EFatal [lit "use of closed network connection"]]
    = evs0 ++ [EClose k (Some e); EFatal [e]]
    /\ (k < length (conns demo.broken))%nat
    /\ closedIndices [EClose 0 (Some (lit "use of closed network connection"));
                      EFatal [lit "use of closed network connection"]] = seq 0 (S k)
    /\ NoHandle [EClose 0 (Some (lit "use of closed network connection"));
                 EFatal [lit "use of closed network connection"]]
    /\ Fatalln (l demo.broken) [e] w1 = None.
Proof. apply (Shutdown_stops_at_fatal demo.broken 0%nat). reflexivity. Defined.

(** X16: a second [Shutdown] does nothing.  On the server that [Shutdown]
    returned, [Shutdown] closes no listener and calls no handler and no
    logger, and leaves the server as it is; and no message that is passed to
    the handlers reaches one. *)
Theorem Shutdown_twice {W} (s s' : Server W) (w w' : W) (evs : list Event) :
  Shutdown s w = (evs, Some (s', w')) ->
  (forall w2, Shutdown s' w2 = ([], Some (s', w2)))
  /\ (forall m w2, passToHandlers s' m w2 = ([], w2)).
Proof.
  unfold Shutdown. destruct (closeConns _ 0 _ w) as [evs1 [w1|]]; [|done].
  destruct (passToHandlers _ None w1) as [evs2 w2]. intros [= <- <- <-].
  split; intros; reflexivity.
Qed.

Lemma Shutdown_twice_witness :
  (forall w2, Shutdown sample.halted w2 = ([], Some (sample.halted, w2)))
  /\ (forall m w2, passToHandlers sample.halted m w2 = ([], w2)).
Proof. eapply (Shutdown_twice demo.patient sample.halted 0%nat). reflexivity. Defined.

(** ** The loop of [receiver] *)

(* A turn on an arrival that can be read: the packet is decoded and the
   message is passed to the handlers. *)
Lemma receiver_turn_readable {W} (rt : Runtime) (s : Server W) (a : Arrival) (w : W) :
  Readable a ->
  exists m lg,
    decoded rt s a = Some m
    /\ receiver_turn rt s a w
       = Next lg (fst (passToHandlers s (Some m) w)) (snd (passToHandlers s (Some m) w)).
Proof.
  intros (c & pkt & Hc & Hr & Hne).
  destruct (receiver_decode_total rt s (RemoteAddr c) (clockTime a) (clockStamp a) pkt Hne)
    as (prio & hp & rest & stamp & host & body & lg & tag & content & tag1 & content1
        & _ & _ & _ & Hd & _).
  eexists _, lg. unfold decoded, receiver_turn, receiver_step.
  rewrite Hc, Hr. cbn [fst]. rewrite Hd. cbn [bind]. split; [done|].
  by destruct (passToHandlers s _ w).
Qed.

(** X17: [receiver] passes every packet to the handlers, once and in the
    order of arrival.  When every read gives at least one byte and no
    error, the run does not end (it waits for the next connection); with a
    handler in the chain, the first handler is called once for each
    arrival, in order, on the message decoded from it; with no handler,
    nothing is called. *)
Theorem receiver_delivers_in_order {W} (rt : Runtime) (s : Server W)
    (arrivals : list Arrival) (w : W) :
  Forall Readable arrivals ->
  exists evs w',
    receiver rt s arrivals w = (evs, Waiting w')
    /\ (handlers s <> [] -> handled 0 evs = map (decoded rt s) arrivals)
    /\ (handlers s = [] -> evs = []).
Proof.
  intros Hall. revert w. induction Hall as [|a rest Ha _ IH]; intros w.
  { by exists [], w. }
  cbn [receiver].
  destruct (receiver_turn_readable rt s a w Ha) as (m & lg & Hm & ->).
  destruct (IH (snd (passToHandlers s (Some m) w))) as (evs & w' & -> & Hh & Hn).
  eexists _, _. split; [done|]. split.
  - intros Hne. rewrite handled_app, (Hh Hne). cbn [map]. rewrite Hm.
    unfold passToHandlers. destruct (handlers s) as [|h hs]; [done|].
    by rewrite handled_dispatch_first.
  - intros Hnil. rewrite (Hn Hnil). unfold passToHandlers. by rewrite Hnil.
Qed.

Lemma receiver_delivers_in_order_witness :
  exists evs w',
    receiver ref.runtime sample.counter
      [sample.datagram (lit "<13>one"); sample.datagram (lit "<14>two")] 0%nat
    = (evs, Waiting w')
    /\ handled 0 evs
       = map (decoded ref.runtime sample.counter)
           [sample.datagram (lit "<13>one"); sample.datagram (lit "<14>two")].
Proof.
  destruct (receiver_delivers_in_order ref.runtime sample.counter
              [sample.datagram (lit "<13>one"); sample.datagram (lit "<14>two")] 0%nat)
    as (evs & w' & Hr & Hh & _).
  { repeat (apply List.Forall_cons; [eexists _, _; split; [reflexivity|split; [reflexivity|done]]|]).
    apply List.Forall_nil. }
  exists evs, w'. split; [exact Hr|]. apply Hh. done.
Defined.

(** X18: a read error ends [receiver].  When the reads before it gave
    packets, these are handled as they are without it; then, unless the
    server is shut down, the error is reported to the fatal logger as
    [Read error:] with the error, and [receiver] returns, or the process
    ends when the logger does not return; what arrives later is not read.
    On a server that is shut down the error is not reported. *)
Theorem receiver_ends_at_read_error {W} (rt : Runtime) (s : Server W)
    (before later : list Arrival) (a : Arrival) (c : Conn) (pkt e : list byte) (w : W) :
  Forall Readable before ->
  conn a = Some c -> Read c = (pkt, Some e) ->
  exists evs w',
    receiver rt s before w = (evs, Waiting w')
    /\ receiver rt s (before ++ a :: later) w
       = if shutdown s then (evs, Returned w')
         else (evs ++ [EFatal [lit "Read error:"; e]],
               match Fatalln (l s) [lit "Read error:"; e] w' with
               | Some w'' => Returned w''
               | None => Exited
               end).
Proof.
  intros Hall Hc Hr. revert w. induction Hall as [|a0 rest Ha _ IH]; intros w.
  - exists [], w. split; [done|]. cbn [app receiver]. unfold receiver_turn.
    rewrite Hc, Hr. destruct (shutdown s); cbn [negb]; [done|].
    by destruct (Fatalln (l s) _ w).
  - cbn [app receiver].
    destruct (receiver_turn_readable rt s a0 w Ha) as (m & lg & Hm & ->).
    destruct (IH (snd (passToHandlers s (Some m) w))) as (evs & w' & -> & ->).
    eexists _, _. split; [done|].
    destruct (shutdown s); [done|]. by rewrite app_assoc.
Qed.

Lemma receiver_ends_at_read_error_witness :
  exists evs w',
    receiver ref.runtime sample.counter [sample.datagram (lit "<13>one")] 0%nat
    = (evs, Waiting w')
    /\ receiver ref.runtime sample.counter
         ([sample.datagram (lit "<13>one")] ++ sample.hangup
            :: [sample.datagram (lit "<14>two")]) 0%nat
       = (evs ++ [EFatal [lit "Read error:"; lit "EOF"]], Returned w').
Proof.
  apply (receiver_ends_at_read_error ref.runtime sample.counter
           [sample.datagram (lit "<13>one")] [sample.datagram (lit "<14>two")]
           sample.hangup {| RemoteAddr := ref.peer; Read := ([], Some (lit "EOF")) |}
           [] (lit "EOF") 0%nat).
  - apply List.Forall_cons; [|apply List.Forall_nil].
    eexists _, _. split; [reflexivity|split; [reflexivity|done]].
  - reflexivity.
  - reflexivity.
Defined.

(** X19: after [Shutdown] has returned, [receiver] calls no handler and no
    logger, whatever arrives: a packet is decoded and dropped, and a read
    error is not reported, so that no logger ends the process. *)
Theorem receiver_silent_after_Shutdown {W} (rt : Runtime) (s s' : Server W)
    (w0 w1 : W) (evs0 : list Event) (arrivals : list Arrival) (w : W) :
  Shutdown s w0 = (evs0, Some (s', w1)) ->
  fst (receiver rt s' arrivals w) = []
  /\ snd (receiver rt s' arrivals w) <> Exited.
Proof.
  unfold Shutdown. destruct (closeConns _ 0 _ w0) as [evs1 [w2|]]; [|done].
  destruct (passToHandlers _ None w2) as [evs2 w3]. intros [= <- <- <-].
  revert w. induction arrivals as [|a rest IH]; intros w; [done|].
  cbn [receiver]. unfold receiver_turn, receiver_step. cbn [shutdown negb].
  destruct (conn a) as [c|]; [|done].
  destruct (Read c) as [pkt [e|]]; [done|].
  destruct (receiver_decode _ _ _ _ _ pkt) as [[m lg]|why]; cbn [bind]; [|done].
  unfold passToHandlers. cbn [handlers dispatch].
  specialize (IH w). by destruct (receiver _ _ rest w).
Qed.

Lemma receiver_silent_after_Shutdown_witness :
  fst (receiver ref.runtime sample.halted
         [sample.datagram (lit "<13>one"); sample.hangup] 0%nat) = []
  /\ snd (receiver ref.runtime sample.halted
            [sample.datagram (lit "<13>one"); sample.hangup] 0%nat) <> Exited.
Proof.
  eapply (receiver_silent_after_Shutdown ref.runtime demo.patient sample.halted 0%nat).
  reflexivity.
Defined.

(** ** The default logger *)

Lemma Default_fields {W} (s : Server W) :
  Default s -> l s = stdLogger /\ shutdown s = false /\ conns s = [].
Proof. induction 1; done. Qed.

(** X20: with the logger of [NewServer] a read error ends the process, and
    [SetLogger] is what changes that.  On a server made by [NewServer],
    [AddHandler] and [AddAllowedRunes], a read that fails is reported to
    the fatal logger and the run ends there: the process exits, whatever
    arrives later.  After [SetLogger] with a logger that returns, the same
    read is reported and [receiver] returns. *)
Theorem default_logger_exits {W} (rt : Runtime) (s : Server W) (lg : FatalLogger W)
    (a : Arrival) (later : list Arrival) (c : Conn) (pkt e : list byte) (w : W) :
  Default s -> SinkReturns lg ->
  conn a = Some c -> Read c = (pkt, Some e) ->
  receiver rt s (a :: later) w = ([EFatal [lit "Read error:"; e]], Exited)
  /\ exists w',
       receiver rt (SetLogger s lg) (a :: later) w
       = ([EFatal [lit "Read error:"; e]], Returned w').
Proof.
  intros Hs Hlg Hc Hr. destruct (Default_fields s Hs) as (Hl & Hsh & _).
  cbn [receiver]. unfold receiver_turn. rewrite Hc, Hr. cbn [shutdown l SetLogger].
  rewrite Hsh, Hl. cbn [negb stdLogger Fatalln]. split; [done|].
  destruct (Hlg [lit "Read error:"; e] w) as [w' Hw]. exists w'. by rewrite Hw.
Qed.

Lemma default_logger_exits_witness :
  receiver ref.runtime (AddAllowedRunes (AddHandler NewServer sample.counting) (lit "-"))
    (sample.hangup :: [sample.datagram (lit "<13>one")]) 0%nat
  = ([EFatal [lit "Read error:"; lit "EOF"]], Exited)
  /\ exists w',
       receiver ref.runtime
         (SetLogger (AddAllowedRunes (AddHandler NewServer sample.counting) (lit "-"))
            demo.quiet)
         (sample.hangup :: [sample.datagram (lit "<13>one")]) 0%nat
       = ([EFatal [lit "Read error:"; lit "EOF"]], Returned w').
Proof.
  apply (default_logger_exits ref.runtime _ demo.quiet sample.hangup
           [sample.datagram (lit "<13>one")]
           {| RemoteAddr := ref.peer; Read := ([], Some (lit "EOF")) |} [] (lit "EOF")).
  - apply DefaultRunes, DefaultHandler, DefaultNew.
  - intros v w. by eexists.
  - reflexivity.
  - reflexivity.
Defined.
